(** * Antigravity process manager: lifecycle controller

    A shallow embedding of [src/gui/process_manager.py]
    ([is_process_running], [close_antigravity], [start_antigravity]) and the
    properties of its detection, shutdown and launch protocols.

    Modelling conventions.
    - Python [str] values are [string]s whose characters are the code points
      0..255; [str.lower] is the Unicode lower-casing restricted to that
      range, and [a in b] on strings is [contains a b].
    - The operating system (psutil, subprocess, time, the helpers imported
      from [utils]) is an arbitrary record of transition functions over an
      abstract world [W]; each may raise.  Raised exceptions are instances of
      Python's [Exception] class (the only ones the source's handlers catch).
    - Wall-clock time is counted in milliseconds; [timeout] is a whole number
      of seconds.
    - A run of the program yields, besides its outcome and the world it
      leaves, the chronological trace of what it did (log lines, signals,
      liveness queries, sleeps).
    - The logging helpers [info], [warning] and [error] only append to the
      trace. *)

From Stdlib Require Import ZArith List Bool Ascii String Lia.
Import ListNotations.

Open Scope string_scope.
Open Scope Z_scope.

(** ** Strings, as Python uses them *)

Module PyStr.

(** One character of [str.lower()]: A..Z and the Latin-1 capitals
    (U+00C0..U+00DE without the multiplication sign U+00D7) move up by 32. *)
Definition lower_char (c : ascii) : ascii :=
  let n := N_of_ascii c in
  if ((65 <=? n) && (n <=? 90))%N
     || ((192 <=? n) && (n <=? 222) && negb (n =? 215))%N
  then ascii_of_N (n + 32)
  else c.

Fixpoint lower (s : string) : string :=
  match s with
  | EmptyString => EmptyString
  | String c s' => String (lower_char c) (lower s')
  end.

(** [sub in s] *)
Fixpoint contains (sub s : string) : bool :=
  String.prefix sub s ||
  match s with
  | EmptyString => false
  | String _ s' => contains sub s'
  end.

(** Truthiness of a string: [bool(s)]. *)
Definition truthy (s : string) : bool :=
  match s with EmptyString => false | _ => true end.

(** [x in [a, b, ...]] for strings. *)
Definition mem (x : string) (l : list string) : bool :=
  existsb (String.eqb x) l.

End PyStr.

(** ** Process handles *)

(** What [psutil.process_iter(['pid', 'name', 'exe'])] yields: the pid and the
    [info] dictionary, whose values are [None] when the read was refused. *)
Record Proc := mkProc {
  pid : Z;
  info_name : option string;
  info_exe : option string
}.

(** [proc.info['name'].lower() if proc.info['name'] else ''] *)
Definition process_name_lower (p : Proc) : string :=
  match info_name p with
  | Some n => if PyStr.truthy n then PyStr.lower n else EmptyString
  | None => EmptyString
  end.

(** [proc.info.get('exe', '').lower() if proc.info.get('exe') else ''] *)
Definition exe_path (p : Proc) : string :=
  match info_exe p with
  | Some e => if PyStr.truthy e then PyStr.lower e else EmptyString
  | None => EmptyString
  end.

(** ** Classification *)

(** The detection rule of [is_process_running] (lines 27-39). *)
Definition is_antigravity_detect (system : string) (p : Proc) : bool :=
  if (system =? "Darwin")%string then
    PyStr.contains "antigravity.app" (exe_path p)
  else if (system =? "Windows")%string then
    PyStr.mem (process_name_lower p) ["antigravity.exe"; "antigravity"]
    || PyStr.contains "antigravity" (exe_path p)
  else
    (process_name_lower p =? "antigravity")%string
    || PyStr.contains "antigravity" (exe_path p).

(** The rule of [close_antigravity] (lines 129-145). *)
Definition is_antigravity_close (system : string) (p : Proc) : bool :=
  if (system =? "Darwin")%string then
    PyStr.contains "antigravity.app" (exe_path p)
  else if (system =? "Windows")%string then
    let is_target_name :=
      PyStr.mem (process_name_lower p) ["antigravity.exe"; "antigravity"] in
    let is_in_path := PyStr.contains "antigravity" (exe_path p) in
    let is_manager := PyStr.contains "manager" (process_name_lower p) in
    is_target_name || (is_in_path && negb is_manager)
  else
    (process_name_lower p =? "antigravity")%string
    || PyStr.contains "antigravity" (exe_path p).

(** The controller's identity: [platform.system()], [os.getpid()] and
    [os.path.dirname(os.path.abspath(sys.executable))], the last being [None]
    when that computation raises (the bare [except: pass] of lines 119-126). *)
Record Config := mkConfig {
  system : string;
  getpid : Z;
  current_dir : option string
}.

(** Lines 112-126: the two [continue]s that skip the controller itself. *)
Definition excluded_self (cfg : Config) (p : Proc) : bool :=
  (pid p =? getpid cfg)%Z
  || match current_dir cfg with
     | Some d =>
         PyStr.truthy (exe_path p) && PyStr.contains (PyStr.lower d) (exe_path p)
     | None => false
     end.

(** One handle is appended to [target_processes] (lines 107-152). *)
Definition is_shutdown_target (cfg : Config) (p : Proc) : bool :=
  negb (excluded_self cfg p) && is_antigravity_close (system cfg) p.

(** [target_processes] after the scan of an enumeration. *)
Definition target_processes (cfg : Config) (procs : list Proc) : list Proc :=
  filter (is_shutdown_target cfg) procs.

(** ** Exceptions, log lines and the trace *)

(** The exceptions the handlers of the source tell apart: the two psutil
    ones, the [NameError] of an unbound local, and every other [Exception]. *)
Inductive exn :=
| NoSuchProcess
| AccessDenied
| NameError (var : string)
| OtherException (what : string).

(** The value an interpolated field of an f-string was built from. *)
Inductive fmt_arg :=
| AStr (s : string)
| AName (n : option string)
| AInt (z : Z)
| AExn (e : exn)
| AProcs (l : list (option string * Z)).

Inductive level := Info | Warning | Error.

(** What the controller did, in order. *)
Inductive event :=
| EvLog (l : level) (fmt : string) (args : list fmt_arg)
| EvRun (argv : list string)
| EvSleep (ms : Z)
| EvTime (t : Z)
| EvProcessIter
| EvIsRunning (p : Proc) (running : option bool)
| EvTerminate (p : Proc)
| EvKill (p : Proc)
| EvOpenUri (uri : string)
| EvGetExecutablePath
| EvPathExists (path : string)
| EvPopen (argv : list string).

(** What a call into the operating system answers. *)
Inductive answer (A : Type) :=
| Ok (a : A)
| Throws (e : exn).
Arguments Ok {A} a.
Arguments Throws {A} e.

(** What a piece of the program ends with; [OutOfFuel] stands for a loop or a
    recursion that did not finish within the given number of rounds. *)
Inductive outcome (A : Type) :=
| Ret (a : A)
| Raise (e : exn)
| OutOfFuel.
Arguments Ret {A} a.
Arguments Raise {A} e.
Arguments OutOfFuel {A}.

(** ** The operating system *)

Record OS (W : Type) := mkOS {
  (** [time.time()], in milliseconds *)
  os_time : W -> Z * W;
  (** [time.sleep(ms / 1000)] *)
  os_sleep : Z -> W -> answer unit * W;
  (** [subprocess.run(argv, capture_output=True, timeout=3).returncode] *)
  os_run : list string -> W -> answer Z * W;
  (** [psutil.process_iter(...)]: the handles yielded and the exception that
      ended the iteration, if one did *)
  os_process_iter : W -> (list Proc * option exn) * W;
  (** [proc.is_running()], [proc.terminate()], [proc.kill()] *)
  os_is_running : Proc -> W -> answer bool * W;
  os_terminate : Proc -> W -> answer unit * W;
  os_kill : Proc -> W -> answer unit * W;
  (** [utils.open_uri(uri)] *)
  os_open_uri : string -> W -> answer bool * W;
  (** [utils.get_antigravity_executable_path()]: a [Path] or [None] *)
  os_get_executable_path : W -> answer (option string) * W;
  (** [path.exists()] *)
  os_path_exists : string -> W -> answer bool * W;
  (** [subprocess.Popen(argv, ...)] *)
  os_popen : list string -> W -> answer unit * W
}.
Arguments os_time {W}.
Arguments os_sleep {W}.
Arguments os_run {W}.
Arguments os_process_iter {W}.
Arguments os_is_running {W}.
Arguments os_terminate {W}.
Arguments os_kill {W}.
Arguments os_open_uri {W}.
Arguments os_get_executable_path {W}.
Arguments os_path_exists {W}.
Arguments os_popen {W}.

(** ** The monad of the controller

    A computation starts in a world and ends with an outcome, the world it
    left behind and the trace of what it did, in order. *)

Definition M (W A : Type) : Type := W -> outcome A * W * list event.

Definition ret {W A} (a : A) : M W A := fun w => (Ret a, w, []).

Definition raise {W A} (e : exn) : M W A := fun w => (Raise e, w, []).

Definition out_of_fuel {W A} : M W A := fun w => (OutOfFuel, w, []).

Definition bind {W A B} (m : M W A) (k : A -> M W B) : M W B :=
  fun w =>
    match m w with
    | (Ret a, w1, t1) =>
        match k a w1 with
        | (o, w2, t2) => (o, w2, (t1 ++ t2)%list)
        end
    | (Raise e, w1, t1) => (Raise e, w1, t1)
    | (OutOfFuel, w1, t1) => (OutOfFuel, w1, t1)
    end.

(** [try: m  except Exception as e: h e] *)
Definition try_except {W A} (m : M W A) (h : exn -> M W A) : M W A :=
  fun w =>
    match m w with
    | (Raise e, w1, t1) =>
        match h e w1 with
        | (o, w2, t2) => (o, w2, (t1 ++ t2)%list)
        end
    | r => r
    end.

(** [try: m  except (psutil.NoSuchProcess, psutil.AccessDenied): h] *)
Definition try_except_psutil {W A} (m : M W A) (h : M W A) : M W A :=
  try_except m
    (fun e =>
       match e with
       | NoSuchProcess | AccessDenied => h
       | _ => raise e
       end).

Declare Scope monad_scope.
Delimit Scope monad_scope with monad.
Notation "x <- m ;; k" := (bind m (fun x => k))
  (at level 61, m at next level, right associativity) : monad_scope.
Notation "m ;; k" := (bind m (fun _ => k))
  (at level 61, right associativity) : monad_scope.
Open Scope monad_scope.

Definition emit {W} (ev : event) : M W unit :=
  fun w => (Ret tt, w, [ev]).

(** A call into the OS: the world moves, the call is recorded together with
    what it answered, and the answer comes back as a value or as a raised
    exception. *)
Definition call {W A} (f : W -> answer A * W) (ev : answer A -> event)
  : M W A :=
  fun w =>
    let (r, w') := f w in
    (match r with Ok a => Ret a | Throws e => Raise e end, w', [ev r]).

Definition info {W} (fmt : string) (args : list fmt_arg) : M W unit :=
  emit (EvLog Info fmt args).
Definition warning {W} (fmt : string) (args : list fmt_arg) : M W unit :=
  emit (EvLog Warning fmt args).
Definition error {W} (fmt : string) (args : list fmt_arg) : M W unit :=
  emit (EvLog Error fmt args).

(** ** The controller *)

Definition dquote : string := String (ascii_of_nat 34) EmptyString.

Definition observed (r : answer bool) : option bool :=
  match r with Ok b => Some b | Throws _ => None end.

(** [", ".join([f"{p.info['name']}({p.pid})" for p in l])] *)
Definition names_of (l : list Proc) : list (option string * Z) :=
  map (fun p => (info_name p, pid p)) l.

(** How the polling loop of lines 174-187 is left: by its [return True], or
    by its condition turning false, with the local [still_running] bound to
    the last round's list or still unbound. *)
Inductive poll_exit :=
| AllExited
| TimedOut (still_running : option (list Proc)).

Section Controller.

Context {W : Type}.
Variable os : OS W.
Variable cfg : Config.

Definition time_time : M W Z :=
  fun w => let (t, w') := os_time os w in (Ret t, w', [EvTime t]).

Definition time_sleep (ms : Z) : M W unit :=
  call (os_sleep os ms) (fun _ => EvSleep ms).

Definition subprocess_run (argv : list string) : M W Z :=
  call (os_run os argv) (fun _ => EvRun argv).

Definition is_running (p : Proc) : M W bool :=
  call (os_is_running os p) (fun r => EvIsRunning p (observed r)).

Definition terminate (p : Proc) : M W unit :=
  call (os_terminate os p) (fun _ => EvTerminate p).

Definition kill (p : Proc) : M W unit :=
  call (os_kill os p) (fun _ => EvKill p).

Definition open_uri (uri : string) : M W bool :=
  call (os_open_uri os uri) (fun _ => EvOpenUri uri).

Definition get_antigravity_executable_path : M W (option string) :=
  call (os_get_executable_path os) (fun _ => EvGetExecutablePath).

Definition path_exists (path : string) : M W bool :=
  call (os_path_exists os path) (fun _ => EvPathExists path).

Definition popen (argv : list string) : M W unit :=
  call (os_popen os argv) (fun _ => EvPopen argv).

(** [psutil.process_iter]: the handles it yields before it is exhausted or
    raises. *)
Definition process_iter : M W (list Proc * option exn) :=
  fun w => let (r, w') := os_process_iter os w in (Ret r, w', [EvProcessIter]).

(** *** [is_process_running] (lines 11-46) *)

(** The loop over the handles that were yielded; [None] when it ran to the
    end without returning. *)
Fixpoint detect_loop (procs : list Proc) : option bool :=
  match procs with
  | [] => None
  | p :: rest =>
      if is_antigravity_detect (system cfg) p then Some true
      else detect_loop rest
  end.

Definition is_process_running : M W bool :=
  r <- process_iter ;;
  match detect_loop (fst r) with
  | Some b => ret b
  | None =>
      match snd r with
      | Some e => raise e
      | None => ret false
      end
  end.

(** *** [close_antigravity] (lines 48-228) *)

(** Lines 67-101: the platform's own quit request; every failure is
    swallowed into a warning.  (The [STARTUPINFO] object built on Windows is
    not passed to anything and is left out.) *)
Definition platform_quit : M W unit :=
  if (system cfg =? "Darwin")%string then
    info "Attempting graceful exit via AppleScript..." [] ;;
    try_except
      (rc <- subprocess_run
               ["osascript"; "-e";
                "tell application " ++ dquote ++ "Antigravity" ++ dquote
                ++ " to quit"] ;;
       if rc =? 0 then
         info "Quit request sent, waiting for app to respond..." [] ;;
         time_sleep 2000
       else ret tt)
      (fun e =>
         warning "AppleScript quit failed: {}, will use other methods"
                 [AExn e])
  else if (system cfg =? "Windows")%string then
    info "Attempting graceful exit via taskkill..." [] ;;
    try_except
      (rc <- subprocess_run ["taskkill"; "/IM"; "Antigravity.exe"; "/T"] ;;
       if rc =? 0 then
         info "Quit request sent, waiting for app to respond..." [] ;;
         time_sleep 2000
       else ret tt)
      (fun e =>
         warning "taskkill quit failed: {}, will use other methods"
                 [AExn e])
  else ret tt.

(** Lines 106-152: the body of the collecting loop, over the handles the
    iterator yielded. *)
Fixpoint scan (procs : list Proc) (acc : list Proc) : M W (list Proc) :=
  match procs with
  | [] => ret acc
  | p :: rest =>
      if excluded_self cfg p then scan rest acc
      else if is_antigravity_close (system cfg) p then
        info "Found target process: {} ({}) - {}"
             [AName (info_name p); AInt (pid p); AStr (exe_path p)] ;;
        scan rest (acc ++ [p])%list
      else scan rest acc
  end.

(** Lines 162-169: SIGTERM to every target, every exception swallowed. *)
Fixpoint terminate_all (targets : list Proc) : M W unit :=
  match targets with
  | [] => ret tt
  | p :: rest =>
      try_except
        (alive <- is_running p ;;
         if alive then terminate p else ret tt)
        (fun _ => ret tt) ;;
      terminate_all rest
  end.

(** Lines 175-181 and 205-211: the handles that answer [is_running()]
    with true; the two psutil exceptions skip the handle. *)
Fixpoint collect_running (targets : list Proc) (acc : list Proc)
  : M W (list Proc) :=
  match targets with
  | [] => ret acc
  | p :: rest =>
      acc' <- try_except_psutil
                (alive <- is_running p ;;
                 ret (if alive then (acc ++ [p])%list else acc))
                (ret acc) ;;
      collect_running rest acc'
  end.

(** Lines 196-201: SIGKILL to every handle that still runs. *)
Fixpoint kill_all (still_running : list Proc) : M W unit :=
  match still_running with
  | [] => ret tt
  | p :: rest =>
      try_except_psutil
        (alive <- is_running p ;;
         if alive then kill p else ret tt)
        (ret tt) ;;
      kill_all rest
  end.

(** Lines 174-187: the polling loop.  [fuel] bounds the number of rounds the
    model runs; a loop that would need more ends as [OutOfFuel]. *)
Fixpoint poll_loop (fuel : nat) (start_time timeout : Z)
         (targets : list Proc) (still_running : option (list Proc))
  : M W poll_exit :=
  match fuel with
  | O => out_of_fuel
  | S fuel' =>
      now <- time_time ;;
      if now - start_time <? timeout * 1000 then
        running <- collect_running targets [] ;;
        match running with
        | [] =>
            info "All Antigravity processes have been closed" [] ;;
            ret AllExited
        | _ :: _ =>
            time_sleep 500 ;;
            poll_loop fuel' start_time timeout targets (Some running)
        end
      else ret (TimedOut still_running)
  end.

(** Lines 203-219: the settle period and the final check. *)
Definition final_check_phase (still_running : list Proc) : M W bool :=
  time_sleep 1000 ;;
  final_check <- collect_running still_running [] ;;
  match final_check with
  | [] =>
      info "All Antigravity processes have been terminated" [] ;;
      ret true
  | _ :: _ =>
      error "Unable to terminate processes: {}"
            [AProcs (names_of final_check)] ;;
      ret false
  end.

(** Lines 189-224: what follows the polling loop. *)
Definition force_phase (force_kill : bool)
           (still_running : option (list Proc)) : M W bool :=
  match still_running with
  | None => raise (NameError "still_running")
  | Some [] => ret true
  | Some ((_ :: _) as running) =>
      warning "{} process(es) still running: {}"
              [AInt (Z.of_nat (List.length running)); AProcs (names_of running)] ;;
      if force_kill then
        info "Sending force kill signal (SIGKILL)..." [] ;;
        kill_all running ;;
        final_check_phase running
      else
        error "Some processes could not be closed, please close them manually and retry" [] ;;
        ret false
  end.

(** Lines 160-187: SIGTERM, then the bounded wait. *)
Definition graceful_phase (fuel : nat) (timeout : Z) (targets : list Proc)
  : M W poll_exit :=
  info "Detected {} process(es) still running"
       [AInt (Z.of_nat (List.length targets))] ;;
  info "Sending termination signal (SIGTERM)..." [] ;;
  terminate_all targets ;;
  info "Waiting for processes to exit (up to {} seconds)..."
       [AInt timeout] ;;
  start_time <- time_time ;;
  poll_loop fuel start_time timeout targets None.

(** Lines 105-152: enumerate and collect [target_processes]. *)
Definition collect_targets : M W (list Proc) :=
  r <- process_iter ;;
  targets <- scan (fst r) [] ;;
  match snd r with
  | Some e => raise e
  | None => ret targets
  end.

(** Lines 67-224: the body of the outer [try]. *)
Definition close_body (fuel : nat) (timeout : Z) (force_kill : bool)
  : M W bool :=
  platform_quit ;;
  targets <- collect_targets ;;
  match targets with
  | [] =>
      info "All Antigravity processes have been closed" [] ;;
      ret true
  | _ :: _ =>
      exit <- graceful_phase fuel timeout targets ;;
      match exit with
      | AllExited => ret true
      | TimedOut still_running => force_phase force_kill still_running
      end
  end.

Definition close_antigravity (fuel : nat) (timeout : Z) (force_kill : bool)
  : M W bool :=
  info "Attempting to close Antigravity..." [] ;;
  (if PyStr.mem (system cfg) ["Darwin"; "Windows"; "Linux"] then ret tt
   else warning "Unknown platform: {}, will try generic method"
                [AStr (system cfg)]) ;;
  try_except
    (close_body fuel timeout force_kill)
    (fun e =>
       error "Error while closing Antigravity processes: {}" [AExn e] ;;
       ret false).

End Controller.

(** *** [start_antigravity] (lines 230-277) *)

Section Launcher.

Context {W : Type}.
Variable os : OS W.
Variable cfg : Config.

(** Lines 242-251: the URI attempt; [Some true] is its [return True],
    [None] lets control fall through to the executable path. *)
Definition uri_launch (use_uri : bool) : M W (option bool) :=
  if use_uri then
    info "Launching via URI protocol..." [] ;;
    ok <- open_uri os "antigravity://oauth-success" ;;
    if ok then
      info "Antigravity URI launch command sent" [] ;;
      ret (Some true)
    else
      warning "URI launch failed, trying executable path..." [] ;;
      ret None
  else ret None.

(** Lines 255-267: the platform's way to start the executable; false is
    the [return False] of line 265. *)
Definition spawn_target : M W bool :=
  if (system cfg =? "Darwin")%string then
    popen os ["open"; "-a"; "Antigravity"] ;; ret true
  else if (system cfg =? "Windows")%string then
    path <- get_antigravity_executable_path os ;;
    match path with
    | Some exe =>
        present <- path_exists os exe ;;
        if present then popen os [exe] ;; ret true
        else
          error "Antigravity executable not found" [] ;;
          warning "Hint: Try using URI protocol to launch (use_uri=True)" [] ;;
          ret false
    | None =>
        error "Antigravity executable not found" [] ;;
        warning "Hint: Try using URI protocol to launch (use_uri=True)" [] ;;
        ret false
    end
  else if (system cfg =? "Linux")%string then
    popen os ["antigravity"] ;; ret true
  else ret true.

(** Lines 254-270: the launch by executable path. *)
Definition path_launch : M W bool :=
  info "Launching via executable path..." [] ;;
  spawned <- spawn_target ;;
  if spawned then
    info "Antigravity launch command sent" [] ;;
    ret true
  else ret false.

(** The recursion of line 276 is counted by [fuel]: a call that would
    recurse deeper ends as [OutOfFuel]. *)
Fixpoint start_antigravity (fuel : nat) (use_uri : bool) : M W bool :=
  match fuel with
  | O => out_of_fuel
  | S fuel' =>
      info "Starting Antigravity..." [] ;;
      try_except
        (via_uri <- uri_launch use_uri ;;
         match via_uri with
         | Some b => ret b
         | None => path_launch
         end)
        (fun e =>
           error "Error starting process: {}" [AExn e] ;;
           if use_uri then
             warning "URI launch failed, trying executable path..." [] ;;
             start_antigravity fuel' false
           else ret false)
  end.

End Launcher.

(** ** A simulated operating system

    A process table with a clock, used to run the controller on concrete
    scenarios.  A process exits at its scheduled time; SIGTERM schedules the
    exit of a process that honours it; SIGKILL ends a process that can be
    killed at once.  A handle whose process has exited never runs again. *)

Module Sim.

Record SimProc := mkSimProc {
  handle : Proc;
  exits_at : option Z;
  (** delay between SIGTERM and exit; [None] when SIGTERM is ignored *)
  on_terminate : option Z;
  (** whether SIGKILL ends the process *)
  on_kill : bool
}.

Record World := mkWorld {
  now : Z;
  table : list SimProc;
  (** answers of the external tools *)
  quit_tool : answer Z;
  uri_handler : answer bool;
  install_path : answer (option string);
  install_present : answer bool;
  spawn : answer unit
}.

Definition set_now (t : Z) (w : World) : World :=
  mkWorld t (table w) (quit_tool w) (uri_handler w) (install_path w)
          (install_present w) (spawn w).

Definition set_table (tb : list SimProc) (w : World) : World :=
  mkWorld (now w) tb (quit_tool w) (uri_handler w) (install_path w)
          (install_present w) (spawn w).

Definition alive_at (t : Z) (sp : SimProc) : bool :=
  match exits_at sp with
  | Some d => t <? d
  | None => true
  end.

Definition running (p : Proc) (w : World) : bool :=
  existsb (fun sp => (pid (handle sp) =? pid p) && alive_at (now w) sp)
          (table w).

Definition sigterm (t : Z) (p : Proc) (sp : SimProc) : SimProc :=
  if (pid (handle sp) =? pid p) && alive_at t sp then
    match on_terminate sp with
    | Some d => mkSimProc (handle sp) (Some (t + d)) (on_terminate sp) (on_kill sp)
    | None => sp
    end
  else sp.

Definition sigkill (t : Z) (p : Proc) (sp : SimProc) : SimProc :=
  if (pid (handle sp) =? pid p) && alive_at t sp && on_kill sp then
    mkSimProc (handle sp) (Some t) (on_terminate sp) (on_kill sp)
  else sp.

Definition os : OS World := {|
  os_time := fun w => (now w, w);
  os_sleep := fun ms w => (Ok tt, set_now (now w + ms) w);
  os_run := fun _ w => (quit_tool w, w);
  os_process_iter := fun w =>
    (map handle (filter (alive_at (now w)) (table w)), None, w);
  os_is_running := fun p w => (Ok (running p w), w);
  os_terminate := fun p w =>
    (Ok tt, set_table (map (sigterm (now w) p) (table w)) w);
  os_kill := fun p w =>
    (Ok tt, set_table (map (sigkill (now w) p) (table w)) w);
  os_open_uri := fun _ w => (uri_handler w, w);
  os_get_executable_path := fun w => (install_path w, w);
  os_path_exists := fun _ w => (install_present w, w);
  os_popen := fun _ w => (spawn w, w)
|}.

(** The same system, except that every liveness query fails with an
    exception that is not one of psutil's. *)
Definition os_faulty : OS World := {|
  os_time := os_time os;
  os_sleep := os_sleep os;
  os_run := os_run os;
  os_process_iter := os_process_iter os;
  os_is_running := fun _ w => (Throws (OtherException "RuntimeError"), w);
  os_terminate := os_terminate os;
  os_kill := os_kill os;
  os_open_uri := os_open_uri os;
  os_get_executable_path := os_get_executable_path os;
  os_path_exists := os_path_exists os;
  os_popen := os_popen os
|}.

End Sim.

(** ** Vocabulary of the properties *)

(** The outcome, the final world and the trace of a run. *)
Definition result {W A} (m : M W A) (w : W) : outcome A := fst (fst (m w)).

Definition final {W A} (m : M W A) (w : W) : W := snd (fst (m w)).

Definition events {W A} (m : M W A) (w : W) : list event := snd (m w).

(** Every event of a computation satisfies [P], and every value it returns
    satisfies [Q]. *)
Definition triple {W A} (m : M W A) (P : event -> Prop) (Q : A -> Prop)
  : Prop :=
  forall w o w' tr,
    m w = (o, w', tr) ->
    Forall P tr /\ (forall a, o = Ret a -> Q a).

(** A computation that never runs out of fuel. *)
Definition total {W A} (m : M W A) : Prop :=
  forall w, result m w <> OutOfFuel.

(** [path] is at or below the directory [dir], names compared without
    regard to case, as the controller compares them. *)
Definition lies_under (dir path : string) : Prop :=
  exists rest, PyStr.lower path = PyStr.lower dir ++ rest.

(** The handle is the controller itself or a program of its own directory. *)
Definition self_handle (cfg : Config) (p : Proc) : Prop :=
  pid p = getpid cfg \/
  exists exe dir,
    info_exe p = Some exe /\ exe <> EmptyString /\
    current_dir cfg = Some dir /\ lies_under dir exe.

Definition is_signal_to (p : Proc) (ev : event) : Prop :=
  ev = EvTerminate p \/ ev = EvKill p.

(** Signals go to shutdown-eligible handles only. *)
Definition signals_targets_only (cfg : Config) (ev : event) : Prop :=
  match ev with
  | EvTerminate p | EvKill p => is_shutdown_target cfg p = true
  | _ => True
  end.

Definition not_a_kill (ev : event) : Prop :=
  match ev with EvKill _ => False | _ => True end.

Definition not_a_signal (ev : event) : Prop :=
  match ev with EvTerminate _ | EvKill _ => False | _ => True end.

Definition is_liveness_query (ev : event) : Prop :=
  match ev with EvIsRunning _ _ => True | _ => False end.

Definition not_a_clock_reading (ev : event) : Prop :=
  match ev with EvTime _ => False | _ => True end.

Definition not_a_uri_open (ev : event) : Prop :=
  match ev with EvOpenUri _ => False | _ => True end.

(** The exact target names of the Windows rule. *)
Definition is_target_name (p : Proc) : bool :=
  PyStr.mem (process_name_lower p) ["antigravity.exe"; "antigravity"].

(** Lines 67-187 of [close_antigravity]: everything up to the end of the
    polling loop; [None] when no target was found. *)
Definition phase_one {W} (os : OS W) (cfg : Config) (fuel : nat) (timeout : Z)
  : M W (option poll_exit) :=
  platform_quit os cfg ;;
  targets <- collect_targets os cfg ;;
  match targets with
  | [] => ret None
  | _ :: _ =>
      exit <- graceful_phase os fuel timeout targets ;;
      ret (Some exit)
  end.

(** Lines 154-156 and 189-224: what [close_antigravity] does with the exit
    of the polling loop. *)
Definition after_phase_one {W} (os : OS W) (force_kill : bool)
           (reached : option poll_exit) : M W bool :=
  match reached with
  | None => info "All Antigravity processes have been closed" [] ;; ret true
  | Some AllExited => ret true
  | Some (TimedOut still_running) => force_phase os force_kill still_running
  end.

(** What [close_antigravity] logs before it enters its [try]. *)
Definition prologue (cfg : Config) : list event :=
  EvLog Info "Attempting to close Antigravity..." [] ::
  (if PyStr.mem (system cfg) ["Darwin"; "Windows"; "Linux"] then []
   else [EvLog Warning "Unknown platform: {}, will try generic method"
                 [AStr (system cfg)]]).

(** The log line that precedes the polling loop. *)
Definition waiting_log (timeout : Z) : event :=
  EvLog Info "Waiting for processes to exit (up to {} seconds)..."
        [AInt timeout].

(** The log line of the top-level handler. *)
Definition close_error (e : exn) : event :=
  EvLog Error "Error while closing Antigravity processes: {}" [AExn e].

(** The log lines of the scan, one for each target found. *)
Definition found_log (targets : list Proc) : list event :=
  map (fun p => EvLog Info "Found target process: {} ({}) - {}"
                      [AName (info_name p); AInt (pid p); AStr (exe_path p)])
      targets.

(** [clock] measures the time of a world: readings of [time.time()] lie
    between the clock before and after the call, no liveness query turns the
    clock back, and a sleep that returns has moved it by at least the time
    slept. *)
Record ticking {W} (os : OS W) (clock : W -> Z) : Prop := mkTicking {
  tick_time : forall w,
    clock w <= fst (os_time os w) <= clock (snd (os_time os w));
  tick_sleep : forall ms w,
    fst (os_sleep os ms w) = Ok tt ->
    clock w + ms <= clock (snd (os_sleep os ms w));
  tick_is_running : forall p w,
    clock w <= clock (snd (os_is_running os p w))
}.

(** Of two readings of [time.time()] in a row, the second is not the
    earlier one. *)
Definition clock_monotone {W} (os : OS W) : Prop :=
  forall w, fst (os_time os w) <= fst (os_time os (snd (os_time os w))).

(** Liveness of a handle is sticky: once [is_running()] has answered false
    for it, it never answers true again. *)
Definition sticky (p : Proc) (tr : list event) : Prop :=
  forall a b,
    tr = (a ++ EvIsRunning p (Some false) :: b)%list ->
    ~ In (EvIsRunning p (Some true)) b.

(** ** Scenarios *)

Module Scenario.

Definition backslash : string := String (ascii_of_nat 92) EmptyString.

(** [C:\a\b\c] from its components. *)
Definition win_path (parts : list string) : string :=
  String.concat backslash parts.

(** The controller: pid 200, running on Windows from its own directory. *)
Definition cfg : Config :=
  mkConfig "Windows" 200 (Some (win_path ["C:"; "Tools"; "Controller"])).

Definition cfg_linux : Config :=
  mkConfig "Linux" 200 (Some "/opt/controller").

Definition p100 : Proc :=
  mkProc 100 (Some "antigravity.exe")
         (Some (win_path ["C:"; "Program Files"; "Antigravity";
                          "antigravity.exe"])).

Definition p101 : Proc :=
  mkProc 101 (Some "antigravity")
         (Some (win_path ["C:"; "Program Files"; "Antigravity"; "bin";
                          "antigravity"])).

Definition p200 (name exe : option string) : Proc := mkProc 200 name exe.

(** The companion program whose name only resembles the target's. *)
Definition manager : Proc :=
  mkProc 300 (Some "Antigravity Manager.exe")
         (Some (win_path ["C:"; "Program Files"; "Antigravity Manager";
                          "Antigravity Manager.exe"])).

(** The controller itself, named like the target. *)
Definition self_named_target : Proc :=
  p200 (Some "antigravity.exe") None.

(** A program in the controller's directory. *)
Definition colocated : Proc :=
  mkProc 400 (Some "antigravity.exe")
         (Some (win_path ["C:"; "Tools"; "Controller"; "antigravity.exe"])).

Definition world_of (table : list Sim.SimProc) : Sim.World :=
  Sim.mkWorld 0 table (Ok 128) (Ok true) (Ok None) (Ok false) (Ok tt).

(** Pid 100 exits [delay] ms after SIGTERM, pid 101 ignores SIGTERM, pid
    200 is the controller. *)
Definition three (delay : Z) (name exe : option string) : Sim.World :=
  world_of [Sim.mkSimProc p100 None (Some delay) true;
            Sim.mkSimProc p101 None None true;
            Sim.mkSimProc (p200 name exe) None None true].

(** Only a process that ignores SIGTERM. *)
Definition stubborn : Sim.World :=
  world_of [Sim.mkSimProc p101 None None true].

(** Only the companion program. *)
Definition manager_only : Sim.World :=
  world_of [Sim.mkSimProc manager None None true].

(** Nothing to close. *)
Definition idle : Sim.World := world_of [].

(** Every spawn fails, while the URI handler would accept the link. *)
Definition spawn_fails : Sim.World :=
  Sim.mkWorld 0 [] (Ok 128) (Ok true) (Ok None) (Ok false)
              (Throws (OtherException "FileNotFoundError")).

(** The URI handler raises; spawning works. *)
Definition uri_raises : Sim.World :=
  Sim.mkWorld 0 [] (Ok 128) (Throws (OtherException "OSError")) (Ok None)
              (Ok false) (Ok tt).

(** The URI handler declines and every spawn fails. *)
Definition nothing_works : Sim.World :=
  Sim.mkWorld 0 [] (Ok 128) (Ok false) (Ok None) (Ok false)
              (Throws (OtherException "FileNotFoundError")).

End Scenario.

(** The link [start_antigravity] opens, and the log lines around it. *)
Definition oauth_uri : string := "antigravity://oauth-success".

Definition starting_log : event := EvLog Info "Starting Antigravity..." [].

Definition uri_attempt_log : event :=
  EvLog Info "Launching via URI protocol..." [].

Definition uri_failed_log : event :=
  EvLog Warning "URI launch failed, trying executable path..." [].

Definition start_error (e : exn) : event :=
  EvLog Error "Error starting process: {}" [AExn e].

(** What [start_antigravity(use_uri=False)] makes of its one launch by
    executable path. *)
Definition path_only_result (o : outcome bool) : outcome bool :=
  match o with
  | Raise _ => Ret false
  | _ => o
  end.

Definition path_only_log (o : outcome bool) : list event :=
  match o with
  | Raise e => [start_error e]
  | _ => []
  end.

(** The number of launch strategies a trace shows being tried: URI opens and
    launches by executable path. *)
Definition is_attempt (ev : event) : bool :=
  match ev with
  | EvOpenUri _ => true
  | EvLog Info "Launching via executable path..." [] => true
  | _ => false
  end.

Definition attempts (tr : list event) : nat :=
  List.length (filter is_attempt tr).

(** The trace of a run whose polling loop was left by timeout.  [t_start]
    is the first clock reading of the run, the loop's start time; the last
    round of the loop began at [t_last], within the timeout, made the
    liveness queries [round] and slept; the reading [t_end] that followed
    found the timeout elapsed; [post] is what the run did after the loop,
    without reading the clock again.  No [kill] comes before [post]. *)
Definition timed_out_after (timeout : Z) (tr round post : list event)
  : Prop :=
  exists pre t_start mid t_last t_end,
    tr = (pre ++ EvTime t_start :: mid ++ EvTime t_last :: round
          ++ EvSleep 500 :: EvTime t_end :: post)%list /\
    Forall not_a_clock_reading pre /\
    t_last - t_start < timeout * 1000 <= t_end - t_start /\
    Forall is_liveness_query round /\
    Forall not_a_kill
           (pre ++ EvTime t_start :: mid ++ EvTime t_last :: round)%list /\
    Forall not_a_clock_reading post.

(** A liveness query answered that [p] does not run, at a point after which
    the run still read the clock.  Only the polling loop reads the clock, so
    the answer came before the loop's last look at it: during the polling,
    or in the SIGTERM loop just before. *)
Definition polled_not_running (p : Proc) (tr : list event) : Prop :=
  exists a b t,
    tr = (a ++ EvIsRunning p (Some false) :: b)%list /\ In (EvTime t) b.

(** What the top-level handler of [close_antigravity] logs for the outcome
    of the body of its [try]. *)
Definition handler_log (o : outcome bool) : list event :=
  match o with
  | Raise e => [close_error e]
  | _ => []
  end.

(** ** Decidable checks on traces *)

Definition option_string_eqb (a b : option string) : bool :=
  match a, b with
  | Some x, Some y => String.eqb x y
  | None, None => true
  | _, _ => false
  end.

Definition proc_eqb (p q : Proc) : bool :=
  (pid p =? pid q)
  && option_string_eqb (info_name p) (info_name q)
  && option_string_eqb (info_exe p) (info_exe q).

Definition procs_eqb (l l' : list Proc) : bool :=
  (List.length l =? List.length l')%nat
  && forallb (fun pq => proc_eqb (fst pq) (snd pq)) (combine l l').

(** Every [kill] of the trace goes to [p]. *)
Definition kills_only (p : Proc) (tr : list event) : bool :=
  forallb (fun ev => match ev with EvKill q => proc_eqb q p | _ => true end)
          tr.

Definition has_kill (p : Proc) (tr : list event) : bool :=
  existsb (fun ev => match ev with EvKill q => proc_eqb q p | _ => false end)
          tr.

(** Some liveness query of the trace reported that [p] does not run. *)
Definition seen_exited (p : Proc) (tr : list event) : bool :=
  existsb (fun ev =>
             match ev with
             | EvIsRunning q (Some false) => proc_eqb q p
             | _ => false
             end) tr.

(** No signal of the trace goes to a process with this pid. *)
Definition never_signals_pid (n : Z) (tr : list event) : bool :=
  forallb (fun ev =>
             match ev with
             | EvTerminate q | EvKill q => negb (pid q =? n)
             | _ => true
             end) tr.

(** The event is the answer [running] of a liveness query on [p]. *)
Definition reports (p : Proc) (running : bool) (ev : event) : bool :=
  match ev with
  | EvIsRunning q (Some r) => proc_eqb q p && Bool.eqb r running
  | _ => false
  end.

Definition is_clock_reading (ev : event) : bool :=
  match ev with EvTime _ => true | _ => false end.

(** [sticky] and [polled_not_running], decided on a trace. *)
Fixpoint stickyb (p : Proc) (tr : list event) : bool :=
  match tr with
  | [] => true
  | ev :: rest =>
      (negb (reports p false ev) || negb (existsb (reports p true) rest))
      && stickyb p rest
  end.

Fixpoint polledb (p : Proc) (tr : list event) : bool :=
  match tr with
  | [] => false
  | ev :: rest =>
      (reports p false ev && existsb is_clock_reading rest) || polledb p rest
  end.

(** The end-to-end scenario, checked on one run: the targets collected, the
    survivors of the polling, the exit of pid 100 seen while polling, the
    result, the kills, and the controller left alone. *)
Definition check_targets (w : Sim.World) : bool :=
  match result (collect_targets Sim.os Scenario.cfg)
               (final (platform_quit Sim.os Scenario.cfg) w) with
  | Ret targets => procs_eqb targets [Scenario.p100; Scenario.p101]
  | _ => false
  end.

Definition check_survivors (w : Sim.World) : bool :=
  match result (phase_one Sim.os Scenario.cfg 5 2) w with
  | Ret (Some (TimedOut (Some survivors))) =>
      procs_eqb survivors [Scenario.p101]
  | _ => false
  end.

Definition check_result (w : Sim.World) : bool :=
  match result (close_antigravity Sim.os Scenario.cfg 5 2 true) w with
  | Ret true => true
  | _ => false
  end.

Definition end_to_end_check (name exe : option string) (delay : Z) : bool :=
  let w := Scenario.three delay name exe in
  let closing := close_antigravity Sim.os Scenario.cfg 5 2 true in
  check_targets w
  && check_survivors w
  && seen_exited Scenario.p100 (events (phase_one Sim.os Scenario.cfg 5 2) w)
  && check_result w
  && kills_only Scenario.p101 (events closing w)
  && has_kill Scenario.p101 (events closing w)
  && never_signals_pid 200 (events closing w).

(** The delays [0, 1, ..., n - 1], in milliseconds. *)
Definition delays (n : nat) : list Z := map Z.of_nat (seq 0 n).

(** ** Vocabulary of the further properties *)

(** Every run of the computation leaves a trace with the property [TP]. *)
Definition always {W A} (TP : list event -> Prop) (m : M W A) : Prop :=
  forall w, TP (events m w).

(** The sleeps of the polling loop (half a second each). *)
Definition is_polling_sleep (ev : event) : bool :=
  match ev with EvSleep ms => ms =? 500 | _ => false end.

Definition polling_sleeps (tr : list event) : nat :=
  List.length (filter is_polling_sleep tr).

(** Every signal of the trace comes directly after the answer that its
    handle runs; [prev] is the event before the trace. *)
Fixpoint guarded_from (prev : option event) (tr : list event) : Prop :=
  match tr with
  | [] => True
  | ev :: rest =>
      match ev with
      | EvTerminate p | EvKill p => prev = Some (EvIsRunning p (Some true))
      | _ => True
      end /\ guarded_from (Some ev) rest
  end.

Definition guarded (tr : list event) : Prop :=
  forall prev, guarded_from prev tr.




(** What the trace shows of the operating system being asked to do
    something: every event but a log line. *)
Definition is_log (ev : event) : Prop :=
  match ev with EvLog _ _ _ => True | _ => False end.



(** A controller on a platform the source does not know. *)
Definition cfg_freebsd : Config := mkConfig "FreeBSD" 200 (Some "/opt/controller").

(** * The front end ([src/main.py])

    The menu and the command line around the controller.  The snapshot
    store ([gui.account_manager]) and the console are further collaborators
    of the operating system's kind: functions over the world that may raise.
    A listing is a list of entries with the four texts that the source
    reads of each; what the store answers to a request is used as a truth
    value only, and is a boolean here; [print] does not raise.  The parser
    of the command line is represented by the command it returns.  Texts of
    the source that hold characters beyond code point 255 are kept as their
    UTF-8 bytes; they are only printed.

    Where the source goes on after [if not real_id: ... return], [real_id]
    is a text that is not empty: the branch for [None] that the match on it
    needs here is never taken. *)

Module PyText.

(** [c.isspace()] for a code point below 256. *)
Definition is_space (c : ascii) : bool :=
  let n := N_of_ascii c in
  (((9 <=? n) && (n <=? 13)) || ((28 <=? n) && (n <=? 32))
   || (n =? 133) || (n =? 160))%N.

Fixpoint lstrip (s : string) : string :=
  match s with
  | EmptyString => EmptyString
  | String c s' => if is_space c then lstrip s' else s
  end.

Fixpoint rstrip (s : string) : string :=
  match s with
  | EmptyString => EmptyString
  | String c s' =>
      match rstrip s' with
      | EmptyString => if is_space c then EmptyString else String c EmptyString
      | r => String c r
      end
  end.

(** [s.strip()] *)
Definition strip (s : string) : string := rstrip (lstrip s).

(** The decimal digits 0..9. *)
Definition is_decimal_char (c : ascii) : bool :=
  let n := N_of_ascii c in ((48 <=? n) && (n <=? 57))%N.

(** [c.isdigit()] below 256: the decimal digits and the superscripts one,
    two and three. *)
Definition is_digit_char (c : ascii) : bool :=
  let n := N_of_ascii c in
  (is_decimal_char c || (n =? 178) || (n =? 179) || (n =? 185))%N.

Fixpoint all_chars (f : ascii -> bool) (s : string) : bool :=
  match s with
  | EmptyString => true
  | String c s' => f c && all_chars f s'
  end.

(** [s.isdigit()] *)
Definition isdigit (s : string) : bool :=
  PyStr.truthy s && all_chars is_digit_char s.

Fixpoint decimal_value (acc : Z) (s : string) : Z :=
  match s with
  | EmptyString => acc
  | String c s' => decimal_value (acc * 10 + (Z.of_N (N_of_ascii c) - 48)) s'
  end.

(** [int(s)] for a string on which [isdigit] holds: the value of a run of
    decimal digits, and [ValueError] for a superscript digit or for more
    digits than the interpreter's limit ([sys.get_int_max_str_digits()],
    absent in older interpreters). *)
Definition int_of_digits (max_str_digits : option nat) (s : string)
  : answer Z :=
  if all_chars is_decimal_char s then
    match max_str_digits with
    | Some limit =>
        if (limit <? String.length s)%nat
        then Throws (OtherException "ValueError")
        else Ok (decimal_value 0 s)
    | None => Ok (decimal_value 0 s)
    end
  else Throws (OtherException "ValueError").

Definition newline : string := String (ascii_of_nat 10) EmptyString.

(** [c * n] *)
Fixpoint repeat_string (c : string) (n : nat) : string :=
  match n with
  | O => EmptyString
  | S n' => c ++ repeat_string c n'
  end.

End PyText.

(** One entry of [list_accounts_data()]. *)
Record Account := mkAccount {
  acc_id : string;
  acc_name : string;
  acc_email : string;
  acc_last_used : string
}.

(** The snapshot store and the console. *)
Record Frontend (W : Type) := mkFrontend {
  fe_list_accounts_data : W -> answer (list Account) * W;
  fe_add_account_snapshot :
    option string -> option string -> W -> answer bool * W;
  fe_switch_account : string -> W -> answer bool * W;
  fe_delete_account : string -> W -> answer bool * W;
  (** [input(prompt)] *)
  fe_input : string -> W -> answer string * W;
  (** [sys.get_int_max_str_digits()], when the interpreter has one *)
  fe_max_str_digits : option nat
}.
Arguments fe_list_accounts_data {W}.
Arguments fe_add_account_snapshot {W}.
Arguments fe_switch_account {W}.
Arguments fe_delete_account {W}.
Arguments fe_input {W}.
Arguments fe_max_str_digits {W}.

(** What the front end did, in order.  A call into the store or the console
    is recorded with what it answered, [None] when it raised. *)
Inductive ui_event :=
| UiCore (ev : event)
| UiPrint (text : string) (args : list fmt_arg)
| UiInput (prompt : string) (typed : option string)
| UiListAccounts (listed : option (list Account))
| UiAddSnapshot (name email : option string) (done : option bool)
| UiSwitch (id : string) (done : option bool)
| UiDelete (id : string) (done : option bool).

Definition answered {A} (r : answer A) : option A :=
  match r with Ok a => Some a | Throws _ => None end.

(** How a piece of the front end ends; [UiExit] is [sys.exit(code)]. *)
Inductive ui_outcome (A : Type) :=
| UiRet (a : A)
| UiRaise (e : exn)
| UiExit (code : Z)
| UiOutOfFuel.
Arguments UiRet {A} a.
Arguments UiRaise {A} e.
Arguments UiExit {A} code.
Arguments UiOutOfFuel {A}.

Definition UI (W A : Type) : Type := W -> ui_outcome A * W * list ui_event.

Definition ui_ret {W A} (a : A) : UI W A := fun w => (UiRet a, w, []).

Definition ui_exit {W A} (code : Z) : UI W A := fun w => (UiExit code, w, []).

Definition ui_out_of_fuel {W A} : UI W A := fun w => (UiOutOfFuel, w, []).

Definition ui_bind {W A B} (m : UI W A) (k : A -> UI W B) : UI W B :=
  fun w =>
    match m w with
    | (UiRet a, w1, t1) =>
        match k a w1 with
        | (o, w2, t2) => (o, w2, (t1 ++ t2)%list)
        end
    | (UiRaise e, w1, t1) => (UiRaise e, w1, t1)
    | (UiExit code, w1, t1) => (UiExit code, w1, t1)
    | (UiOutOfFuel, w1, t1) => (UiOutOfFuel, w1, t1)
    end.

(** A value or an exception that needs nothing of the world. *)
Definition ui_answer {W A} (r : answer A) : UI W A :=
  fun w => (match r with Ok a => UiRet a | Throws e => UiRaise e end, w, []).

(** A call into the store or the console. *)
Definition ui_call {W A} (f : W -> answer A * W)
  (ev : option A -> ui_event) : UI W A :=
  fun w =>
    let (r, w') := f w in
    (match r with Ok a => UiRet a | Throws e => UiRaise e end, w',
     [ev (answered r)]).

(** A computation of the controller, run inside the front end. *)
Definition ui_lift {W A} (m : M W A) : UI W A :=
  fun w =>
    match m w with
    | (o, w', tr) =>
        (match o with
         | Ret a => UiRet a
         | Raise e => UiRaise e
         | OutOfFuel => UiOutOfFuel
         end, w', map UiCore tr)
    end.

Definition ui_print {W} (text : string) (args : list fmt_arg) : UI W unit :=
  fun w => (UiRet tt, w, [UiPrint text args]).

Declare Scope ui_scope.
Delimit Scope ui_scope with ui.
Notation "x <- m ;; k" := (ui_bind m (fun x => k))
  (at level 61, m at next level, right associativity) : ui_scope.
Notation "m ;; k" := (ui_bind m (fun _ => k))
  (at level 61, right associativity) : ui_scope.

(** [if not real_id]: [None] and the empty string count as no id. *)
Definition no_id (real_id : option string) : bool :=
  match real_id with
  | Some id => negb (PyStr.truthy id)
  | None => true
  end.

(** What [argparse] hands to [cli_mode]: the sub-command with its options,
    or no sub-command. *)
Inductive Command :=
| CmdList
| CmdAdd (name email : option string)
| CmdSwitch (id : string)
| CmdDelete (id : string)
| CmdStart
| CmdStop
| CmdNone.

(** [resolve_id] after its call of [list_accounts_data()] (lines 254-265):
    a number in [1..len(accounts)] is a position in the list; anything else
    is an id, looked for in the list. *)
Definition resolve_among (max_str_digits : option nat)
  (accounts : list Account) (input_id : string) : answer (option string) :=
  let by_id :=
    if existsb (fun acc => (acc_id acc =? input_id)%string) accounts
    then Some input_id else None in
  if PyText.isdigit input_id then
    match PyText.int_of_digits max_str_digits input_id with
    | Throws e => Throws e
    | Ok idx =>
        if (1 <=? idx) && (idx <=? Z.of_nat (List.length accounts)) then
          match nth_error accounts (Z.to_nat (idx - 1)) with
          | Some acc => Ok (Some (acc_id acc))
          | None => Throws (OtherException "IndexError")
          end
        else Ok by_id
    end
  else Ok by_id.

(** ["=" * 50] and ["-" * 50] *)
Definition rule (c : string) : string := PyText.repeat_string c 50.

Definition press_enter : string :=
  PyText.newline ++ "Press Enter to continue...".

Section Frontend.

Context {W : Type}.
Variable os : OS W.
Variable fe : Frontend W.
Variable cfg : Config.
(** Fuel for the loops of the controller. *)
Variable patience : nat.

Local Open Scope ui_scope.

Definition list_accounts_data : UI W (list Account) :=
  ui_call (fe_list_accounts_data fe) UiListAccounts.

Definition add_account_snapshot (name email : option string) : UI W bool :=
  ui_call (fe_add_account_snapshot fe name email) (UiAddSnapshot name email).

Definition switch_account (id : string) : UI W bool :=
  ui_call (fe_switch_account fe id) (UiSwitch id).

Definition delete_account (id : string) : UI W bool :=
  ui_call (fe_delete_account fe id) (UiDelete id).

Definition input (prompt : string) : UI W string :=
  ui_call (fe_input fe prompt) (UiInput prompt).

Definition ui_info (fmt : string) (args : list fmt_arg) : UI W unit :=
  ui_lift (info fmt args).
Definition ui_warning (fmt : string) (args : list fmt_arg) : UI W unit :=
  ui_lift (warning fmt args).
Definition ui_error (fmt : string) (args : list fmt_arg) : UI W unit :=
  ui_lift (error fmt args).

(** Lines 23-36. *)
Definition show_menu : UI W unit :=
  ui_print (PyText.newline ++ rule "=") [] ;;
  ui_print "🚀 Antigravity Account Manager" [] ;;
  ui_print (rule "=") [] ;;
  ui_print (PyText.newline ++ "Select an action:") [] ;;
  ui_print "  1. 📋 List all snapshots" [] ;;
  ui_print "  2. ➕ Add/Update snapshot" [] ;;
  ui_print "  3. 🔄 Switch/Restore snapshot" [] ;;
  ui_print "  4. 🗑️  Delete snapshot" [] ;;
  ui_print "  5. ▶️  Start Antigravity" [] ;;
  ui_print "  6. ⏹️  Stop Antigravity" [] ;;
  ui_print "  0. 🚪 Exit" [] ;;
  ui_print (rule "-") [].

(** The loop of lines 48-53. *)
Fixpoint print_accounts (idx : Z) (accounts : list Account) : UI W unit :=
  match accounts with
  | [] => ui_ret tt
  | acc :: rest =>
      ui_print (PyText.newline ++ "{}. {}") [AInt idx; AStr (acc_name acc)] ;;
      ui_print "   📧 Email: {}" [AStr (acc_email acc)] ;;
      ui_print "   🆔 ID: {}" [AStr (acc_id acc)] ;;
      ui_print "   ⏰ Last used: {}" [AStr (acc_last_used acc)] ;;
      ui_print (rule "-") [] ;;
      print_accounts (idx + 1) rest
  end.

(** Lines 38-54. *)
Definition list_accounts : UI W (list Account) :=
  accounts <- list_accounts_data ;;
  match accounts with
  | [] =>
      ui_info "No snapshots found" [] ;;
      ui_ret []
  | _ :: _ =>
      ui_print (PyText.newline ++ rule "=") [] ;;
      ui_info "Total {} snapshot(s):"
        [AInt (Z.of_nat (List.length accounts))] ;;
      ui_print (rule "=") [] ;;
      print_accounts 1 accounts ;;
      ui_ret accounts
  end.

(** [value if value else None] *)
Definition or_none (value : string) : option string :=
  if PyStr.truthy value then Some value else None.

(** Lines 56-72. *)
Definition add_account : UI W unit :=
  ui_print (PyText.newline ++ rule "=") [] ;;
  ui_print "➕ Add/Update Account Snapshot" [] ;;
  ui_print (rule "=") [] ;;
  typed_name <- input (PyText.newline
                  ++ "Enter account name (leave empty to auto-generate): ") ;;
  let name := PyText.strip typed_name in
  typed_email <- input "Enter email (leave empty to auto-detect): " ;;
  let email := PyText.strip typed_email in
  let name := or_none name in
  let email := or_none email in
  ui_print EmptyString [] ;;
  done <- add_account_snapshot name email ;;
  if done : bool
  then ui_info "✅ Operation successful!" []
  else ui_error "❌ Operation failed!" [].

(** Lines 250-265. *)
Definition resolve_id (input_id : string) : UI W (option string) :=
  accounts <- list_accounts_data ;;
  ui_answer (resolve_among (fe_max_str_digits fe) accounts input_id).

(** Lines 74-99. *)
Definition switch_account_interactive : UI W unit :=
  accounts <- list_accounts ;;
  match accounts with
  | [] => ui_ret tt
  | _ :: _ =>
      ui_print (PyText.newline ++ rule "=") [] ;;
      ui_print "🔄 Switch/Restore Account" [] ;;
      ui_print (rule "=") [] ;;
      typed <- input (PyText.newline
                  ++ "Enter the account number to switch to: ") ;;
      let choice := PyText.strip typed in
      if negb (PyStr.truthy choice) then
        ui_warning "Operation cancelled" []
      else
        real_id <- resolve_id choice ;;
        if no_id real_id then
          ui_error "❌ Invalid number: {}" [AStr choice]
        else
          match real_id with
          | None => ui_ret tt
          | Some id =>
              ui_print EmptyString [] ;;
              done <- switch_account id ;;
              if done : bool
              then ui_info "✅ Switch successful!" []
              else ui_error "❌ Switch failed!" []
          end
  end.

(** Lines 101-132. *)
Definition delete_account_interactive : UI W unit :=
  accounts <- list_accounts ;;
  match accounts with
  | [] => ui_ret tt
  | _ :: _ =>
      ui_print (PyText.newline ++ rule "=") [] ;;
      ui_print "🗑️  Delete Account Snapshot" [] ;;
      ui_print (rule "=") [] ;;
      typed <- input (PyText.newline
                  ++ "Enter the account number to delete: ") ;;
      let choice := PyText.strip typed in
      if negb (PyStr.truthy choice) then
        ui_warning "Operation cancelled" []
      else
        real_id <- resolve_id choice ;;
        if no_id real_id then
          ui_error "❌ Invalid number: {}" [AStr choice]
        else
          match real_id with
          | None => ui_ret tt
          | Some id =>
              answer <- input (PyText.newline
                ++ "⚠️  Are you sure you want to delete this account? (y/N): ") ;;
              let confirm := PyStr.lower (PyText.strip answer) in
              if negb (confirm =? "y")%string then
                ui_warning "Deletion cancelled" []
              else
                ui_print EmptyString [] ;;
                done <- delete_account id ;;
                if done : bool
                then ui_info "✅ Deletion successful!" []
                else ui_error "❌ Deletion failed!" []
          end
  end.

(** Lines 134-172: one unit of fuel for each round of the menu. *)
Fixpoint interactive_mode (fuel : nat) : UI W unit :=
  match fuel with
  | O => ui_out_of_fuel
  | S fuel' =>
      show_menu ;;
      typed <- input "Enter option (0-6): " ;;
      let choice := PyText.strip typed in
      if (choice =? "1")%string then
        list_accounts ;;
        input press_enter ;;
        interactive_mode fuel'
      else if (choice =? "2")%string then
        add_account ;;
        input press_enter ;;
        interactive_mode fuel'
      else if (choice =? "3")%string then
        switch_account_interactive ;;
        input press_enter ;;
        interactive_mode fuel'
      else if (choice =? "4")%string then
        delete_account_interactive ;;
        input press_enter ;;
        interactive_mode fuel'
      else if (choice =? "5")%string then
        ui_print EmptyString [] ;;
        ui_lift (start_antigravity os cfg patience true) ;;
        input press_enter ;;
        interactive_mode fuel'
      else if (choice =? "6")%string then
        ui_print EmptyString [] ;;
        ui_lift (close_antigravity os cfg patience 10 true) ;;
        input press_enter ;;
        interactive_mode fuel'
      else if (choice =? "0")%string then
        ui_print (PyText.newline ++ "👋 Goodbye!") [] ;;
        ui_exit 0
      else
        ui_error "❌ Invalid option, please try again" [] ;;
        input press_enter ;;
        interactive_mode fuel'
  end.

(** Lines 199-240, on the command that [parser.parse_args()] returned. *)
Definition cli_mode (fuel : nat) (command : Command) : UI W unit :=
  match command with
  | CmdList =>
      list_accounts ;;
      ui_ret tt
  | CmdAdd name email =>
      done <- add_account_snapshot name email ;;
      if done : bool
      then ui_info "Snapshot added successfully" []
      else ui_exit 1
  | CmdSwitch id =>
      real_id <- resolve_id id ;;
      if no_id real_id then
        ui_error "Invalid ID or number: {}" [AStr id] ;;
        ui_exit 1
      else
        match real_id with
        | None => ui_ret tt
        | Some real =>
            done <- switch_account real ;;
            if done : bool
            then ui_info "Switch successful" []
            else ui_exit 1
        end
  | CmdDelete id =>
      real_id <- resolve_id id ;;
      if no_id real_id then
        ui_error "Invalid ID or number: {}" [AStr id] ;;
        ui_exit 1
      else
        match real_id with
        | None => ui_ret tt
        | Some real =>
            done <- delete_account real ;;
            if done : bool
            then ui_info "Deletion successful" []
            else ui_exit 1
        end
  | CmdStart =>
      ui_lift (start_antigravity os cfg patience true) ;;
      ui_ret tt
  | CmdStop =>
      ui_lift (close_antigravity os cfg patience 10 true) ;;
      ui_ret tt
  | CmdNone =>
      interactive_mode fuel
  end.

(** Lines 242-248: [args] is [sys.argv[1:]], and [parse] what
    [parser.parse_args()] makes of it: a command, or the exit that argparse
    takes itself on a usage error or a call for help. *)
Definition main (fuel : nat) (args : list string)
  (parse : list string -> Command + Z) : UI W unit :=
  match args with
  | [] => interactive_mode fuel
  | _ :: _ =>
      match parse args with
      | inl command => cli_mode fuel command
      | inr code => ui_exit code
      end
  end.

End Frontend.

(** Observations on a run of the front end. *)
Definition ui_result {W A} (m : UI W A) (w : W) : ui_outcome A :=
  fst (fst (m w)).
Definition ui_final {W A} (m : UI W A) (w : W) : W := snd (fst (m w)).
Definition ui_events {W A} (m : UI W A) (w : W) : list ui_event :=
  snd (m w).

(** A simulated store and console beside the simulated system: the
    snapshots on disk and the lines still to be typed.  At the end of the
    typed lines [input] raises, as it does at the end of the input. *)
Module Desk.

Record Store := mkStore {
  snapshots : list Account;
  keyboard : list string
}.

Definition World : Type := (Sim.World * Store)%type.

Definition on_system {A} (f : Sim.World -> A * Sim.World)
  : World -> A * World :=
  fun w => let (a, s) := f (fst w) in (a, (s, snd w)).

Definition os : OS World := {|
  os_time := on_system (os_time Sim.os);
  os_sleep := fun ms => on_system (os_sleep Sim.os ms);
  os_run := fun argv => on_system (os_run Sim.os argv);
  os_process_iter := on_system (os_process_iter Sim.os);
  os_is_running := fun p => on_system (os_is_running Sim.os p);
  os_terminate := fun p => on_system (os_terminate Sim.os p);
  os_kill := fun p => on_system (os_kill Sim.os p);
  os_open_uri := fun uri => on_system (os_open_uri Sim.os uri);
  os_get_executable_path := on_system (os_get_executable_path Sim.os);
  os_path_exists := fun path => on_system (os_path_exists Sim.os path);
  os_popen := fun argv => on_system (os_popen Sim.os argv)
|}.

Definition has_id (id : string) (acc : Account) : bool :=
  (acc_id acc =? id)%string.

Definition fe : Frontend World := {|
  fe_list_accounts_data := fun w => (Ok (snapshots (snd w)), w);
  fe_add_account_snapshot := fun name email w =>
    match name, email with
    | Some n, Some e =>
        (Ok true,
         (fst w, mkStore (snapshots (snd w) ++ [mkAccount n n e "now"])
                         (keyboard (snd w))))
    | _, _ => (Ok false, w)
    end;
  fe_switch_account := fun id w =>
    (Ok (existsb (has_id id) (snapshots (snd w))), w);
  fe_delete_account := fun id w =>
    (Ok (existsb (has_id id) (snapshots (snd w))),
     (fst w, mkStore (filter (fun acc => negb (has_id id acc))
                             (snapshots (snd w)))
                     (keyboard (snd w))));
  fe_input := fun _ w =>
    match keyboard (snd w) with
    | [] => (Throws (OtherException "EOFError"), w)
    | line :: rest => (Ok line, (fst w, mkStore (snapshots (snd w)) rest))
    end;
  fe_max_str_digits := Some 4300%nat
|}.

Definition clock (w : World) : Z := Sim.now (fst w).

(** A target that neither SIGTERM nor SIGKILL ends, and an empty store. *)
Definition unkillable : World :=
  (Scenario.world_of [Sim.mkSimProc Scenario.p101 None None false],
   mkStore [] []).

Definition work : Account :=
  mkAccount "2" "work" "work@example.org" "yesterday".
Definition home : Account :=
  mkAccount "b7f3" "home" "home@example.org" "today".

(** Two snapshots, the first of which has the id ["2"]. *)
Definition desk (typed : list string) : World :=
  (Scenario.idle, mkStore [work; home] typed).

End Desk.

(** ** Vocabulary of the front end's properties *)

Definition value_error : exn := OtherException "ValueError".

(** The ids of a listing. *)
Definition ids (accounts : list Account) : list string :=
  map acc_id accounts.

(** A property of traces holds of every run. *)
Definition ui_always {W A} (TP : list ui_event -> Prop) (m : UI W A) : Prop :=
  forall w, TP (ui_events m w).

Definition never_exits {W A} (m : UI W A) : Prop :=
  forall w code, ui_result m w <> UiExit code.

Definition never_returns {W A} (m : UI W A) : Prop :=
  forall w a, ui_result m w <> UiRet a.

Definition is_store_request (ev : ui_event) : Prop :=
  match ev with
  | UiSwitch _ _ | UiDelete _ _ => True
  | _ => False
  end.

(** Every request to switch to or to delete a snapshot names an id that is
    not empty and that stands in the listing answered last before it;
    [listed] is that listing at the start of the trace. *)
Fixpoint addressed_from (listed : option (list Account))
  (tr : list ui_event) : Prop :=
  match tr with
  | [] => True
  | UiListAccounts (Some accounts) :: rest =>
      addressed_from (Some accounts) rest
  | UiSwitch id _ :: rest | UiDelete id _ :: rest =>
      (id <> EmptyString /\
       exists accounts, listed = Some accounts /\ In id (ids accounts)) /\
      addressed_from listed rest
  | _ :: rest => addressed_from listed rest
  end.

Definition addressed (tr : list ui_event) : Prop := addressed_from None tr.

Definition confirm_prompt : string :=
  PyText.newline
  ++ "⚠️  Are you sure you want to delete this account? (y/N): ".

(** The answers that [delete_account_interactive] takes for a yes. *)
Definition is_yes (typed : string) : bool :=
  (PyStr.lower (PyText.strip typed) =? "y")%string.

(** Every deletion comes after a yes to the question of line 123, with
    nothing but printing in between; [armed] tells whether the trace starts
    right after such a yes. *)
Fixpoint confirmed_from (armed : bool) (tr : list ui_event) : Prop :=
  match tr with
  | [] => True
  | UiInput prompt (Some typed) :: rest =>
      confirmed_from ((prompt =? confirm_prompt)%string && is_yes typed) rest
  | UiPrint _ _ :: rest => confirmed_from armed rest
  | UiDelete _ _ :: rest => armed = true /\ confirmed_from false rest
  | _ :: rest => confirmed_from false rest
  end.

Definition confirmed (tr : list ui_event) : Prop := confirmed_from false tr.

(** A name or an email as [add_account] hands it on: absent, or a text that
    is not empty and has no white space at either end. *)
Definition trimmed (value : option string) : Prop :=
  match value with
  | None => True
  | Some text => text <> EmptyString /\ PyText.strip text = text
  end.

Definition adds_trimmed (ev : ui_event) : Prop :=
  match ev with
  | UiAddSnapshot name email _ => trimmed name /\ trimmed email
  | _ => True
  end.

(** The digits of [input_id] are no more than the interpreter converts. *)
Definition within_digit_limit (max_str_digits : option nat)
  (input_id : string) : Prop :=
  match max_str_digits with
  | Some limit => (String.length input_id <= limit)%nat
  | None => True
  end.

(** The superscript two, a digit that is no decimal. *)
Definition superscript_two : string :=
  String (ascii_of_nat 178) EmptyString.

Definition menu_prompt : string := "Enter option (0-6): ".

Definition farewell : string := PyText.newline ++ "👋 Goodbye!".

(** An exit of the menu: status 0, right after the farewell that follows an
    answer to the menu's prompt that is ["0"] once stripped. *)
Definition leaves_on_zero (code : Z) (tr : list ui_event) : Prop :=
  code = 0 /\
  exists pre typed,
    tr = (pre ++ [UiInput menu_prompt (Some typed); UiPrint farewell []])%list
    /\ PyText.strip typed = "0".

(** A property of traces that the empty trace has, that goes from two
    traces to the two in a row, and that printing, the controller, the
    console and a listing cannot break. *)
Record trace_property (TP : list ui_event -> Prop) : Prop := mk_trace_property {
  tp_nil : TP [];
  tp_app : forall t1 t2, TP t1 -> TP t2 -> TP (t1 ++ t2)%list;
  tp_print : forall text args, TP [UiPrint text args];
  tp_core : forall tr, TP (map UiCore tr);
  tp_input : forall prompt typed, TP [UiInput prompt typed];
  tp_list : forall listed, TP [UiListAccounts listed]
}.

Definition invalid_id_log (id : string) : ui_event :=
  UiCore (EvLog Error "Invalid ID or number: {}" [AStr id]).

(** The commands that name a snapshot. *)
Definition names_snapshot (command : Command) : option string :=
  match command with
  | CmdSwitch id | CmdDelete id => Some id
  | _ => None
  end.

(** Decidable readings of single events. *)
Definition deletes (id : string) (ev : ui_event) : bool :=
  match ev with
  | UiDelete id' (Some true) => (id' =? id)%string
  | _ => false
  end.

Definition switches (id : string) (ev : ui_event) : bool :=
  match ev with
  | UiSwitch id' (Some true) => (id' =? id)%string
  | _ => false
  end.

Definition adds (name email : option string) (ev : ui_event) : bool :=
  match ev with
  | UiAddSnapshot name' email' _ =>
      option_string_eqb name' name && option_string_eqb email' email
  | _ => false
  end.

(** ** Strings *)

Lemma lower_app (a b : string) :
  PyStr.lower (a ++ b) = PyStr.lower a ++ PyStr.lower b.
Proof.
  induction a as [|c a IH]; simpl; [reflexivity | now rewrite IH].
Qed.

Lemma prefix_app (a b : string) : String.prefix a (a ++ b) = true.
Proof.
  induction a as [|c a IH]; simpl.
  - now destruct b.
  - destruct (ascii_dec c c) as [_|ne]; [exact IH | now elim ne].
Qed.

Lemma contains_unfold (sub s : string) :
  PyStr.contains sub s =
  String.prefix sub s ||
  match s with
  | EmptyString => false
  | String _ s' => PyStr.contains sub s'
  end.
Proof. destruct s; reflexivity. Qed.

Lemma contains_prefix (a b : string) : PyStr.contains a (a ++ b) = true.
Proof. rewrite contains_unfold, prefix_app. reflexivity. Qed.

Lemma truthy_lower (s : string) : PyStr.truthy (PyStr.lower s) = PyStr.truthy s.
Proof. now destruct s. Qed.

Lemma truthy_nonempty (s : string) : s <> EmptyString -> PyStr.truthy s = true.
Proof. destruct s; [congruence | reflexivity]. Qed.

(** ** Classification *)

Lemma self_handle_excluded (cfg : Config) (p : Proc) :
  self_handle cfg p -> excluded_self cfg p = true.
Proof.
  unfold excluded_self.
  intros [Hpid | (exe & dir & Hexe & Hne & Hdir & rest & Hunder)].
  - rewrite Hpid, Z.eqb_refl. reflexivity.
  - rewrite Hdir. unfold exe_path. rewrite Hexe, (truthy_nonempty _ Hne).
    rewrite truthy_lower, (truthy_nonempty _ Hne), Hunder, contains_prefix.
    apply orb_true_r.
Qed.

Lemma target_processes_In (cfg : Config) (procs : list Proc) (p : Proc) :
  In p (target_processes cfg procs) <->
  In p procs /\ is_shutdown_target cfg p = true.
Proof. unfold target_processes. apply filter_In. Qed.

Lemma excluded_not_target (cfg : Config) (p : Proc) :
  excluded_self cfg p = true -> is_shutdown_target cfg p = false.
Proof. unfold is_shutdown_target. now intros ->. Qed.

(** ** Reasoning about the monad *)

Lemma run_eta {W A} (m : M W A) (w : W) :
  m w = (result m w, final m w, events m w).
Proof. unfold result, final, events. now destruct (m w) as [[o w'] tr]. Qed.

Lemma bind_inv {W A B} (m : M W A) (k : A -> M W B) w o w' tr :
  bind m k w = (o, w', tr) ->
  (exists a w1 t1 t2,
      m w = (Ret a, w1, t1) /\ k a w1 = (o, w', t2) /\ tr = (t1 ++ t2)%list) \/
  (exists e, m w = (Raise e, w', tr) /\ o = Raise e) \/
  (m w = (OutOfFuel, w', tr) /\ o = OutOfFuel).
Proof.
  unfold bind. destruct (m w) as [[[a|e|] w1] t1]; intros H.
  - left. destruct (k a w1) as [[o2 w2] t2] eqn:K. inversion H; subst.
    now exists a, w1, t1, t2.
  - right. left. exists e. now inversion H.
  - right. right. now inversion H.
Qed.

Lemma try_except_inv {W A} (m : M W A) (h : exn -> M W A) w o w' tr :
  try_except m h w = (o, w', tr) ->
  (exists e w1 t1 t2,
      m w = (Raise e, w1, t1) /\ h e w1 = (o, w', t2) /\ tr = (t1 ++ t2)%list) \/
  (m w = (o, w', tr) /\ forall e, o <> Raise e).
Proof.
  unfold try_except. destruct (m w) as [[[a|e|] w1] t1]; intros H.
  - right. inversion H; subst. split; [reflexivity | discriminate].
  - left. destruct (h e w1) as [[o2 w2] t2] eqn:K. inversion H; subst.
    now exists e, w1, t1, t2.
  - right. inversion H; subst. split; [reflexivity | discriminate].
Qed.

Lemma call_inv {W A} (f : W -> answer A * W) (ev : answer A -> event)
      w o w' tr :
  call f ev w = (o, w', tr) ->
  exists r,
    f w = (r, w') /\ tr = [ev r] /\
    o = match r with Ok a => Ret a | Throws e => Raise e end.
Proof.
  unfold call. destruct (f w) as [r w1].
  intros H. exists r. inversion H; subst. auto.
Qed.

Section Triples.

Context {W : Type}.
Variable P : event -> Prop.

Lemma triple_ret {A} (a : A) (Q : A -> Prop) :
  Q a -> triple (W := W) (ret a) P Q.
Proof.
  intros Ha w o w' tr H. inversion H; subst. split; [constructor|].
  intros a' E. now inversion E; subst.
Qed.

Lemma triple_raise {A} (e : exn) (Q : A -> Prop) :
  triple (W := W) (raise e) P Q.
Proof.
  intros w o w' tr H. inversion H; subst. split; [constructor | discriminate].
Qed.

Lemma triple_out_of_fuel {A} (Q : A -> Prop) :
  triple (W := W) out_of_fuel P Q.
Proof.
  intros w o w' tr H. inversion H; subst. split; [constructor | discriminate].
Qed.

Lemma triple_bind {A B} (m : M W A) (k : A -> M W B)
      (Q : A -> Prop) (R : B -> Prop) :
  triple m P Q ->
  (forall a, Q a -> triple (k a) P R) ->
  triple (bind m k) P R.
Proof.
  intros Hm Hk w o w' tr H.
  destruct (bind_inv _ _ _ _ _ _ H)
    as [(a & w1 & t1 & t2 & H1 & H2 & ->) | [(e & H1 & ->) | (H1 & ->)]].
  - destruct (Hm _ _ _ _ H1) as [F1 Qa].
    destruct (Hk a (Qa a eq_refl) _ _ _ _ H2) as [F2 Rb].
    split; [apply Forall_app; now split | exact Rb].
  - destruct (Hm _ _ _ _ H1) as [F1 _]. split; [exact F1 | discriminate].
  - destruct (Hm _ _ _ _ H1) as [F1 _]. split; [exact F1 | discriminate].
Qed.

Lemma triple_try_except {A} (m : M W A) (h : exn -> M W A) (Q : A -> Prop) :
  triple m P Q ->
  (forall e, triple (h e) P Q) ->
  triple (try_except m h) P Q.
Proof.
  intros Hm Hh w o w' tr H.
  destruct (try_except_inv _ _ _ _ _ _ H)
    as [(e & w1 & t1 & t2 & H1 & H2 & ->) | (H1 & _)].
  - destruct (Hm _ _ _ _ H1) as [F1 _].
    destruct (Hh e _ _ _ _ H2) as [F2 Qa].
    split; [apply Forall_app; now split | exact Qa].
  - exact (Hm _ _ _ _ H1).
Qed.

Lemma triple_try_except_psutil {A} (m h : M W A) (Q : A -> Prop) :
  triple m P Q -> triple h P Q -> triple (try_except_psutil m h) P Q.
Proof.
  intros Hm Hh. apply triple_try_except; [exact Hm|].
  intros []; auto using triple_raise.
Qed.

Lemma triple_call {A} (f : W -> answer A * W) (ev : answer A -> event)
      (Q : A -> Prop) :
  (forall r, P (ev r)) ->
  (forall w a, fst (f w) = Ok a -> Q a) ->
  triple (call f ev) P Q.
Proof.
  intros Hev HQ w o w' tr H.
  destruct (call_inv _ _ _ _ _ _ H) as (r & Hf & -> & ->). split.
  - constructor; auto.
  - intros a E. apply (HQ w). rewrite Hf. simpl.
    destruct r; now inversion E.
Qed.

Lemma triple_emit (ev : event) (Q : unit -> Prop) :
  P ev -> Q tt -> triple (W := W) (emit ev) P Q.
Proof.
  intros Hev HQ w o w' tr H. inversion H; subst. split.
  - constructor; auto.
  - intros [] _. exact HQ.
Qed.

Lemma triple_post {A} (m : M W A) (Q Q' : A -> Prop) :
  triple m P Q -> (forall a, Q a -> Q' a) -> triple m P Q'.
Proof.
  intros Hm HQ w o w' tr H. destruct (Hm _ _ _ _ H) as [Htr Hq].
  split; [exact Htr | intros a E; apply HQ, Hq, E].
Qed.

End Triples.

Lemma triple_events {W A} (m : M W A) (P : event -> Prop) (Q : A -> Prop) w :
  triple m P Q -> Forall P (events m w).
Proof. intros Hm. exact (proj1 (Hm _ _ _ _ (run_eta m w))). Qed.

Lemma triple_result {W A} (m : M W A) (P : event -> Prop) (Q : A -> Prop) w a :
  triple m P Q -> result m w = Ret a -> Q a.
Proof. intros Hm E. apply (proj2 (Hm _ _ _ _ (run_eta m w))). exact E. Qed.

(** ** What each part of [close_antigravity] may do *)

Section CloseTriples.

Context {W : Type}.
Variable os : OS W.
Variable cfg : Config.
Variable P : event -> Prop.
(** [P] restricts nothing but signals and clock readings. *)
Hypothesis benign :
  forall ev, not_a_signal ev -> not_a_clock_reading ev -> P ev.

Ltac harmless := apply benign; exact I.

Lemma triple_info fmt args :
  triple (W := W) (info fmt args) P (fun _ => True).
Proof. apply triple_emit; [harmless | exact I]. Qed.

Lemma triple_warning fmt args :
  triple (W := W) (warning fmt args) P (fun _ => True).
Proof. apply triple_emit; [harmless | exact I]. Qed.

Lemma triple_error fmt args :
  triple (W := W) (error fmt args) P (fun _ => True).
Proof. apply triple_emit; [harmless | exact I]. Qed.

Lemma triple_time_sleep ms : triple (time_sleep os ms) P (fun _ => True).
Proof. apply triple_call; [intros; harmless | trivial]. Qed.


Lemma triple_subprocess_run argv :
  triple (subprocess_run os argv) P (fun _ => True).
Proof. apply triple_call; [intros; harmless | trivial]. Qed.

Lemma triple_is_running p : triple (is_running os p) P (fun _ => True).
Proof. apply triple_call; [intros; harmless | trivial]. Qed.

Lemma triple_process_iter :
  triple (process_iter os) P (fun _ => True).
Proof.
  intros w o w' tr H. unfold process_iter in H.
  destruct (os_process_iter os w) as [r w1]. inversion H; subst. split.
  - constructor; [harmless | constructor].
  - trivial.
Qed.

Lemma triple_platform_quit :
  triple (platform_quit os cfg) P (fun _ => True).
Proof.
  unfold platform_quit.
  destruct (system cfg =? "Darwin")%string;
    [| destruct (system cfg =? "Windows")%string];
    try (apply triple_ret; exact I).
  all: eapply triple_bind; [apply triple_info | intros _ _].
  all: apply triple_try_except;
    [| intros e; apply triple_warning].
  all: eapply triple_bind; [apply triple_subprocess_run | intros rc _].
  all: destruct (rc =? 0); [| apply triple_ret; exact I].
  all: eapply triple_bind; [apply triple_info | intros _ _].
  all: apply triple_time_sleep.
Qed.

Lemma triple_scan procs : forall acc,
  triple (scan (W := W) cfg procs acc) P
         (fun r => r = (acc ++ target_processes cfg procs)%list).
Proof.
  induction procs as [|p rest IH]; intros acc; simpl.
  - apply triple_ret. now rewrite app_nil_r.
  - unfold is_shutdown_target.
    destruct (excluded_self cfg p); simpl; [apply IH|].
    destruct (is_antigravity_close (system cfg) p); [|apply IH].
    eapply triple_bind; [apply triple_info | intros _ _].
    eapply triple_post; [apply IH|].
    intros r ->. now rewrite <- app_assoc.
Qed.

Lemma triple_collect_targets :
  triple (collect_targets os cfg) P
         (fun r => Forall (fun p => is_shutdown_target cfg p = true) r).
Proof.
  unfold collect_targets.
  eapply triple_bind; [apply triple_process_iter | intros [procs err] _].
  eapply triple_bind; [apply triple_scan | intros targets Ht]. simpl in *.
  destruct err; [apply triple_raise|].
  apply triple_ret. subst. simpl. unfold target_processes.
  apply Forall_forall. intros p Hp. now apply filter_In in Hp.
Qed.

Lemma triple_terminate_all targets :
  (forall p, In p targets -> P (EvTerminate p)) ->
  triple (terminate_all os targets) P (fun _ => True).
Proof.
  induction targets as [|p rest IH]; intros HP; simpl.
  - apply triple_ret; exact I.
  - eapply triple_bind with (Q := fun _ => True);
      [| intros _ _; apply IH; intros; apply HP; now right].
    apply triple_try_except; [| intros; apply triple_ret; exact I].
    eapply triple_bind; [apply triple_is_running | intros alive _].
    destruct alive; [| apply triple_ret; exact I].
    apply triple_call; [intros; apply HP; now left | trivial].
Qed.

Lemma triple_collect_running targets : forall acc,
  triple (collect_running os targets acc) P
         (fun r => exists r', r = (acc ++ r')%list /\ incl r' targets).
Proof.
  induction targets as [|p rest IH]; intros acc; simpl.
  - apply triple_ret. exists []. split; [now rewrite app_nil_r | easy].
  - eapply triple_bind with
      (Q := fun acc' => acc' = acc \/ acc' = (acc ++ [p])%list).
    + apply triple_try_except_psutil; [| apply triple_ret; now left].
      eapply triple_bind; [apply triple_is_running | intros alive _].
      apply triple_ret. destruct alive; auto.
    + intros acc' Hacc. eapply triple_post; [apply IH|].
      intros r (r' & -> & Hincl). destruct Hacc as [-> | ->].
      * exists r'. split; [reflexivity | now apply incl_tl].
      * exists (p :: r'). rewrite <- app_assoc. split; [reflexivity|].
        apply incl_cons; [now left | now apply incl_tl].
Qed.

Lemma triple_kill_all running :
  (forall p, In p running -> P (EvKill p)) ->
  triple (kill_all os running) P (fun _ => True).
Proof.
  induction running as [|p rest IH]; intros HP; simpl.
  - apply triple_ret; exact I.
  - eapply triple_bind with (Q := fun _ => True);
      [| intros _ _; apply IH; intros; apply HP; now right].
    apply triple_try_except_psutil; [| apply triple_ret; exact I].
    eapply triple_bind; [apply triple_is_running | intros alive _].
    destruct alive; [| apply triple_ret; exact I].
    apply triple_call; [intros; apply HP; now left | trivial].
Qed.

(** The parts below read the clock. *)
Hypothesis readings : forall t, P (EvTime t).

Lemma triple_time_time : triple (time_time os) P (fun _ => True).
Proof.
  intros w o w' tr H. unfold time_time in H.
  destruct (os_time os w) as [t w1]. inversion H; subst. split.
  - constructor; [apply readings | constructor].
  - trivial.
Qed.

Lemma triple_poll_loop start_time timeout targets fuel : forall sr0,
  triple (poll_loop os fuel start_time timeout targets sr0) P
         (fun exit => forall sr, exit = TimedOut (Some sr) ->
                                 sr0 = Some sr \/
                                 (incl sr targets /\ sr <> [])).
Proof.
  induction fuel as [|fuel IH]; intros sr0; simpl.
  - apply triple_out_of_fuel.
  - eapply triple_bind; [apply triple_time_time | intros now _].
    destruct (now - start_time <? timeout * 1000).
    + eapply triple_bind; [apply triple_collect_running | intros running Hr].
      destruct Hr as (r' & Er & Hincl). simpl in Er. subst r'.
      destruct running as [|q running].
      * eapply triple_bind; [apply triple_info | intros _ _].
        apply triple_ret. discriminate.
      * eapply triple_bind; [apply triple_time_sleep | intros _ _].
        eapply triple_post; [apply IH|].
        intros exit Hexit sr E. destruct (Hexit sr E) as [E' | Hi]; auto.
        inversion E'; subst. right. split; [assumption | discriminate].
    + apply triple_ret. intros sr E. inversion E. now left.
Qed.

Lemma triple_graceful_phase fuel timeout targets :
  (forall p, In p targets -> P (EvTerminate p)) ->
  triple (graceful_phase os fuel timeout targets) P
         (fun exit => forall sr, exit = TimedOut (Some sr) ->
                                 incl sr targets /\ sr <> []).
Proof.
  intros HP. unfold graceful_phase.
  eapply triple_bind; [apply triple_info | intros _ _].
  eapply triple_bind; [apply triple_info | intros _ _].
  eapply triple_bind; [apply triple_terminate_all, HP | intros _ _].
  eapply triple_bind; [apply triple_info | intros _ _].
  eapply triple_bind; [apply triple_time_time | intros start_time _].
  eapply triple_post; [apply triple_poll_loop|].
  intros exit Hexit sr E. destruct (Hexit sr E) as [E' | Hi]; auto.
  discriminate.
Qed.

Lemma triple_final_check_phase still_running :
  triple (final_check_phase os still_running) P (fun _ => True).
Proof.
  unfold final_check_phase.
  eapply triple_bind; [apply triple_time_sleep | intros _ _].
  eapply triple_bind; [apply triple_collect_running | intros final _].
  destruct final.
  - eapply triple_bind; [apply triple_info | intros _ _].
    apply triple_ret; exact I.
  - eapply triple_bind; [apply triple_error | intros _ _].
    apply triple_ret; exact I.
Qed.

Lemma triple_force_phase force_kill still_running :
  (force_kill = true ->
   forall sr p, still_running = Some sr -> In p sr -> P (EvKill p)) ->
  triple (force_phase os force_kill still_running) P (fun _ => True).
Proof.
  intros HP. unfold force_phase.
  destruct still_running as [[|q running]|];
    [apply triple_ret; exact I | | apply triple_raise].
  eapply triple_bind; [apply triple_warning | intros _ _].
  destruct force_kill.
  - eapply triple_bind; [apply triple_info | intros _ _].
    eapply triple_bind;
      [apply triple_kill_all; intros p Hp; now apply (HP eq_refl _ p eq_refl)
      | intros _ _].
    apply triple_final_check_phase.
  - eapply triple_bind; [apply triple_error | intros _ _].
    apply triple_ret; exact I.
Qed.

Lemma triple_close_body fuel timeout force_kill :
  (forall p, is_shutdown_target cfg p = true -> P (EvTerminate p)) ->
  (force_kill = true ->
   forall p, is_shutdown_target cfg p = true -> P (EvKill p)) ->
  triple (close_body os cfg fuel timeout force_kill) P (fun _ => True).
Proof.
  intros HT HK. unfold close_body.
  eapply triple_bind; [apply triple_platform_quit | intros _ _].
  eapply triple_bind; [apply triple_collect_targets | intros targets Ht].
  rewrite Forall_forall in Ht.
  destruct targets as [|q targets].
  - eapply triple_bind; [apply triple_info | intros _ _].
    apply triple_ret; exact I.
  - eapply triple_bind;
      [apply triple_graceful_phase; intros; apply HT, Ht; assumption
      | intros exit Hexit].
    destruct exit as [|sr]; [apply triple_ret; exact I|].
    apply triple_force_phase. intros Hf sr' p -> Hp.
    apply (HK Hf), Ht. exact (proj1 (Hexit _ eq_refl) _ Hp).
Qed.

Lemma triple_close_antigravity fuel timeout force_kill :
  (forall p, is_shutdown_target cfg p = true -> P (EvTerminate p)) ->
  (force_kill = true ->
   forall p, is_shutdown_target cfg p = true -> P (EvKill p)) ->
  triple (close_antigravity os cfg fuel timeout force_kill) P
         (fun _ => True).
Proof.
  intros HT HK. unfold close_antigravity.
  eapply triple_bind; [apply triple_info | intros _ _].
  eapply triple_bind with (Q := fun _ => True).
  - destruct (PyStr.mem _ _);
      [apply triple_ret; exact I | apply triple_warning].
  - intros _ _. apply triple_try_except.
    + now apply triple_close_body.
    + intros e.
      eapply triple_bind; [apply triple_error | intros _ _].
      apply triple_ret; exact I.
Qed.

End CloseTriples.

(** ** Equations of the parts of [close_antigravity] *)

Lemma bind_eq {W A B} (m : M W A) (k : A -> M W B) w :
  bind m k w =
  match m w with
  | (Ret a, w1, t1) =>
      (result (k a) w1, final (k a) w1, (t1 ++ events (k a) w1)%list)
  | (Raise e, w1, t1) => (Raise e, w1, t1)
  | (OutOfFuel, w1, t1) => (OutOfFuel, w1, t1)
  end.
Proof.
  unfold bind, result, final, events.
  destruct (m w) as [[[a|e|] w1] t1]; try reflexivity.
  now destruct (k a w1) as [[o w2] t2].
Qed.


Lemma result_bind {W A B} (m : M W A) (k : A -> M W B) w :
  result (bind m k) w =
  match result m w with
  | Ret a => result (k a) (final m w)
  | Raise e => Raise e
  | OutOfFuel => OutOfFuel
  end.
Proof.
  unfold result at 1. rewrite bind_eq. unfold result, final.
  now destruct (m w) as [[[a|e|] w1] t1].
Qed.

Lemma events_bind {W A B} (m : M W A) (k : A -> M W B) w :
  events (bind m k) w =
  match result m w with
  | Ret a => (events m w ++ events (k a) (final m w))%list
  | _ => events m w
  end.
Proof.
  unfold events at 1. rewrite bind_eq. unfold result, final, events.
  now destruct (m w) as [[[a|e|] w1] t1].
Qed.


Lemma result_emit_bind {W B} (ev : event) (k : unit -> M W B) w :
  result (bind (emit ev) k) w = result (k tt) w.
Proof. now rewrite result_bind. Qed.

Lemma events_emit_bind {W B} (ev : event) (k : unit -> M W B) w :
  events (bind (emit ev) k) w = ev :: events (k tt) w.
Proof. now rewrite events_bind. Qed.

Section CloseEquations.

Context {W : Type}.
Variable os : OS W.
Variable cfg : Config.

Lemma platform_quit_returns w :
  result (platform_quit os cfg) w = Ret tt.
Proof.
  unfold result, platform_quit, bind, try_except, info, warning, emit,
    subprocess_run, time_sleep, call, ret.
  destruct (system cfg =? "Darwin")%string;
    [| destruct (system cfg =? "Windows")%string]; try reflexivity.
  all: destruct (os_run os _ w) as [[rc|e] w1]; simpl; try reflexivity.
  all: destruct (rc =? 0); simpl; try reflexivity.
  all: destruct (os_sleep os 2000 w1) as [[[]|e] w2]; reflexivity.
Qed.

Lemma platform_quit_eq w :
  platform_quit os cfg w =
  (Ret tt, final (platform_quit os cfg) w, events (platform_quit os cfg) w).
Proof. rewrite <- (platform_quit_returns w). apply run_eta. Qed.

Lemma result_time_bind {B} (k : Z -> M W B) w :
  result (bind (time_time os) k) w =
  result (k (fst (os_time os w))) (snd (os_time os w)).
Proof.
  rewrite result_bind. unfold result at 1, final, time_time.
  now destruct (os_time os w).
Qed.

Lemma events_time_bind {B} (k : Z -> M W B) w :
  events (bind (time_time os) k) w =
  EvTime (fst (os_time os w))
  :: events (k (fst (os_time os w))) (snd (os_time os w)).
Proof.
  rewrite events_bind. unfold result at 1, final, events at 1, time_time.
  now destruct (os_time os w).
Qed.

Lemma terminate_all_returns targets : forall w,
  result (terminate_all os targets) w = Ret tt.
Proof.
  induction targets as [|p rest IH]; intros w; simpl; [reflexivity|].
  rewrite result_bind.
  assert (E : result
                (try_except
                   (alive <- is_running os p ;;
                    if alive then terminate os p else ret tt)
                   (fun _ => ret tt)) w = Ret tt).
  { unfold result, try_except, bind, is_running, terminate, call, ret.
    destruct (os_is_running os p w) as [[[|]|e0] w1]; simpl;
      try reflexivity.
    destruct (os_terminate os p w1) as [[[]|e1] w2]; reflexivity. }
  rewrite E. apply IH.
Qed.

Lemma scan_eq procs : forall acc (w : W),
  scan cfg procs acc w =
  (Ret (acc ++ target_processes cfg procs)%list, w,
   found_log (target_processes cfg procs)).
Proof.
  induction procs as [|p rest IH]; intros acc w; simpl.
  - now rewrite app_nil_r.
  - unfold is_shutdown_target.
    destruct (excluded_self cfg p); simpl; [apply IH|].
    destruct (is_antigravity_close (system cfg) p); [|apply IH].
    unfold bind, info, emit. rewrite IH, <- app_assoc. reflexivity.
Qed.

Lemma collect_targets_eq w :
  collect_targets os cfg w =
  let '(procs, err, w') := os_process_iter os w in
  (match err with
   | Some e => Raise e
   | None => Ret (target_processes cfg procs)
   end,
   w', EvProcessIter :: found_log (target_processes cfg procs)).
Proof.
  unfold collect_targets, bind, process_iter.
  destruct (os_process_iter os w) as [[procs err] w']. simpl.
  rewrite scan_eq. simpl.
  destruct err; unfold raise, ret; now rewrite app_nil_r.
Qed.

Lemma close_antigravity_eq fuel timeout force_kill w :
  close_antigravity os cfg fuel timeout force_kill w =
  let body := close_body os cfg fuel timeout force_kill in
  match result body w with
  | Raise e =>
      (Ret false, final body w,
       prologue cfg ++ events body w ++ [close_error e])%list
  | o => (o, final body w, (prologue cfg ++ events body w)%list)
  end.
Proof.
  unfold close_antigravity, prologue, close_error, result, final, events.
  unfold bind at 1. unfold info at 1. unfold emit at 1.
  unfold bind at 1.
  destruct (PyStr.mem (system cfg) ["Darwin"; "Windows"; "Linux"]).
  - unfold ret at 1. unfold try_except.
    destruct (close_body os cfg fuel timeout force_kill w)
      as [[[b|e|] w1] t1]; reflexivity.
  - unfold warning at 1. unfold emit at 1. unfold try_except.
    destruct (close_body os cfg fuel timeout force_kill w)
      as [[[b|e|] w1] t1]; reflexivity.
Qed.

End CloseEquations.

(** ** Self-exclusion *)

Lemma signals_targets_only_benign cfg ev :
  not_a_signal ev -> not_a_clock_reading ev -> signals_targets_only cfg ev.
Proof. destruct ev; simpl; tauto. Qed.

Lemma not_a_kill_benign ev :
  not_a_signal ev -> not_a_clock_reading ev -> not_a_kill ev.
Proof. destruct ev; simpl; tauto. Qed.

(** C2.  A handle that is the controller itself (same pid), or whose
    non-empty executable path lies under the controller's own directory, is
    in no target set the scan builds from any enumeration, is in no list
    [collect_targets] returns, and receives neither [terminate] nor [kill]
    in any run of [close_antigravity], whatever its name and path. *)
Theorem self_exclusion_invariant :
  forall (W : Type) (os : OS W) (cfg : Config) (fuel : nat) (timeout : Z)
         (force_kill : bool) (w : W) (p : Proc),
    self_handle cfg p ->
    (forall procs, ~ In p (target_processes cfg procs)) /\
    (forall w1 targets,
        result (collect_targets os cfg) w1 = Ret targets -> ~ In p targets) /\
    Forall (fun ev => ~ is_signal_to p ev)
           (events (close_antigravity os cfg fuel timeout force_kill) w).
Proof.
  intros W os cfg fuel timeout force_kill w p Hself.
  pose proof (excluded_not_target _ _ (self_handle_excluded _ _ Hself)) as Hno.
  split; [|split].
  - intros procs Hin. apply target_processes_In in Hin.
    destruct Hin as [_ Hin]. congruence.
  - intros w1 targets Hres Hin.
    assert (Ht : Forall (fun q => is_shutdown_target cfg q = true) targets).
    { eapply triple_result; [|exact Hres].
      apply triple_collect_targets with (P := fun _ => True). trivial. }
    rewrite Forall_forall in Ht. specialize (Ht _ Hin). congruence.
  - eapply Forall_impl;
      [| eapply triple_events, triple_close_antigravity
           with (P := signals_targets_only cfg)].
    + intros ev Hev [-> | ->]; simpl in Hev; congruence.
    + apply signals_targets_only_benign.
    + intros t. exact I.
    + intros q Hq. exact Hq.
    + intros _ q Hq. exact Hq.
Qed.

(** The invariant at the controller named like the target and at a program
    of the controller's directory, in the three-process scenario. *)
Lemma self_exclusion_invariant_witness :
  (self_handle Scenario.cfg Scenario.self_named_target /\
   self_handle Scenario.cfg Scenario.colocated) /\
  Forall (fun ev => ~ is_signal_to Scenario.self_named_target ev)
         (events (close_antigravity Sim.os Scenario.cfg 10 2 true)
                 (Scenario.three 700 (Some "antigravity.exe") None)) /\
  ~ In Scenario.colocated
       (target_processes Scenario.cfg [Scenario.p100; Scenario.colocated]).
Proof.
  assert (H1 : self_handle Scenario.cfg Scenario.self_named_target).
  { left. reflexivity. }
  assert (H2 : self_handle Scenario.cfg Scenario.colocated).
  { right. eexists _, _. split; [reflexivity|]. split; [discriminate|].
    split; [reflexivity|]. eexists. vm_compute. reflexivity. }
  split; [split; assumption|]. split.
  - exact (proj2 (proj2 (self_exclusion_invariant
             _ Sim.os Scenario.cfg 10%nat 2 true
             (Scenario.three 700 (Some "antigravity.exe") None)
             Scenario.self_named_target H1))).
  - exact (proj1 (self_exclusion_invariant
             _ Sim.os Scenario.cfg 10%nat 2 true Scenario.idle
             Scenario.colocated H2) _).
Defined.

(** ** The Windows rule *)

Lemma windows_rule (cfg : Config) (p : Proc) :
  system cfg = "Windows" ->
  is_antigravity_close (system cfg) p =
  is_target_name p
  || (PyStr.contains "antigravity" (exe_path p)
      && negb (PyStr.contains "manager" (process_name_lower p))).
Proof. intros ->. reflexivity. Qed.

(** C3, as the code has it.  On Windows, every enumerated process that the
    self-exclusion does not skip and whose lower-cased name is exactly
    'antigravity.exe' or 'antigravity' is in the shutdown-eligible set; and
    every process whose name is not one of these two and contains 'manager'
    is outside it, whatever its path. *)
Theorem windows_manager_exclusion :
  forall (cfg : Config) (procs : list Proc) (p : Proc),
    system cfg = "Windows" ->
    In p procs ->
    (is_target_name p = true ->
     excluded_self cfg p = false ->
     In p (target_processes cfg procs)) /\
    (is_target_name p = false ->
     PyStr.contains "manager" (process_name_lower p) = true ->
     ~ In p (target_processes cfg procs)).
Proof.
  intros cfg procs p Hsys Hin. split.
  - intros Hname Hself. apply target_processes_In. split; [exact Hin|].
    unfold is_shutdown_target. now rewrite Hself, (windows_rule _ _ Hsys), Hname.
  - intros Hname Hmgr Ht. apply target_processes_In in Ht.
    destruct Ht as [_ Ht]. unfold is_shutdown_target in Ht.
    rewrite (windows_rule _ _ Hsys), Hname, Hmgr, andb_false_r in Ht.
    simpl in Ht. rewrite andb_false_r in Ht. discriminate.
Qed.

(** 'antigravity.exe' is collected and 'Antigravity Manager.exe', with
    'antigravity' in its path, is not. *)
Lemma windows_manager_exclusion_witness :
  In Scenario.p100
     (target_processes Scenario.cfg [Scenario.p100; Scenario.manager]) /\
  PyStr.contains "antigravity" (exe_path Scenario.manager) = true /\
  ~ In Scenario.manager
       (target_processes Scenario.cfg [Scenario.p100; Scenario.manager]).
Proof.
  split; [|split].
  - apply (proj1 (windows_manager_exclusion
                    Scenario.cfg [Scenario.p100; Scenario.manager]
                    Scenario.p100 eq_refl (or_introl eq_refl)));
      vm_compute; reflexivity.
  - vm_compute. reflexivity.
  - apply (proj2 (windows_manager_exclusion
                    Scenario.cfg [Scenario.p100; Scenario.manager]
                    Scenario.manager eq_refl (or_intror (or_introl eq_refl))));
      vm_compute; reflexivity.
Defined.

(** C3 as stated fails: the controller's own process, enumerated on Windows
    under the exact name 'antigravity.exe', is not in the shutdown-eligible
    set. *)
Lemma windows_exact_name_self_excluded :
  system Scenario.cfg = "Windows" /\
  In Scenario.self_named_target [Scenario.p100; Scenario.self_named_target] /\
  process_name_lower Scenario.self_named_target = "antigravity.exe" /\
  ~ In Scenario.self_named_target
       (target_processes Scenario.cfg
                         [Scenario.p100; Scenario.self_named_target]).
Proof.
  split; [reflexivity|]. split; [right; left; reflexivity|].
  split; [reflexivity|].
  vm_compute. intros [H | []]. discriminate.
Qed.

(** ** Nothing to close *)

Section NoTarget.

Context {W : Type}.
Variable os : OS W.
Variable cfg : Config.

Lemma close_body_collected fuel timeout force_kill w :
  close_body os cfg fuel timeout force_kill w =
  let w0 := final (platform_quit os cfg) w in
  let t0 := events (platform_quit os cfg) w in
  let rest := fun targets : list Proc =>
    match targets with
    | [] =>
        info "All Antigravity processes have been closed" [] ;; ret true
    | _ :: _ =>
        exit <- graceful_phase os fuel timeout targets ;;
        match exit with
        | AllExited => ret true
        | TimedOut still_running => force_phase os force_kill still_running
        end
    end in
  match collect_targets os cfg w0 with
  | (Ret targets, w1, t1) =>
      (result (rest targets) w1, final (rest targets) w1,
       t0 ++ t1 ++ events (rest targets) w1)%list
  | (Raise e, w1, t1) => (Raise e, w1, (t0 ++ t1)%list)
  | (OutOfFuel, w1, t1) => (OutOfFuel, w1, (t0 ++ t1)%list)
  end.
Proof.
  unfold close_body. rewrite bind_eq, platform_quit_eq.
  unfold result, final, events. rewrite bind_eq. simpl.
  destruct (collect_targets os cfg _) as [[[targets|e|] w1] t1];
    reflexivity.
Qed.

Lemma close_body_no_target fuel timeout force_kill w procs :
  fst (os_process_iter os (final (platform_quit os cfg) w)) = (procs, None) ->
  target_processes cfg procs = [] ->
  close_body os cfg fuel timeout force_kill w =
  (Ret true,
   snd (os_process_iter os (final (platform_quit os cfg) w)),
   events (platform_quit os cfg) w ++
   [EvProcessIter;
    EvLog Info "All Antigravity processes have been closed" []])%list.
Proof.
  intros Hiter Hnone. rewrite close_body_collected. simpl.
  rewrite collect_targets_eq.
  destruct (os_process_iter os _) as [[procs' err] w1]. simpl in *.
  inversion Hiter; subst. rewrite Hnone. reflexivity.
Qed.

End NoTarget.

(** C6.  When the enumeration that follows the platform quit request yields
    no process that classifies as a shutdown target, [close_antigravity]
    returns true at once: after the enumeration it only logs that everything
    is closed, and it sends no [terminate] and no [kill]. *)
Theorem close_idempotent_when_no_target :
  forall (W : Type) (os : OS W) (cfg : Config) (fuel : nat) (timeout : Z)
         (force_kill : bool) (w : W) (procs : list Proc),
    fst (os_process_iter os (final (platform_quit os cfg) w)) = (procs, None) ->
    target_processes cfg procs = [] ->
    result (close_antigravity os cfg fuel timeout force_kill) w = Ret true /\
    events (close_antigravity os cfg fuel timeout force_kill) w =
      (prologue cfg ++ events (platform_quit os cfg) w ++
       [EvProcessIter;
        EvLog Info "All Antigravity processes have been closed" []])%list /\
    Forall not_a_signal
           (events (close_antigravity os cfg fuel timeout force_kill) w).
Proof.
  intros W os cfg fuel timeout force_kill w procs Hiter Hnone.
  assert (E : close_antigravity os cfg fuel timeout force_kill w =
              (Ret true,
               snd (os_process_iter os (final (platform_quit os cfg) w)),
               prologue cfg ++ events (platform_quit os cfg) w ++
               [EvProcessIter;
                EvLog Info "All Antigravity processes have been closed" []])%list).
  { rewrite close_antigravity_eq. unfold result, final, events.
    rewrite (close_body_no_target os cfg fuel timeout force_kill w procs Hiter Hnone).
    reflexivity. }
  unfold result, events. rewrite E. cbn [fst snd].
  split; [reflexivity|]. split; [reflexivity|].
  apply Forall_app. split.
  - unfold prologue. destruct (PyStr.mem _ _); repeat constructor.
  - apply Forall_app. split; [| repeat constructor].
    eapply triple_events, triple_platform_quit. trivial.
Qed.

(** Only the companion program is running: nothing is signalled. *)
Lemma close_idempotent_when_no_target_witness :
  result (close_antigravity Sim.os Scenario.cfg 10 2 true)
         Scenario.manager_only = Ret true /\
  Forall not_a_signal
         (events (close_antigravity Sim.os Scenario.cfg 10 2 true)
                 Scenario.manager_only).
Proof.
  pose proof (close_idempotent_when_no_target
                _ Sim.os Scenario.cfg 10%nat 2 true Scenario.manager_only
                [Scenario.manager] eq_refl eq_refl) as H.
  exact (conj (proj1 H) (proj2 (proj2 H))).
Defined.

(** ** Without forced kill *)

Section PhaseOne.

Context {W : Type}.
Variable os : OS W.
Variable cfg : Config.

Lemma close_body_phase_one fuel timeout force_kill w :
  close_body os cfg fuel timeout force_kill w =
  bind (phase_one os cfg fuel timeout) (after_phase_one os force_kill) w.
Proof.
  unfold close_body, phase_one, after_phase_one, bind.
  destruct (platform_quit os cfg w) as [[[[]|e|] w0] t0]; try reflexivity.
  destruct (collect_targets os cfg w0) as [[[targets|e|] w1] t1];
    try reflexivity.
  destruct targets as [|q targets]; simpl.
  - now rewrite app_nil_r, !app_assoc.
  - destruct (graceful_phase os fuel timeout (q :: targets) w1)
      as [[[exit|e|] w2] t2]; simpl; try reflexivity.
    rewrite app_nil_r.
    destruct exit as [|sr]; simpl; [now rewrite !app_nil_r, !app_assoc|].
    destruct (force_phase os force_kill sr w2) as [[o w3] t3].
    now rewrite !app_assoc.
Qed.

Lemma triple_phase_one fuel timeout :
  triple (phase_one os cfg fuel timeout) (fun _ => True)
         (fun reached => forall sr,
              reached = Some (TimedOut (Some sr)) -> sr <> []).
Proof.
  unfold phase_one.
  eapply triple_bind; [apply triple_platform_quit; trivial | intros _ _].
  eapply triple_bind; [apply triple_collect_targets; trivial | intros targets _].
  destruct targets as [|q targets]; [apply triple_ret; discriminate|].
  eapply triple_bind;
    [apply triple_graceful_phase; trivial | intros exit Hexit].
  apply triple_ret. intros sr E. inversion E; subst.
  exact (proj2 (Hexit _ eq_refl)).
Qed.

Lemma force_phase_declined survivors w :
  survivors <> [] ->
  result (force_phase os false (Some survivors)) w = Ret false.
Proof. destruct survivors; [congruence | reflexivity]. Qed.

End PhaseOne.

(** C5.  With [force_kill=False], [close_antigravity] never calls
    [proc.kill]; and when the polling loop ends by timeout with handles still
    running, the list of these survivors is not empty and the call returns
    false. *)
Theorem forced_kill_opt_out :
  forall (W : Type) (os : OS W) (cfg : Config) (fuel : nat) (timeout : Z)
         (w : W),
    Forall not_a_kill
           (events (close_antigravity os cfg fuel timeout false) w) /\
    (forall survivors,
        result (phase_one os cfg fuel timeout) w
        = Ret (Some (TimedOut (Some survivors))) ->
        survivors <> [] /\
        result (close_antigravity os cfg fuel timeout false) w = Ret false).
Proof.
  intros W os cfg fuel timeout w. split.
  - eapply triple_events, triple_close_antigravity.
    + apply not_a_kill_benign.
    + intros t. exact I.
    + intros p _. exact I.
    + discriminate.
  - intros survivors Hone.
    assert (Hne : survivors <> []).
    { exact (triple_result _ _ _ _ _ (triple_phase_one os cfg fuel timeout)
                           Hone survivors eq_refl). }
    split; [exact Hne|].
    unfold result. rewrite close_antigravity_eq. unfold result at 1.
    rewrite close_body_phase_one, bind_eq.
    rewrite (run_eta (phase_one os cfg fuel timeout) w), Hone.
    cbn [fst snd after_phase_one].
    now rewrite (force_phase_declined os survivors _ Hne).
Qed.

(** Pid 101 ignores SIGTERM: after two seconds of polling the call gives up
    without a kill. *)
Lemma forced_kill_opt_out_witness :
  result (phase_one Sim.os Scenario.cfg 10 2) Scenario.stubborn
  = Ret (Some (TimedOut (Some [Scenario.p101]))) /\
  result (close_antigravity Sim.os Scenario.cfg 10 2 false) Scenario.stubborn
  = Ret false /\
  Forall not_a_kill
         (events (close_antigravity Sim.os Scenario.cfg 10 2 false)
                 Scenario.stubborn).
Proof.
  pose proof (forced_kill_opt_out _ Sim.os Scenario.cfg 10%nat 2
                                  Scenario.stubborn) as [Hk Hr].
  assert (H1 : result (phase_one Sim.os Scenario.cfg 10 2) Scenario.stubborn
               = Ret (Some (TimedOut (Some [Scenario.p101])))).
  { vm_compute. reflexivity. }
  split; [exact H1|]. split; [exact (proj2 (Hr _ H1)) | exact Hk].
Defined.

(** ** Termination *)

Section Total.

Context {W : Type}.

Lemma total_ret {A} (a : A) : total (W := W) (ret a).
Proof. intros w. discriminate. Qed.

Lemma total_raise {A} (e : exn) : total (W := W) (A := A) (raise e).
Proof. intros w. discriminate. Qed.

Lemma total_emit (ev : event) : total (W := W) (emit ev).
Proof. intros w. discriminate. Qed.

Lemma total_call {A} (f : W -> answer A * W) ev : total (call f ev).
Proof.
  intros w. unfold result, call. destruct (f w) as [[a|e] w']; discriminate.
Qed.

Lemma total_bind {A B} (m : M W A) (k : A -> M W B) :
  total m -> (forall a, total (k a)) -> total (bind m k).
Proof.
  intros Hm Hk w. unfold result. rewrite bind_eq.
  specialize (Hm w). unfold result in Hm.
  destruct (m w) as [[[a|e|] w1] t1]; simpl in *;
    [apply Hk | discriminate | congruence].
Qed.

Lemma total_try_except {A} (m : M W A) (h : exn -> M W A) :
  total m -> (forall e, total (h e)) -> total (try_except m h).
Proof.
  intros Hm Hh w. unfold result, try_except.
  specialize (Hm w). unfold result in Hm.
  destruct (m w) as [[[a|e|] w1] t1]; simpl in *;
    [discriminate | | congruence].
  specialize (Hh e w1). unfold result in Hh.
  now destruct (h e w1) as [[o w2] t2].
Qed.

Lemma total_try_except_psutil {A} (m h : M W A) :
  total m -> total h -> total (try_except_psutil m h).
Proof.
  intros Hm Hh. apply total_try_except; [exact Hm|].
  intros []; auto using total_raise.
Qed.

Variable os : OS W.
Variable cfg : Config.



Lemma total_collect_targets : total (collect_targets os cfg).
Proof.
  intros w. unfold result. rewrite collect_targets_eq.
  destruct (os_process_iter os w) as [[procs [e|]] w']; discriminate.
Qed.

Lemma total_platform_quit : total (platform_quit os cfg).
Proof. intros w. now rewrite platform_quit_returns. Qed.

Lemma total_terminate_all targets : total (terminate_all os targets).
Proof.
  induction targets as [|p rest IH]; simpl; [apply total_ret|].
  apply total_bind; [| intros _; exact IH].
  apply total_try_except; [| intros; apply total_ret].
  apply total_bind; [apply total_call|].
  intros []; [apply total_call | apply total_ret].
Qed.

Lemma total_collect_running targets : forall acc,
  total (collect_running os targets acc).
Proof.
  induction targets as [|p rest IH]; intros acc; simpl; [apply total_ret|].
  apply total_bind; [| intros acc'; apply IH].
  apply total_try_except_psutil; [| apply total_ret].
  apply total_bind; [apply total_call | intros; apply total_ret].
Qed.

Lemma total_kill_all running : total (kill_all os running).
Proof.
  induction running as [|p rest IH]; simpl; [apply total_ret|].
  apply total_bind; [| intros _; exact IH].
  apply total_try_except_psutil; [| apply total_ret].
  apply total_bind; [apply total_call|].
  intros []; [apply total_call | apply total_ret].
Qed.

Lemma total_force_phase force_kill still_running :
  total (force_phase os force_kill still_running).
Proof.
  unfold force_phase, final_check_phase.
  destruct still_running as [[|q running]|];
    [apply total_ret | | apply total_raise].
  apply total_bind; [apply total_emit | intros _].
  destruct force_kill.
  - apply total_bind; [apply total_emit | intros _].
    apply total_bind; [apply total_kill_all | intros _].
    apply total_bind; [apply total_call | intros _].
    apply total_bind; [apply total_collect_running | intros final_check].
    destruct final_check;
      (apply total_bind; [apply total_emit | intros _; apply total_ret]).
  - apply total_bind; [apply total_emit | intros _; apply total_ret].
Qed.

(** *** The polling loop under a ticking clock *)

Variable clock : W -> Z.
Hypothesis ticks : ticking os clock.

Lemma collect_running_clock targets : forall acc w,
  clock w <= clock (final (collect_running os targets acc) w).
Proof.
  induction targets as [|p rest IH]; intros acc w; simpl.
  - unfold final, ret. simpl. lia.
  - unfold final. rewrite bind_eq.
    unfold try_except_psutil, try_except, bind, is_running, call.
    pose proof (tick_is_running os clock ticks p w) as Hq.
    destruct (os_is_running os p w) as [[alive|e] w1]; simpl in *.
    + etransitivity; [exact Hq | apply IH].
    + destruct e; simpl; try lia.
      all: etransitivity; [exact Hq | apply IH].
Qed.

Lemma poll_loop_total start_time timeout targets fuel : forall sr w,
  (1 <= fuel)%nat ->
  timeout * 1000 - (clock w - start_time) <= 500 * (Z.of_nat fuel - 1) ->
  result (poll_loop os fuel start_time timeout targets sr) w <> OutOfFuel.
Proof.
  induction fuel as [|fuel IH]; intros sr w Hfuel Hbound; [lia|].
  cbn [poll_loop]. unfold result. rewrite bind_eq. unfold time_time.
  pose proof (tick_time os clock ticks w) as Ht.
  destruct (os_time os w) as [now w1]. cbn [fst snd] in *.
  destruct (now - start_time <? timeout * 1000) eqn:Hlt;
    [| discriminate].
  apply Z.ltb_lt in Hlt.
  unfold result. rewrite bind_eq.
  pose proof (collect_running_clock targets [] w1) as Hc.
  pose proof (total_collect_running targets [] w1) as Hr.
  unfold final in Hc. unfold result in Hr.
  destruct (collect_running os targets [] w1) as [[[running|e|] w2] t2];
    cbn [fst snd] in *; [| discriminate | congruence].
  destruct running as [|q running]; [discriminate|].
  unfold result. rewrite bind_eq. unfold time_sleep, call.
  pose proof (tick_sleep os clock ticks 500 w2) as Hs.
  destruct (os_sleep os 500 w2) as [[[]|e] w3]; cbn [fst snd] in *; [| discriminate].
  specialize (Hs eq_refl).
  apply IH; lia.
Qed.

Lemma graceful_phase_total fuel timeout targets :
  (Z.to_nat (2 * timeout) < fuel)%nat ->
  total (graceful_phase os fuel timeout targets).
Proof.
  intros Hfuel w. unfold graceful_phase, info.
  rewrite !result_emit_bind, result_bind.
  pose proof (total_terminate_all targets w) as Hterm.
  destruct (result (terminate_all os targets) w) as [[]|e|];
    [| discriminate | congruence].
  rewrite result_emit_bind, result_bind.
  generalize (final (terminate_all os targets) w). intros w1.
  unfold result at 1, final at 1, time_time.
  pose proof (tick_time os clock ticks w1) as Ht.
  destruct (os_time os w1) as [start_time w2]. cbn [fst snd] in *.
  apply poll_loop_total; lia.
Qed.

Lemma close_body_total fuel timeout force_kill :
  (Z.to_nat (2 * timeout) < fuel)%nat ->
  total (close_body os cfg fuel timeout force_kill).
Proof.
  intros Hfuel. unfold close_body.
  apply total_bind; [apply total_platform_quit | intros _].
  apply total_bind; [apply total_collect_targets | intros targets].
  destruct targets as [|q targets].
  - apply total_bind; [apply total_emit | intros _; apply total_ret].
  - apply total_bind; [now apply graceful_phase_total | intros exit].
    destruct exit; [apply total_ret | apply total_force_phase].
Qed.

End Total.

Lemma sim_ticking : ticking Sim.os Sim.now.
Proof. constructor; intros; simpl; lia. Qed.

(** C7.  For every timeout and flag and whatever the OS primitives answer or
    raise, [close_antigravity] never ends with a raised exception: an
    exception [e] that escapes the body of its [try] becomes the result
    false, with the error line about [e] as the last thing logged.  And it
    does end, with a boolean: under a clock that ticks, more than
    [2 * timeout] rounds of polling are never needed. *)
Theorem close_always_returns :
  forall (W : Type) (os : OS W) (cfg : Config)
         (fuel : nat) (timeout : Z) (force_kill : bool) (w : W),
    (forall e,
        result (close_antigravity os cfg fuel timeout force_kill) w
        <> Raise e) /\
    (forall e,
        result (close_body os cfg fuel timeout force_kill) w = Raise e ->
        result (close_antigravity os cfg fuel timeout force_kill) w
        = Ret false /\
        events (close_antigravity os cfg fuel timeout force_kill) w
        = (prologue cfg ++ events (close_body os cfg fuel timeout force_kill) w
           ++ [close_error e])%list) /\
    (forall clock,
        ticking os clock ->
        (Z.to_nat (2 * timeout) < fuel)%nat ->
        exists b,
          result (close_antigravity os cfg fuel timeout force_kill) w = Ret b).
Proof.
  intros W os cfg fuel timeout force_kill w.
  assert (E := close_antigravity_eq os cfg fuel timeout force_kill w).
  cbn zeta in E. unfold result at 1 3 4, events at 1. rewrite E.
  split; [|split].
  - intros e.
    destruct (result (close_body os cfg fuel timeout force_kill) w);
      discriminate.
  - intros e He. rewrite He. split; reflexivity.
  - intros clock Hticks Hfuel.
    pose proof (close_body_total os cfg clock Hticks fuel timeout force_kill
                                 Hfuel w) as Htotal.
    destruct (result (close_body os cfg fuel timeout force_kill) w)
      as [b|e|]; [now exists b | now exists false | congruence].
Qed.

(** The three-process scenario returns; and when every liveness query fails
    with a foreign exception, the fault becomes the result false. *)
Lemma close_always_returns_witness :
  (exists b,
      result (close_antigravity Sim.os Scenario.cfg 10 2 true)
             (Scenario.three 700 None None) = Ret b) /\
  result (close_body Sim.os_faulty Scenario.cfg 10 2 true) Scenario.stubborn
  = Raise (OtherException "RuntimeError") /\
  result (close_antigravity Sim.os_faulty Scenario.cfg 10 2 true)
         Scenario.stubborn = Ret false.
Proof.
  assert (Hfuel : (Z.to_nat (2 * 2) < 10)%nat) by (vm_compute; lia).
  split; [|split].
  - exact (proj2 (proj2 (close_always_returns
                           _ Sim.os Scenario.cfg 10%nat 2 true
                           (Scenario.three 700 None None)))
                 Sim.now sim_ticking Hfuel).
  - vm_compute. reflexivity.
  - apply (proj1 (proj2 (close_always_returns
                           _ Sim.os_faulty Scenario.cfg 10%nat 2 true
                           Scenario.stubborn))
                 (OtherException "RuntimeError")).
    vm_compute. reflexivity.
Defined.

(** ** A timeout that is not positive *)

Section NonPositiveTimeout.

Context {W : Type}.
Variable os : OS W.
Variable cfg : Config.
Hypothesis monotone : clock_monotone os.

Lemma graceful_phase_non_positive fuel timeout targets w :
  timeout <= 0 ->
  (0 < fuel)%nat ->
  exists pre t0 t1,
    result (graceful_phase os fuel timeout targets) w = Ret (TimedOut None) /\
    events (graceful_phase os fuel timeout targets) w
    = (pre ++ [waiting_log timeout; EvTime t0; EvTime t1])%list /\
    Forall not_a_kill pre.
Proof.
  intros Htimeout Hfuel.
  destruct fuel as [|fuel]; [lia|].
  assert (Hpre : Forall not_a_kill
                   (events (terminate_all os targets) w)).
  { eapply triple_events, triple_terminate_all.
    - apply not_a_kill_benign.
    - intros; exact I. }
  unfold graceful_phase, info.
  rewrite !result_emit_bind, !events_emit_bind, result_bind, events_bind.
  rewrite terminate_all_returns.
  rewrite result_emit_bind, events_emit_bind.
  rewrite result_time_bind, events_time_bind.
  generalize (final (terminate_all os targets) w). intros w1.
  cbn [poll_loop]. rewrite result_time_bind, events_time_bind.
  pose proof (monotone w1) as Hmono.
  set (t0 := fst (os_time os w1)) in *.
  set (w2 := snd (os_time os w1)) in *.
  set (t1 := fst (os_time os w2)) in *.
  assert (Hge : (t1 - t0 <? timeout * 1000) = false)
    by (apply Z.ltb_ge; lia).
  rewrite Hge.
  exists ([EvLog Info "Detected {} process(es) still running"
                 [AInt (Z.of_nat (List.length targets))];
           EvLog Info "Sending termination signal (SIGTERM)..." []]
          ++ events (terminate_all os targets) w)%list, t0, t1.
  split; [reflexivity|]. split.
  - reflexivity.
  - apply Forall_app. split; [repeat constructor | exact Hpre].
Qed.

End NonPositiveTimeout.

Section CollectedTargets.

Context {W : Type}.
Variable os : OS W.
Variable cfg : Config.

(** The run of [close_body] once the enumeration has yielded [procs]. *)
Lemma close_body_enumerated fuel timeout force_kill w procs :
  fst (os_process_iter os (final (platform_quit os cfg) w)) = (procs, None) ->
  let w1 := snd (os_process_iter os (final (platform_quit os cfg) w)) in
  let targets := target_processes cfg procs in
  let rest :=
    match targets with
    | [] =>
        info "All Antigravity processes have been closed" [] ;; ret true
    | _ :: _ =>
        exit <- graceful_phase os fuel timeout targets ;;
        match exit with
        | AllExited => ret true
        | TimedOut still_running => force_phase os force_kill still_running
        end
    end in
  result (close_body os cfg fuel timeout force_kill) w = result rest w1 /\
  events (close_body os cfg fuel timeout force_kill) w
  = (events (platform_quit os cfg) w ++
     (EvProcessIter :: found_log targets) ++ events rest w1)%list.
Proof.
  intros Hiter. cbn zeta.
  unfold result at 1, events at 1.
  rewrite close_body_collected. cbn zeta.
  rewrite collect_targets_eq.
  destruct (os_process_iter os (final (platform_quit os cfg) w))
    as [[procs' err] w1].
  cbn [fst snd] in *. inversion Hiter; subst. split; reflexivity.
Qed.

End CollectedTargets.

(** C9.  With a timeout that is zero or negative and at least one target
    collected, the polling loop's body never runs: after the start time and
    the one reading of the loop condition, the unbound [still_running] raises
    [NameError], the top-level handler logs it and the call returns false.
    No [kill] is sent, whatever [force_kill] is. *)
Theorem non_positive_timeout_fails :
  forall (W : Type) (os : OS W) (cfg : Config) (fuel : nat) (timeout : Z)
         (force_kill : bool) (w : W) (procs : list Proc),
    timeout <= 0 ->
    (0 < fuel)%nat ->
    clock_monotone os ->
    fst (os_process_iter os (final (platform_quit os cfg) w)) = (procs, None) ->
    target_processes cfg procs <> [] ->
    result (close_antigravity os cfg fuel timeout force_kill) w = Ret false /\
    Forall not_a_kill
           (events (close_antigravity os cfg fuel timeout force_kill) w) /\
    exists pre t0 t1,
      events (close_antigravity os cfg fuel timeout force_kill) w
      = (pre ++ [waiting_log timeout; EvTime t0; EvTime t1;
                 close_error (NameError "still_running")])%list.
Proof.
  intros W os cfg fuel timeout force_kill w procs
         Htimeout Hfuel Hmono Hiter Hsome.
  destruct (close_body_enumerated os cfg fuel timeout force_kill w procs Hiter)
    as [Hres Hev].
  cbn zeta in Hres, Hev.
  set (w1 := snd (os_process_iter os (final (platform_quit os cfg) w))) in *.
  destruct (target_processes cfg procs) as [|q targets] eqn:Ht; [congruence|].
  destruct (graceful_phase_non_positive os Hmono fuel timeout (q :: targets)
                                        w1 Htimeout Hfuel)
    as (pre & t0 & t1 & Hgres & Hgev & Hpre).
  rewrite result_bind, Hgres in Hres. cbn [force_phase] in Hres.
  rewrite events_bind, Hgres, Hgev in Hev. cbn [force_phase] in Hev.
  change (result (raise (NameError "still_running")) _)
    with (@Raise bool (NameError "still_running")) in Hres.
  change (events (raise (NameError "still_running")) _)
    with (@nil event) in Hev.
  rewrite app_nil_r in Hev.
  unfold result at 1, events at 1 2.
  rewrite close_antigravity_eq. cbn zeta. rewrite Hres, Hev. cbn [fst snd].
  split; [reflexivity|].
  assert (Hquiet : Forall not_a_kill
                     (prologue cfg ++ events (platform_quit os cfg) w ++
                      (EvProcessIter :: found_log (q :: targets)) ++ pre)%list).
  { apply Forall_app. split.
    { unfold prologue. destruct (PyStr.mem _ _); repeat constructor. }
    apply Forall_app. split.
    { eapply triple_events, triple_platform_quit. apply not_a_kill_benign. }
    apply Forall_app. split; [| exact Hpre].
    constructor; [exact I|]. unfold found_log. apply Forall_forall.
    intros ev Hin. apply in_map_iff in Hin. destruct Hin as (p & <- & _).
    exact I. }
  split.
  - rewrite !app_assoc. apply Forall_app. split; [| repeat constructor].
    apply Forall_app. split; [| repeat constructor].
    rewrite <- !app_assoc. exact Hquiet.
  - exists (prologue cfg ++ events (platform_quit os cfg) w ++
            (EvProcessIter :: found_log (q :: targets)) ++ pre)%list, t0, t1.
    rewrite <- !app_assoc. reflexivity.
Qed.

(** Pid 101 is running and the timeout is zero. *)
Lemma non_positive_timeout_fails_witness :
  result (close_antigravity Sim.os Scenario.cfg 10 0 true) Scenario.stubborn
  = Ret false /\
  Forall not_a_kill
         (events (close_antigravity Sim.os Scenario.cfg 10 0 true)
                 Scenario.stubborn).
Proof.
  assert (Hmono : clock_monotone Sim.os).
  { intros w. simpl. lia. }
  assert (Hfuel : (0 < 10)%nat) by lia.
  assert (Htimeout : 0 <= 0) by lia.
  assert (Hsome : target_processes Scenario.cfg [Scenario.p101] <> []).
  { vm_compute. discriminate. }
  pose proof (non_positive_timeout_fails
                _ Sim.os Scenario.cfg 10%nat 0 true Scenario.stubborn
                [Scenario.p101] Htimeout Hfuel Hmono eq_refl Hsome) as H.
  exact (conj (proj1 H) (proj1 (proj2 H))).
Defined.

(** ** Detection against shutdown eligibility *)

Lemma Proc_eq_dec (p q : Proc) : {p = q} + {p <> q}.
Proof.
  decide equality; try apply Z.eq_dec;
    decide equality; apply string_dec.
Qed.

Lemma detect_loop_found (cfg : Config) (procs : list Proc) (p : Proc) :
  In p procs ->
  is_antigravity_detect (system cfg) p = true ->
  detect_loop cfg procs = Some true.
Proof.
  induction procs as [|q rest IH]; intros Hin Hp; [contradiction|].
  simpl. destruct (is_antigravity_detect (system cfg) q) eqn:Hq;
    [reflexivity|].
  destruct Hin as [-> | Hin]; [congruence | now apply IH].
Qed.

Lemma close_rule_implies_detect (sys : string) (p : Proc) :
  is_antigravity_close sys p = true -> is_antigravity_detect sys p = true.
Proof.
  unfold is_antigravity_close, is_antigravity_detect.
  destruct (sys =? "Darwin")%string; [trivial|].
  destruct (sys =? "Windows")%string; [|trivial].
  cbn zeta. intros H. apply orb_true_iff in H. apply orb_true_iff.
  destruct H as [H | H]; [now left | right].
  now apply andb_true_iff in H.
Qed.

Lemma is_process_running_found {W} (os : OS W) (cfg : Config) w p :
  In p (fst (fst (os_process_iter os w))) ->
  is_antigravity_detect (system cfg) p = true ->
  result (is_process_running os cfg) w = Ret true.
Proof.
  intros Hin Hp. unfold is_process_running. rewrite result_bind.
  unfold result at 1, final, process_iter.
  destruct (os_process_iter os w) as [[procs err] w']. cbn [fst snd] in *.
  now rewrite (detect_loop_found cfg procs p Hin Hp).
Qed.

(** C10.  On Windows, with a process table [procs] that the enumeration of
    [is_process_running] and the one of [close_antigravity] both yield in
    full.  [is_process_running] returns true as soon as one handle matches
    the detection rule, whoever the controller is (no pid and no directory
    is exempt, and neither is a name with 'manager').  So when the only
    handle that the detection rule matches has 'manager' in its lower-cased
    name, 'antigravity' in its path and not one of the exact target names,
    [is_process_running] returns true while the shutdown-eligible set is
    empty and [close_antigravity] returns true without sending any
    signal. *)
Theorem detection_and_shutdown_diverge :
  forall (W : Type) (os : OS W) (cfg : Config) (fuel : nat) (timeout : Z)
         (force_kill : bool) (w : W) (procs : list Proc) (p : Proc),
    system cfg = "Windows" ->
    fst (os_process_iter os w) = (procs, None) ->
    fst (os_process_iter os (final (platform_quit os cfg) w)) = (procs, None) ->
    In p procs ->
    is_target_name p = false ->
    PyStr.contains "manager" (process_name_lower p) = true ->
    PyStr.contains "antigravity" (exe_path p) = true ->
    (forall q, In q procs -> q <> p ->
               is_antigravity_detect (system cfg) q = false) ->
    (forall cfg' q,
        system cfg' = system cfg ->
        In q procs -> is_antigravity_detect (system cfg) q = true ->
        result (is_process_running os cfg') w = Ret true) /\
    result (is_process_running os cfg) w = Ret true /\
    target_processes cfg procs = [] /\
    result (close_antigravity os cfg fuel timeout force_kill) w = Ret true /\
    Forall not_a_signal
           (events (close_antigravity os cfg fuel timeout force_kill) w).
Proof.
  intros W os cfg fuel timeout force_kill w procs p
         Hsys Hnow Hiter Hin Hname Hmgr Hpath Hothers.
  assert (Hnone : target_processes cfg procs = []).
  { unfold target_processes.
    destruct (filter (is_shutdown_target cfg) procs) as [|q l] eqn:Hf;
      [reflexivity|].
    assert (Hq : In q (filter (is_shutdown_target cfg) procs))
      by (rewrite Hf; now left).
    apply filter_In in Hq. destruct Hq as [Hq1 Hq2].
    unfold is_shutdown_target in Hq2. apply andb_true_iff in Hq2.
    destruct Hq2 as [_ Hq2].
    assert (Hd := close_rule_implies_detect _ _ Hq2).
    assert (q = p) as ->.
    { destruct (Proc_eq_dec q p) as [E | Hne]; [exact E|].
      pose proof (Hothers q Hq1 Hne). congruence. }
    rewrite (windows_rule _ _ Hsys), Hname, Hmgr, andb_false_r in Hq2.
    discriminate. }
  split; [|split; [|split; [exact Hnone|]]].
  - intros cfg' q Hsame Hq Hdetect.
    apply (is_process_running_found os cfg' w q).
    + now rewrite Hnow.
    + now rewrite Hsame.
  - apply (is_process_running_found os cfg w p).
    + now rewrite Hnow.
    + rewrite Hsys. unfold is_antigravity_detect. simpl.
      rewrite Hpath. apply orb_true_r.
  - assert (E : close_antigravity os cfg fuel timeout force_kill w =
              (Ret true,
               snd (os_process_iter os (final (platform_quit os cfg) w)),
               prologue cfg ++ events (platform_quit os cfg) w ++
               [EvProcessIter;
                EvLog Info "All Antigravity processes have been closed" []])%list).
    { rewrite close_antigravity_eq. unfold result, final, events.
      rewrite (close_body_no_target os cfg fuel timeout force_kill w procs
                                    Hiter Hnone).
      reflexivity. }
    unfold result, events. rewrite E. cbn [fst snd].
    split; [reflexivity|].
    apply Forall_app. split.
    + unfold prologue. destruct (PyStr.mem _ _); repeat constructor.
    + apply Forall_app. split; [| repeat constructor].
      eapply triple_events, triple_platform_quit. trivial.
Qed.

(** Only 'Antigravity Manager.exe' is running: detected, yet not closed. *)
Lemma detection_and_shutdown_diverge_witness :
  (forall cfg' q,
      system cfg' = system Scenario.cfg ->
      In q [Scenario.manager] ->
      is_antigravity_detect (system Scenario.cfg) q = true ->
      result (is_process_running Sim.os cfg') Scenario.manager_only
      = Ret true) /\
  result (is_process_running Sim.os Scenario.cfg) Scenario.manager_only
  = Ret true /\
  target_processes Scenario.cfg [Scenario.manager] = [] /\
  result (close_antigravity Sim.os Scenario.cfg 10 10 true)
         Scenario.manager_only = Ret true /\
  Forall not_a_signal
         (events (close_antigravity Sim.os Scenario.cfg 10 10 true)
                 Scenario.manager_only).
Proof.
  apply (detection_and_shutdown_diverge
           _ Sim.os Scenario.cfg 10%nat 10 true Scenario.manager_only
           [Scenario.manager] Scenario.manager);
    try (vm_compute; reflexivity).
  - left. reflexivity.
  - intros q [<- | []] Hne. now elim Hne.
Defined.

(** ** Fuel *)

Lemma bind_more_fuel {W A B} (m : M W A) (k k' : A -> M W B) w :
  (forall a w1, result (k a) w1 <> OutOfFuel -> k' a w1 = k a w1) ->
  result (bind m k) w <> OutOfFuel ->
  bind m k' w = bind m k w.
Proof.
  intros Hk Hres. rewrite result_bind in Hres. rewrite !bind_eq.
  unfold result at 1, final in Hres. unfold result, final, events.
  destruct (m w) as [[[a|e|] w1] t1]; cbn [fst snd] in *; try reflexivity.
  now rewrite (Hk a w1 Hres).
Qed.

Lemma bind_same_head {W A B} (m m' : M W A) (k : A -> M W B) w :
  m' w = m w -> bind m' k w = bind m k w.
Proof. intros E. unfold bind. now rewrite E. Qed.


Lemma bind_head_total {W A B} (m : M W A) (k : A -> M W B) w :
  result (bind m k) w <> OutOfFuel -> result m w <> OutOfFuel.
Proof.
  rewrite result_bind. destruct (result m w); [discriminate | discriminate |].
  intros H _. now apply H.
Qed.

Section MoreFuel.

Context {W : Type}.
Variable os : OS W.
Variable cfg : Config.

Lemma poll_loop_more_fuel start_time timeout targets fuel :
  forall fuel' sr w,
    (fuel <= fuel')%nat ->
    result (poll_loop os fuel start_time timeout targets sr) w <> OutOfFuel ->
    poll_loop os fuel' start_time timeout targets sr w
    = poll_loop os fuel start_time timeout targets sr w.
Proof.
  induction fuel as [|fuel IH]; intros fuel' sr w Hle Hres.
  - now elim Hres.
  - destruct fuel' as [|fuel']; [lia|].
    cbn [poll_loop] in *. apply bind_more_fuel; [| exact Hres].
    intros now w1. destruct (now - start_time <? timeout * 1000); [|reflexivity].
    apply bind_more_fuel. intros running w2.
    destruct running as [|q running]; [reflexivity|].
    apply bind_more_fuel. intros _ w3. apply IH. lia.
Qed.

Lemma graceful_phase_more_fuel timeout targets fuel fuel' w :
  (fuel <= fuel')%nat ->
  result (graceful_phase os fuel timeout targets) w <> OutOfFuel ->
  graceful_phase os fuel' timeout targets w
  = graceful_phase os fuel timeout targets w.
Proof.
  intros Hle. unfold graceful_phase.
  apply bind_more_fuel. intros _ w1.
  apply bind_more_fuel. intros _ w2.
  apply bind_more_fuel. intros _ w3.
  apply bind_more_fuel. intros _ w4.
  apply bind_more_fuel. intros start_time w5.
  now apply poll_loop_more_fuel.
Qed.

Lemma phase_one_more_fuel timeout fuel fuel' w :
  (fuel <= fuel')%nat ->
  result (phase_one os cfg fuel timeout) w <> OutOfFuel ->
  phase_one os cfg fuel' timeout w = phase_one os cfg fuel timeout w.
Proof.
  intros Hle. unfold phase_one.
  apply bind_more_fuel. intros _ w1.
  apply bind_more_fuel. intros targets w2.
  destruct targets as [|q targets]; [reflexivity|].
  intros Hres. apply bind_same_head.
  apply graceful_phase_more_fuel; [exact Hle|].
  exact (bind_head_total _ _ _ Hres).
Qed.

Lemma close_body_more_fuel timeout force_kill fuel fuel' w :
  (fuel <= fuel')%nat ->
  result (close_body os cfg fuel timeout force_kill) w <> OutOfFuel ->
  close_body os cfg fuel' timeout force_kill w
  = close_body os cfg fuel timeout force_kill w.
Proof.
  intros Hle. unfold close_body.
  apply bind_more_fuel. intros _ w1.
  apply bind_more_fuel. intros targets w2.
  destruct targets as [|q targets]; [reflexivity|].
  intros Hres. apply bind_same_head.
  apply graceful_phase_more_fuel; [exact Hle|].
  exact (bind_head_total _ _ _ Hres).
Qed.

Lemma close_antigravity_more_fuel timeout force_kill fuel fuel' w :
  (fuel <= fuel')%nat ->
  result (close_antigravity os cfg fuel timeout force_kill) w <> OutOfFuel ->
  close_antigravity os cfg fuel' timeout force_kill w
  = close_antigravity os cfg fuel timeout force_kill w.
Proof.
  intros Hle Hres.
  assert (Hbody : result (close_body os cfg fuel timeout force_kill) w
                  <> OutOfFuel).
  { intros E. apply Hres. unfold result at 1.
    rewrite close_antigravity_eq. cbn zeta. now rewrite E. }
  rewrite !close_antigravity_eq. cbn zeta. unfold result, final, events.
  now rewrite (close_body_more_fuel timeout force_kill fuel fuel' w Hle Hbody).
Qed.

End MoreFuel.

(** ** Reading the checks *)

Lemma option_string_eqb_eq (a b : option string) :
  option_string_eqb a b = true -> a = b.
Proof.
  destruct a, b; simpl; try discriminate; [|reflexivity].
  intros H. apply String.eqb_eq in H. now subst.
Qed.

Lemma proc_eqb_eq (p q : Proc) : proc_eqb p q = true -> p = q.
Proof.
  unfold proc_eqb. intros H.
  apply andb_true_iff in H. destruct H as [H H3].
  apply andb_true_iff in H. destruct H as [H1 H2].
  apply Z.eqb_eq in H1. apply option_string_eqb_eq in H2, H3.
  destruct p, q; simpl in *. now subst.
Qed.

Lemma proc_eqb_refl (p : Proc) : proc_eqb p p = true.
Proof.
  unfold proc_eqb. rewrite Z.eqb_refl.
  destruct p as [n [nm|] [ex|]]; simpl; now rewrite ?String.eqb_refl.
Qed.

Lemma procs_eqb_eq (l l' : list Proc) : procs_eqb l l' = true -> l = l'.
Proof.
  unfold procs_eqb. revert l'.
  induction l as [|p l IH]; intros [|q l'] H; simpl in *;
    try discriminate; [reflexivity|].
  apply andb_true_iff in H. destruct H as [Hlen H].
  apply andb_true_iff in H. destruct H as [Hpq H].
  apply proc_eqb_eq in Hpq. subst. f_equal. apply IH.
  now rewrite Hlen, H.
Qed.

Lemma kills_only_spec (p : Proc) (tr : list event) :
  kills_only p tr = true -> forall q, In (EvKill q) tr -> q = p.
Proof.
  unfold kills_only. rewrite forallb_forall. intros H q Hin.
  exact (proc_eqb_eq _ _ (H _ Hin)).
Qed.

Lemma has_kill_spec (p : Proc) (tr : list event) :
  has_kill p tr = true -> In (EvKill p) tr.
Proof.
  unfold has_kill. rewrite existsb_exists. intros (ev & Hin & Hev).
  destruct ev; try discriminate. now apply proc_eqb_eq in Hev; subst.
Qed.

Lemma seen_exited_spec (p : Proc) (tr : list event) :
  seen_exited p tr = true -> In (EvIsRunning p (Some false)) tr.
Proof.
  unfold seen_exited. rewrite existsb_exists. intros (ev & Hin & Hev).
  destruct ev as [| | | | | q [[|]|] | | | | | |]; try discriminate.
  now apply proc_eqb_eq in Hev; subst.
Qed.

Lemma never_signals_pid_spec (n : Z) (tr : list event) :
  never_signals_pid n tr = true ->
  forall p, pid p = n -> Forall (fun ev => ~ is_signal_to p ev) tr.
Proof.
  unfold never_signals_pid. rewrite forallb_forall. intros H p Hp.
  apply Forall_forall. intros ev Hin [-> | ->]; specialize (H _ Hin);
    simpl in H; rewrite Hp, Z.eqb_refl in H; discriminate.
Qed.

Lemma delays_In (n : nat) (d : Z) :
  0 <= d < Z.of_nat n -> In d (delays n).
Proof.
  intros Hd. unfold delays. apply in_map_iff. exists (Z.to_nat d).
  split; [lia|]. apply in_seq. lia.
Qed.

Lemma end_to_end_checked (name exe : option string) :
  forallb (end_to_end_check name exe) (delays 1001) = true.
Proof. vm_compute. reflexivity. Qed.

(** C8.  Pid 100 ('antigravity.exe') exits at most one second after SIGTERM,
    pid 101 ('antigravity', with the target in its path) ignores SIGTERM, pid
    200 is the controller, under any name and path.
    [close_antigravity(timeout=2, force_kill=True)] collects pids 100 and 101
    and not 200, sees pid 100 gone while polling so that pid 101 alone
    survives the timeout, kills pid 101 and nothing else, never signals pid
    200, and returns true; five rounds of polling are enough. *)
Theorem end_to_end_shutdown :
  forall (name exe : option string) (delay : Z) (fuel : nat),
    0 <= delay <= 1000 ->
    (5 <= fuel)%nat ->
    result (collect_targets Sim.os Scenario.cfg)
           (final (platform_quit Sim.os Scenario.cfg)
                  (Scenario.three delay name exe))
    = Ret [Scenario.p100; Scenario.p101] /\
    result (phase_one Sim.os Scenario.cfg fuel 2)
           (Scenario.three delay name exe)
    = Ret (Some (TimedOut (Some [Scenario.p101]))) /\
    In (EvIsRunning Scenario.p100 (Some false))
       (events (phase_one Sim.os Scenario.cfg fuel 2)
               (Scenario.three delay name exe)) /\
    result (close_antigravity Sim.os Scenario.cfg fuel 2 true)
           (Scenario.three delay name exe) = Ret true /\
    In (EvKill Scenario.p101)
       (events (close_antigravity Sim.os Scenario.cfg fuel 2 true)
               (Scenario.three delay name exe)) /\
    (forall q,
        In (EvKill q)
           (events (close_antigravity Sim.os Scenario.cfg fuel 2 true)
                   (Scenario.three delay name exe)) ->
        q = Scenario.p101) /\
    Forall (fun ev => ~ is_signal_to (Scenario.p200 name exe) ev)
           (events (close_antigravity Sim.os Scenario.cfg fuel 2 true)
                   (Scenario.three delay name exe)).
Proof.
  intros name exe delay fuel Hdelay Hfuel.
  pose proof (end_to_end_checked name exe) as Hall.
  rewrite forallb_forall in Hall.
  specialize (Hall delay (delays_In 1001 delay ltac:(lia))).
  unfold end_to_end_check in Hall. cbn zeta in Hall.
  set (w := Scenario.three delay name exe) in *.
  apply andb_true_iff in Hall. destruct Hall as [Hall Hself].
  apply andb_true_iff in Hall. destruct Hall as [Hall Hkilled].
  apply andb_true_iff in Hall. destruct Hall as [Hall Honly].
  apply andb_true_iff in Hall. destruct Hall as [Hall Hclose].
  apply andb_true_iff in Hall. destruct Hall as [Hall Hseen].
  apply andb_true_iff in Hall. destruct Hall as [Htargets Hpoll].
  unfold check_targets in Htargets.
  destruct (result (collect_targets Sim.os Scenario.cfg)
                   (final (platform_quit Sim.os Scenario.cfg) w))
    as [targets| |]; try discriminate.
  apply procs_eqb_eq in Htargets. subst targets.
  unfold check_survivors in Hpoll.
  destruct (result (phase_one Sim.os Scenario.cfg 5 2) w)
    as [[[|[survivors|]]|]| |] eqn:Epoll; try discriminate.
  apply procs_eqb_eq in Hpoll. subst survivors.
  unfold check_result in Hclose.
  destruct (result (close_antigravity Sim.os Scenario.cfg 5 2 true) w)
    as [[|]| |] eqn:Eclose; try discriminate.
  assert (Ep : phase_one Sim.os Scenario.cfg fuel 2 w
               = phase_one Sim.os Scenario.cfg 5 2 w).
  { apply phase_one_more_fuel; [exact Hfuel | rewrite Epoll; discriminate]. }
  assert (Ec : close_antigravity Sim.os Scenario.cfg fuel 2 true w
               = close_antigravity Sim.os Scenario.cfg 5 2 true w).
  { apply close_antigravity_more_fuel;
      [exact Hfuel | rewrite Eclose; discriminate]. }
  unfold result, events in *. rewrite Ep, Ec.
  split; [reflexivity|]. split; [exact Epoll|].
  split; [now apply seen_exited_spec|].
  split; [exact Eclose|].
  split; [now apply has_kill_spec|].
  split; [now apply kills_only_spec|].
  now apply (never_signals_pid_spec 200).
Qed.

(** The scenario with an exit 700 ms after SIGTERM and a controller that is
    itself named like the target. *)
Lemma end_to_end_shutdown_witness :
  result (close_antigravity Sim.os Scenario.cfg 5 2 true)
         (Scenario.three 700 (Some "antigravity.exe") None) = Ret true /\
  In (EvKill Scenario.p101)
     (events (close_antigravity Sim.os Scenario.cfg 5 2 true)
             (Scenario.three 700 (Some "antigravity.exe") None)) /\
  Forall (fun ev => ~ is_signal_to Scenario.self_named_target ev)
         (events (close_antigravity Sim.os Scenario.cfg 5 2 true)
                 (Scenario.three 700 (Some "antigravity.exe") None)).
Proof.
  assert (Hdelay : 0 <= 700 <= 1000) by lia.
  assert (Hfuel : (5 <= 5)%nat) by lia.
  pose proof (end_to_end_shutdown (Some "antigravity.exe") None 700 5%nat
                                  Hdelay Hfuel) as H.
  exact (conj (proj1 (proj2 (proj2 (proj2 H))))
              (conj (proj1 (proj2 (proj2 (proj2 (proj2 H)))))
                    (proj2 (proj2 (proj2 (proj2 (proj2 (proj2 H)))))))).
Defined.

(** ** Launching *)

Section Launch.

Context {W : Type}.
Variable os : OS W.
Variable cfg : Config.

Section SpawnTriple.

Variable P : event -> Prop.
Hypothesis no_attempt : forall ev, is_attempt ev = false -> P ev.

Ltac triple_step :=
  first
    [ apply triple_ret; exact I
    | apply triple_emit; [apply no_attempt; reflexivity | exact I]
    | apply triple_call; [intros; apply no_attempt; reflexivity | trivial]
    | eapply triple_bind with (Q := fun _ => True); [| intros ? _] ].

Lemma triple_spawn_target : triple (spawn_target os cfg) P (fun _ => True).
Proof.
  unfold spawn_target, info, warning, error, popen,
    get_antigravity_executable_path, path_exists.
  destruct (system cfg =? "Darwin")%string; [repeat triple_step|].
  destruct (system cfg =? "Windows")%string.
  - eapply triple_bind with (Q := fun _ => True); [triple_step|].
    intros [exe|] _; [| repeat triple_step].
    eapply triple_bind with (Q := fun _ => True); [triple_step|].
    intros [|] _; repeat triple_step.
  - destruct (system cfg =? "Linux")%string; repeat triple_step.
Qed.

Lemma triple_after_launch_log :
  triple (spawned <- spawn_target os cfg ;;
          if spawned then
            info "Antigravity launch command sent" [] ;; ret true
          else ret false)
         P (fun _ => True).
Proof.
  eapply triple_bind; [apply triple_spawn_target|].
  intros [|] _; unfold info; repeat triple_step.
Qed.

End SpawnTriple.

Lemma attempts_path_launch w :
  attempts (events (path_launch os cfg) w) = 1%nat.
Proof.
  unfold path_launch, info. rewrite events_emit_bind.
  unfold attempts. cbn [filter is_attempt List.length]. f_equal.
  match goal with
  | |- List.length (filter is_attempt ?tr) = _ =>
      assert (H : Forall (fun ev => is_attempt ev = false) tr)
  end.
  { eapply triple_events, triple_after_launch_log. trivial. }
  induction H as [|ev tr Hev _ IH]; [reflexivity|].
  cbn [filter]. now rewrite Hev.
Qed.

Lemma triple_path_launch :
  triple (path_launch os cfg) not_a_uri_open (fun _ => True).
Proof.
  unfold path_launch, info.
  eapply triple_bind with (Q := fun _ => True); [apply triple_emit; exact I|].
  intros _ _. apply triple_after_launch_log.
  intros [] H; try exact I; discriminate.
Qed.

Lemma total_spawn_target : total (spawn_target os cfg).
Proof.
  unfold spawn_target, info, warning, error, popen,
    get_antigravity_executable_path, path_exists.
  destruct (system cfg =? "Darwin")%string;
    [apply total_bind; [apply total_call | intros; apply total_ret]|].
  destruct (system cfg =? "Windows")%string.
  - apply total_bind; [apply total_call|].
    intros [exe|].
    + apply total_bind; [apply total_call|].
      intros [|].
      * apply total_bind; [apply total_call | intros; apply total_ret].
      * apply total_bind; [apply total_emit | intros _].
        apply total_bind; [apply total_emit | intros; apply total_ret].
    + apply total_bind; [apply total_emit | intros _].
      apply total_bind; [apply total_emit | intros; apply total_ret].
  - destruct (system cfg =? "Linux")%string;
      [apply total_bind; [apply total_call | intros; apply total_ret]
      | apply total_ret].
Qed.

Lemma total_path_launch : total (path_launch os cfg).
Proof.
  unfold path_launch, info.
  apply total_bind; [apply total_emit | intros _].
  apply total_bind; [apply total_spawn_target|].
  intros [|]; [| apply total_ret].
  apply total_bind; [apply total_emit | intros; apply total_ret].
Qed.

(** [start_antigravity(use_uri=False)] is one launch by executable path. *)
Lemma start_path_only fuel w :
  start_antigravity os cfg (S fuel) false w =
  (path_only_result (result (path_launch os cfg) w),
   final (path_launch os cfg) w,
   starting_log :: events (path_launch os cfg) w
   ++ path_only_log (result (path_launch os cfg) w))%list.
Proof.
  cbn [start_antigravity uri_launch].
  unfold bind at 1. unfold info at 1. unfold emit at 1.
  unfold try_except. unfold bind at 1. unfold ret at 1.
  unfold result, final, events.
  destruct (path_launch os cfg w) as [[[b|e|] w1] t1]; simpl.
  - now rewrite app_nil_r.
  - reflexivity.
  - now rewrite app_nil_r.
Qed.

Lemma start_path_only_returns fuel w :
  exists b, result (start_antigravity os cfg (S fuel) false) w = Ret b.
Proof.
  unfold result at 1. rewrite start_path_only. cbn [fst].
  pose proof (total_path_launch w) as Ht.
  destruct (result (path_launch os cfg) w) as [b|e|]; simpl;
    [now exists b | now exists false | congruence].
Qed.

(** [start_antigravity(use_uri=True)] when the URI open raises. *)
Lemma start_uri_raises fuel w e :
  fst (os_open_uri os oauth_uri w) = Throws e ->
  start_antigravity os cfg (S (S fuel)) true w =
  (result (start_antigravity os cfg (S fuel) false)
          (snd (os_open_uri os oauth_uri w)),
   final (start_antigravity os cfg (S fuel) false)
         (snd (os_open_uri os oauth_uri w)),
   [starting_log; uri_attempt_log; EvOpenUri oauth_uri; start_error e;
    uri_failed_log]
   ++ events (start_antigravity os cfg (S fuel) false)
             (snd (os_open_uri os oauth_uri w)))%list.
Proof.
  intros Hthrow.
  change (start_antigravity os cfg (S (S fuel)) true) with
    (info "Starting Antigravity..." [] ;;
     try_except
       (via_uri <- uri_launch os true ;;
        match via_uri with
        | Some b => ret b
        | None => path_launch os cfg
        end)
       (fun e =>
          error "Error starting process: {}" [AExn e] ;;
          if true then
            warning "URI launch failed, trying executable path..." [] ;;
            start_antigravity os cfg (S fuel) false
          else ret false)).
  unfold uri_launch, open_uri, call, info, warning, error, emit, bind,
    try_except, oauth_uri in *.
  destruct (os_open_uri os "antigravity://oauth-success" w) as [r w1].
  cbn [fst snd] in *. subst r. cbn [fst snd app].
  unfold result, final, events.
  destruct (start_antigravity os cfg (S fuel) false w1) as [[o w2] t2].
  reflexivity.
Qed.

(** [start_antigravity(use_uri=True)] when the URI open answers false. *)
Lemma start_uri_declined fuel w :
  fst (os_open_uri os oauth_uri w) = Ok false ->
  start_antigravity os cfg (S (S fuel)) true w =
  let w1 := snd (os_open_uri os oauth_uri w) in
  match path_launch os cfg w1 with
  | (Raise e, w2, t2) =>
      (result (start_antigravity os cfg (S fuel) false) w2,
       final (start_antigravity os cfg (S fuel) false) w2,
       [starting_log; uri_attempt_log; EvOpenUri oauth_uri; uri_failed_log]
       ++ t2 ++ [start_error e; uri_failed_log]
       ++ events (start_antigravity os cfg (S fuel) false) w2)%list
  | (o, w2, t2) =>
      (o, w2,
       [starting_log; uri_attempt_log; EvOpenUri oauth_uri; uri_failed_log]
       ++ t2)%list
  end.
Proof.
  intros Hdecl.
  change (start_antigravity os cfg (S (S fuel)) true) with
    (info "Starting Antigravity..." [] ;;
     try_except
       (via_uri <- uri_launch os true ;;
        match via_uri with
        | Some b => ret b
        | None => path_launch os cfg
        end)
       (fun e =>
          error "Error starting process: {}" [AExn e] ;;
          if true then
            warning "URI launch failed, trying executable path..." [] ;;
            start_antigravity os cfg (S fuel) false
          else ret false)).
  unfold uri_launch, open_uri, call, info, warning, error, emit, bind,
    try_except, oauth_uri in *.
  destruct (os_open_uri os "antigravity://oauth-success" w) as [r w1].
  cbn [fst snd] in *. subst r. unfold ret. cbn [fst snd app].
  unfold result, final, events.
  destruct (path_launch os cfg w1) as [[[b|e|] w2] t2]; try reflexivity.
  destruct (start_antigravity os cfg (S fuel) false w2) as [[o w3] t3].
  cbn [fst snd app]. reflexivity.
Qed.

Lemma start_returns fuel use_uri w :
  exists b, result (start_antigravity os cfg (S (S fuel)) use_uri) w = Ret b.
Proof.
  destruct use_uri; [| apply start_path_only_returns].
  destruct (os_open_uri os oauth_uri w) as [[[|]|e] w1] eqn:Huri.
  - exists true. unfold result.
    cbn [start_antigravity]. unfold uri_launch, open_uri, call, info, emit,
      bind, try_except, oauth_uri in *.
    now rewrite Huri.
  - unfold result at 1. rewrite start_uri_declined; [| now rewrite Huri].
    cbn zeta. rewrite Huri. cbn [snd].
    pose proof (total_path_launch w1) as Ht. unfold result in Ht.
    destruct (path_launch os cfg w1) as [[[b|e|] w2] t2]; cbn [fst snd] in *;
      [now exists b | apply start_path_only_returns | congruence].
  - unfold result at 1. rewrite (start_uri_raises fuel w e); [| now rewrite Huri].
    cbn [fst]. rewrite Huri. apply start_path_only_returns.
Qed.

End Launch.

Lemma attempts_app (a b : list event) :
  attempts (a ++ b) = (attempts a + attempts b)%nat.
Proof. unfold attempts. now rewrite filter_app, length_app. Qed.

Lemma attempts_path_only_log (o : outcome bool) :
  attempts (path_only_log o) = 0%nat.
Proof. now destruct o. Qed.

Lemma path_only_events {W} (os : OS W) (cfg : Config) fuel w :
  events (start_antigravity os cfg (S fuel) false) w
  = (starting_log :: events (path_launch os cfg) w
     ++ path_only_log (result (path_launch os cfg) w))%list.
Proof. unfold events at 1. now rewrite start_path_only. Qed.

Lemma path_only_outcome {W} (os : OS W) (cfg : Config) fuel w :
  result (start_antigravity os cfg (S fuel) false) w
  = path_only_result (result (path_launch os cfg) w).
Proof. unfold result at 1. now rewrite start_path_only. Qed.

(** C1, as the code has it.  With two levels of recursion available:
    - [start_antigravity(use_uri=False)] makes exactly one attempt, the launch
      by executable path, and never opens the URI; when that launch raises,
      the call returns false after logging the error;
    - when [start_antigravity(use_uri=True)] finds the URI open raising, it
      retries exactly once, with [use_uri=False]: one launch by executable
      path, whose outcome it returns (false when that raises too), two
      attempts in all;
    - when the URI open answers false and the launch by path then fails
      without raising (no executable found), there is no retry and the call
      returns false, two attempts in all;
    - in every case the call returns a boolean. *)
Theorem launch_retry_direction :
  forall (W : Type) (os : OS W) (cfg : Config) (fuel : nat) (w : W),
    (2 <= fuel)%nat ->
    (Forall not_a_uri_open (events (start_antigravity os cfg fuel false) w) /\
     attempts (events (start_antigravity os cfg fuel false) w) = 1%nat /\
     forall e,
       result (path_launch os cfg) w = Raise e ->
       result (start_antigravity os cfg fuel false) w = Ret false /\
       events (start_antigravity os cfg fuel false) w
       = (starting_log :: events (path_launch os cfg) w
          ++ [start_error e])%list) /\
    (forall e,
        fst (os_open_uri os oauth_uri w) = Throws e ->
        result (start_antigravity os cfg fuel true) w
        = path_only_result
            (result (path_launch os cfg) (snd (os_open_uri os oauth_uri w))) /\
        events (start_antigravity os cfg fuel true) w
        = ([starting_log; uri_attempt_log; EvOpenUri oauth_uri; start_error e;
            uri_failed_log; starting_log]
           ++ events (path_launch os cfg) (snd (os_open_uri os oauth_uri w))
           ++ path_only_log
                (result (path_launch os cfg)
                        (snd (os_open_uri os oauth_uri w))))%list /\
        attempts (events (start_antigravity os cfg fuel true) w) = 2%nat) /\
    (fst (os_open_uri os oauth_uri w) = Ok false ->
     result (path_launch os cfg) (snd (os_open_uri os oauth_uri w))
     = Ret false ->
     result (start_antigravity os cfg fuel true) w = Ret false /\
     events (start_antigravity os cfg fuel true) w
     = ([starting_log; uri_attempt_log; EvOpenUri oauth_uri; uri_failed_log]
        ++ events (path_launch os cfg) (snd (os_open_uri os oauth_uri w)))%list /\
     attempts (events (start_antigravity os cfg fuel true) w) = 2%nat) /\
    (forall use_uri,
        exists b, result (start_antigravity os cfg fuel use_uri) w = Ret b).
Proof.
  intros W os cfg fuel w Hfuel.
  destruct fuel as [|[|fuel]]; try lia. clear Hfuel.
  split; [|split; [|split]].
  - split; [|split].
    + rewrite path_only_events. constructor; [exact I|].
      apply Forall_app. split.
      * eapply triple_events, triple_path_launch.
      * destruct (result (path_launch os cfg) w); repeat constructor.
    + rewrite path_only_events.
      change (starting_log :: ?l) with ([starting_log] ++ l)%list.
      rewrite !attempts_app, attempts_path_launch, attempts_path_only_log.
      reflexivity.
    + intros e He. rewrite path_only_outcome, path_only_events, He.
      split; reflexivity.
  - intros e He.
    pose proof (start_uri_raises os cfg fuel w e He) as E.
    unfold result at 1, events at 1 3. rewrite E. cbn [fst snd].
    rewrite path_only_outcome, path_only_events.
    split; [reflexivity|]. split; [reflexivity|].
    change ([starting_log; uri_attempt_log; EvOpenUri oauth_uri; start_error e;
             uri_failed_log] ++ starting_log :: ?l)%list
      with ([starting_log; uri_attempt_log; EvOpenUri oauth_uri; start_error e;
             uri_failed_log; starting_log] ++ l)%list.
    rewrite !attempts_app, attempts_path_launch, attempts_path_only_log.
    reflexivity.
  - intros Hdecl Hpath.
    pose proof (start_uri_declined os cfg fuel w Hdecl) as E.
    cbn zeta in E. unfold result at 1, events at 1 3. rewrite E.
    rewrite (run_eta (path_launch os cfg) _), Hpath. cbn [fst snd].
    split; [reflexivity|]. split; [reflexivity|].
    rewrite attempts_app, attempts_path_launch. reflexivity.
  - intros use_uri. apply start_returns.
Qed.

(** On Linux: the spawn raises under [use_uri=False]; the URI open raises
    under [use_uri=True] and the spawn then works. *)
Lemma launch_retry_direction_witness :
  result (start_antigravity Sim.os Scenario.cfg_linux 2 false)
         Scenario.spawn_fails = Ret false /\
  attempts (events (start_antigravity Sim.os Scenario.cfg_linux 2 false)
                   Scenario.spawn_fails) = 1%nat /\
  result (start_antigravity Sim.os Scenario.cfg_linux 2 true)
         Scenario.uri_raises = Ret true /\
  attempts (events (start_antigravity Sim.os Scenario.cfg_linux 2 true)
                   Scenario.uri_raises) = 2%nat.
Proof.
  assert (Hfuel : (2 <= 2)%nat) by lia.
  pose proof (launch_retry_direction _ Sim.os Scenario.cfg_linux 2%nat
                                     Scenario.spawn_fails Hfuel)
    as [[_ [Hone Hraise]] _].
  pose proof (launch_retry_direction _ Sim.os Scenario.cfg_linux 2%nat
                                     Scenario.uri_raises Hfuel)
    as [_ [Huri _]].
  split; [exact (proj1 (Hraise (OtherException "FileNotFoundError") eq_refl))|].
  split; [exact Hone|].
  destruct (Huri (OtherException "OSError") eq_refl) as [Hres [_ Htwo]].
  split; [exact Hres | exact Htwo].
Defined.

(** C1 as stated fails.  Under [use_uri=False], with a spawn that raises
    and a URI handler that would have accepted the link, the call returns
    false without ever opening the URI, after a single attempt.  Under
    [use_uri=True], with a URI open that answers false and a spawn that
    raises, the launch by path is tried a second time: three attempts. *)
Lemma start_by_path_never_retries_by_uri :
  (result (path_launch Sim.os Scenario.cfg_linux) Scenario.spawn_fails
   = Raise (OtherException "FileNotFoundError") /\
   fst (os_open_uri Sim.os oauth_uri Scenario.spawn_fails) = Ok true /\
   result (start_antigravity Sim.os Scenario.cfg_linux 2 false)
          Scenario.spawn_fails = Ret false /\
   ~ In (EvOpenUri oauth_uri)
        (events (start_antigravity Sim.os Scenario.cfg_linux 2 false)
                Scenario.spawn_fails)) /\
  (fst (os_open_uri Sim.os oauth_uri Scenario.nothing_works) = Ok false /\
   result (path_launch Sim.os Scenario.cfg_linux) Scenario.nothing_works
   = Raise (OtherException "FileNotFoundError") /\
   attempts (events (start_antigravity Sim.os Scenario.cfg_linux 2 true)
                    Scenario.nothing_works) = 3%nat).
Proof.
  split; [split; [|split; [|split]] | split; [|split]];
    try (vm_compute; reflexivity).
  vm_compute. intuition discriminate.
Qed.

(** ** Phase ordering *)

Section PhaseOrdering.

Context {W : Type}.
Variable os : OS W.
Variable cfg : Config.

(** One step of the collecting loops of lines 176-181 and 206-211. *)
Lemma query_step p acc w :
  try_except_psutil
    (alive <- is_running os p ;;
     ret (if alive then (acc ++ [p])%list else acc))
    (ret acc) w
  = (match fst (os_is_running os p w) with
     | Ok true => Ret (acc ++ [p])%list
     | Ok false | Throws NoSuchProcess | Throws AccessDenied => Ret acc
     | Throws e => Raise e
     end,
     snd (os_is_running os p w),
     [EvIsRunning p (observed (fst (os_is_running os p w)))]).
Proof.
  unfold try_except_psutil, try_except, bind, is_running, call, ret, raise.
  destruct (os_is_running os p w) as [[[|]|[]] w1]; reflexivity.
Qed.

Lemma collect_running_trace targets : forall acc w o w' tr,
  collect_running os targets acc w = (o, w', tr) ->
  Forall is_liveness_query tr /\
  forall r, o = Ret r ->
            exists r', r = (acc ++ r')%list /\
                       forall p, In p r' -> In (EvIsRunning p (Some true)) tr.
Proof.
  induction targets as [|q rest IH]; intros acc w o w' tr H.
  - inversion H; subst. split; [constructor|].
    intros r E. inversion E; subst. exists []. now rewrite app_nil_r.
  - cbn [collect_running] in H.
    destruct (bind_inv _ _ _ _ _ _ H)
      as [(acc' & w1 & t1 & t2 & H1 & H2 & ->) | [(e & H1 & ->) | (H1 & ->)]];
      rewrite query_step in H1; inversion H1; subst; clear H1.
    + destruct (IH _ _ _ _ _ H2) as [Hq Hr]. split.
      * constructor; [exact I | exact Hq].
      * intros r E. destruct (Hr r E) as (r' & -> & Hin).
        destruct (fst (os_is_running os q w)) as [[|]|[]]; try discriminate;
          match goal with Hacc : Ret _ = Ret acc' |- _ =>
            inversion Hacc; subst; clear Hacc end.
        -- exists (q :: r'). rewrite <- app_assoc. split; [reflexivity|].
           intros p [<- | Hp]; [now left | right; now apply Hin].
        -- exists r'. split; [reflexivity|]. intros p Hp. right. now apply Hin.
        -- exists r'. split; [reflexivity|]. intros p Hp. right. now apply Hin.
        -- exists r'. split; [reflexivity|]. intros p Hp. right. now apply Hin.
    + split; [constructor; [exact I | constructor] | intros; congruence].
    + split; [constructor; [exact I | constructor] | intros; congruence].
Qed.

(** One step of the killing loop of lines 196-201. *)
Lemma kill_step_trace p w o w' tr :
  try_except_psutil
    (alive <- is_running os p ;; if alive then kill os p else ret tt)
    (ret tt) w = (o, w', tr) ->
  forall q, In (EvKill q) tr -> q = p /\ In (EvIsRunning p (Some true)) tr.
Proof.
  unfold try_except_psutil, try_except, bind, is_running, kill, call, ret,
    raise.
  destruct (os_is_running os p w) as [[[|]|[]] w1]; cbn [observed].
  1: destruct (os_kill os p w1) as [[[]|[]] w2].
  all: intros H; inversion H; subst; clear H.
  all: intros q Hq; simpl in Hq.
  all: repeat (destruct Hq as [Hq | Hq]; try discriminate); try contradiction.
  all: inversion Hq; subst; split; [reflexivity | now left].
Qed.

Lemma kill_all_trace running : forall w o w' tr,
  kill_all os running w = (o, w', tr) ->
  forall q, In (EvKill q) tr ->
            In q running /\ In (EvIsRunning q (Some true)) tr.
Proof.
  induction running as [|p rest IH]; intros w o w' tr H q Hq.
  - inversion H; subst. contradiction.
  - cbn [kill_all] in H.
    destruct (bind_inv _ _ _ _ _ _ H)
      as [(a & w1 & t1 & t2 & H1 & H2 & ->) | [(e & H1 & ->) | (H1 & ->)]].
    + apply in_app_or in Hq. destruct Hq as [Hq | Hq].
      * destruct (kill_step_trace _ _ _ _ _ H1 q Hq) as [-> Hin].
        split; [now left | apply in_or_app; now left].
      * destruct (IH _ _ _ _ H2 q Hq) as [Hin1 Hin2].
        split; [now right | apply in_or_app; now right].
    + destruct (kill_step_trace _ _ _ _ _ H1 q Hq) as [-> Hin].
      split; [now left | exact Hin].
    + destruct (kill_step_trace _ _ _ _ _ H1 q Hq) as [-> Hin].
      split; [now left | exact Hin].
Qed.

(** The trace of a polling loop that is left by timeout with survivors:
    either no round was run and the survivors are the ones it started with,
    or the last round saw each of them running. *)
Lemma poll_loop_trace start_time timeout targets fuel :
  forall sr0 w sr w' tr,
    poll_loop os fuel start_time timeout targets sr0 w
    = (Ret (TimedOut (Some sr)), w', tr) ->
    (sr0 = Some sr /\
     exists t, tr = [EvTime t] /\ timeout * 1000 <= t - start_time) \/
    (exists mid t_last round t_end,
        tr = (mid ++ EvTime t_last :: round
              ++ [EvSleep 500; EvTime t_end])%list /\
        t_last - start_time < timeout * 1000 <= t_end - start_time /\
        Forall is_liveness_query round /\
        forall p, In p sr -> In (EvIsRunning p (Some true)) round).
Proof.
  induction fuel as [|fuel IH]; intros sr0 w sr w' tr H;
    [discriminate|].
  cbn [poll_loop] in H. unfold bind at 1, time_time at 1 in H.
  destruct (os_time os w) as [now w1].
  destruct (now - start_time <? timeout * 1000) eqn:Hlt.
  - apply Z.ltb_lt in Hlt.
    destruct (bind (collect_running os targets []) _ w1)
      as [[o2 w2] t2] eqn:Hround.
    inversion H; subst; clear H.
    destruct (bind_inv _ _ _ _ _ _ Hround)
      as [(running & w3 & round & t3 & H1 & H2 & ->)
         | [(e & _ & ?) | (_ & ?)]]; try discriminate.
    destruct (collect_running_trace _ _ _ _ _ _ H1) as [Hq Hr].
    destruct (Hr running eq_refl) as (r' & Er & Hseen). simpl in Er. subst r'.
    destruct running as [|q running].
    { unfold bind, info, emit, ret in H2. inversion H2. }
    unfold bind at 1, time_sleep at 1, call at 1 in H2.
    destruct (os_sleep os 500 w3) as [[[]|e] w4]; [| discriminate].
    destruct (poll_loop os fuel start_time timeout targets
                        (Some (q :: running)) w4)
      as [[o5 w5] t5] eqn:Hrec.
    inversion H2; subst; clear H2.
    right.
    destruct (IH _ _ _ _ _ Hrec)
      as [(Esr & t & -> & Hend)
         | (mid & t_last & round' & t_end & -> & Htimes & Hq' & Hseen')].
    + inversion Esr; subst.
      exists [], now, round, t. cbn [app].
      repeat split; try assumption; lia.
    + exists (EvTime now :: round ++ EvSleep 500 :: mid)%list,
             t_last, round', t_end.
      cbn [app]. rewrite <- !app_assoc. cbn [app].
      repeat split; try assumption; lia.
  - inversion H; subst. left. split; [reflexivity|].
    exists now. split; [reflexivity|]. apply Z.ltb_ge in Hlt. lia.
Qed.

End PhaseOrdering.

Lemma bind_emit_inv {W B} (ev : event) (k : unit -> M W B) w o w' tr :
  bind (emit ev) k w = (o, w', tr) ->
  exists t, k tt w = (o, w', t) /\ tr = ev :: t.
Proof.
  unfold bind, emit. destruct (k tt w) as [[o2 w2] t2].
  intros H. inversion H; subst. now exists t2.
Qed.

Lemma bind_ret_inv {W A B} (m : M W A) (k : A -> M W B) w b w' tr :
  bind m k w = (Ret b, w', tr) ->
  exists a w1 t1 t2,
    m w = (Ret a, w1, t1) /\ k a w1 = (Ret b, w', t2) /\ tr = (t1 ++ t2)%list.
Proof.
  intros H.
  destruct (bind_inv _ _ _ _ _ _ H)
    as [(a & w1 & t1 & t2 & H1 & H2 & ->) | [(e & _ & ?) | (_ & ?)]];
    try discriminate.
  now exists a, w1, t1, t2.
Qed.

Section PhaseOrderingRuns.

Context {W : Type}.
Variable os : OS W.
Variable cfg : Config.

Lemma bind_time_inv {B} (k : Z -> M W B) w o w' tr :
  bind (time_time os) k w = (o, w', tr) ->
  exists t,
    k (fst (os_time os w)) (snd (os_time os w)) = (o, w', t) /\
    tr = EvTime (fst (os_time os w)) :: t.
Proof.
  unfold bind, time_time. destruct (os_time os w) as [now w1]. cbn [fst snd].
  destruct (k now w1) as [[o2 w2] t2].
  intros H. inversion H; subst. now exists t2.
Qed.

Lemma graceful_phase_trace fuel timeout targets w sr w' tr :
  graceful_phase os fuel timeout targets w
  = (Ret (TimedOut (Some sr)), w', tr) ->
  exists pre t_start mid t_last round t_end,
    tr = (pre ++ EvTime t_start :: mid ++ EvTime t_last :: round
          ++ [EvSleep 500; EvTime t_end])%list /\
    Forall not_a_clock_reading pre /\
    t_last - t_start < timeout * 1000 <= t_end - t_start /\
    Forall is_liveness_query round /\
    forall p, In p sr -> In (EvIsRunning p (Some true)) round.
Proof.
  unfold graceful_phase, info. intros H.
  apply bind_emit_inv in H. destruct H as (t1 & H & ->).
  apply bind_emit_inv in H. destruct H as (t2 & H & ->).
  apply bind_ret_inv in H.
  destruct H as ([] & w1 & term & t3 & Hterm & H & ->).
  apply bind_emit_inv in H. destruct H as (t4 & H & ->).
  apply bind_time_inv in H. destruct H as (t5 & H & ->).
  destruct (poll_loop_trace _ _ _ _ _ _ _ _ _ _ H)
    as [(Esr & _) | (mid & t_last & round & t_end & -> & Htimes & Hq & Hseen)];
    [discriminate|].
  exists ([EvLog Info "Detected {} process(es) still running"
                 [AInt (Z.of_nat (List.length targets))];
           EvLog Info "Sending termination signal (SIGTERM)..." []]
          ++ term ++ [waiting_log timeout])%list,
         (fst (os_time os w1)), mid, t_last, round, t_end.
  split; [cbn [app]; rewrite <- app_assoc; reflexivity|].
  split; [| auto].
  apply Forall_app. split; [repeat constructor|].
  apply Forall_app. split; [| repeat constructor].
  refine (proj1 (triple_terminate_all os not_a_clock_reading
                   (fun _ _ quiet => quiet) targets _ _ _ _ _ Hterm)).
  intros; exact I.
Qed.

Lemma phase_one_trace fuel timeout w sr w' tr :
  phase_one os cfg fuel timeout w
  = (Ret (Some (TimedOut (Some sr))), w', tr) ->
  exists pre t_start mid t_last round t_end,
    tr = (pre ++ EvTime t_start :: mid ++ EvTime t_last :: round
          ++ [EvSleep 500; EvTime t_end])%list /\
    Forall not_a_clock_reading pre /\
    t_last - t_start < timeout * 1000 <= t_end - t_start /\
    Forall is_liveness_query round /\
    forall p, In p sr -> In (EvIsRunning p (Some true)) round.
Proof.
  unfold phase_one. intros H.
  apply bind_ret_inv in H.
  destruct H as ([] & w0 & t0 & t0' & Hquit & H & ->).
  apply bind_ret_inv in H.
  destruct H as (targets & w1 & t1 & t1' & Hscan & H & ->).
  destruct targets as [|q targets]; [discriminate|].
  apply bind_ret_inv in H.
  destruct H as (exit & w2 & t2 & t2' & Hgrace & H & ->).
  inversion H; subst; clear H.
  destruct (graceful_phase_trace _ _ _ _ _ _ _ Hgrace)
    as (pre & t_start & mid & t_last & round & t_end
        & -> & Hpre & Htimes & Hq & Hseen).
  exists (t0 ++ t1 ++ pre)%list, t_start, mid, t_last, round, t_end.
  split; [now rewrite app_nil_r, <- !app_assoc|].
  split; [| auto].
  apply Forall_app. split.
  { exact (proj1 (triple_platform_quit os cfg not_a_clock_reading
                    (fun _ _ quiet => quiet) _ _ _ _ Hquit)). }
  apply Forall_app. split; [| exact Hpre].
  exact (proj1 (triple_collect_targets os cfg not_a_clock_reading
                  (fun _ _ quiet => quiet) _ _ _ _ Hscan)).
Qed.

Lemma triple_phase_one_quiet fuel timeout :
  triple (phase_one os cfg fuel timeout) not_a_kill (fun _ => True).
Proof.
  unfold phase_one.
  eapply triple_bind;
    [apply triple_platform_quit, not_a_kill_benign | intros _ _].
  eapply triple_bind;
    [apply triple_collect_targets, not_a_kill_benign | intros targets _].
  destruct targets as [|q targets]; [apply triple_ret; exact I|].
  eapply triple_bind with (Q := fun _ => True);
    [| intros; apply triple_ret; exact I].
  eapply triple_post.
  - apply triple_graceful_phase.
    + apply not_a_kill_benign.
    + intros; exact I.
    + intros; exact I.
  - trivial.
Qed.

(** What the forced phase does: it never reads the clock, and each [kill]
    goes to a survivor of the polling that has just answered that it still
    runs. *)
Lemma force_phase_trace force_kill sr w :
  Forall not_a_clock_reading
         (events (force_phase os force_kill (Some sr)) w) /\
  forall p,
    In (EvKill p) (events (force_phase os force_kill (Some sr)) w) ->
    In p sr /\
    In (EvIsRunning p (Some true))
       (events (force_phase os force_kill (Some sr)) w).
Proof.
  split.
  { eapply triple_events, triple_force_phase.
    - apply (fun _ _ quiet => quiet).
    - intros; exact I. }
  intros p. unfold force_phase.
  destruct sr as [|q running]; [intros []|].
  unfold warning. rewrite events_emit_bind.
  destruct force_kill.
  - unfold info. rewrite events_emit_bind.
    set (tail := events (kill_all os (q :: running) ;;
                         final_check_phase os (q :: running)) w).
    intros [Hin | [Hin | Hin]]; try discriminate.
    subst tail. rewrite events_bind in *.
    assert (Hkill : In (EvKill p) (events (kill_all os (q :: running)) w)).
    { destruct (result (kill_all os (q :: running)) w); try exact Hin.
      apply in_app_or in Hin. destruct Hin as [Hin | Hin]; [exact Hin|].
      exfalso.
      assert (Hq : Forall not_a_kill
                     (events (final_check_phase os (q :: running))
                             (final (kill_all os (q :: running)) w))).
      { eapply triple_events, triple_final_check_phase.
        apply not_a_kill_benign. }
      rewrite Forall_forall in Hq. exact (Hq _ Hin). }
    destruct (kill_all_trace os (q :: running) w _ _ _
                (run_eta (kill_all os (q :: running)) w) p Hkill)
      as [Hsr Hseen].
    split; [exact Hsr|]. right. right.
    destruct (result (kill_all os (q :: running)) w); try exact Hseen.
    apply in_or_app. now left.
  - unfold error. rewrite events_emit_bind.
    intros [Hin | [Hin | []]]; discriminate.
Qed.

End PhaseOrderingRuns.

Lemma close_antigravity_events {W} (os : OS W) cfg fuel timeout force_kill w :
  events (close_antigravity os cfg fuel timeout force_kill) w
  = (prologue cfg ++ events (close_body os cfg fuel timeout force_kill) w
     ++ handler_log (result (close_body os cfg fuel timeout force_kill) w))%list.
Proof.
  unfold events at 1. rewrite close_antigravity_eq. cbn zeta.
  destruct (result (close_body os cfg fuel timeout force_kill) w);
    cbn [snd handler_log]; now rewrite ?app_nil_r.
Qed.

Lemma prologue_quiet cfg :
  Forall (fun ev => not_a_kill ev /\ not_a_clock_reading ev) (prologue cfg).
Proof.
  unfold prologue. destruct (PyStr.mem _ _); repeat constructor.
Qed.

Lemma handler_log_quiet o :
  Forall (fun ev => not_a_kill ev /\ not_a_clock_reading ev) (handler_log o).
Proof. destruct o; repeat constructor. Qed.

Lemma Forall_and_l {A} (P Q : A -> Prop) l :
  Forall (fun a => P a /\ Q a) l -> Forall P l.
Proof. apply Forall_impl. tauto. Qed.

Lemma Forall_and_r {A} (P Q : A -> Prop) l :
  Forall (fun a => P a /\ Q a) l -> Forall Q l.
Proof. apply Forall_impl. tauto. Qed.

Lemma not_a_kill_In (p : Proc) (tr : list event) :
  Forall not_a_kill tr -> ~ In (EvKill p) tr.
Proof. rewrite Forall_forall. intros H Hin. exact (H _ Hin). Qed.

Lemma not_a_clock_reading_In (t : Z) (tr : list event) :
  Forall not_a_clock_reading tr -> ~ In (EvTime t) tr.
Proof. rewrite Forall_forall. intros H Hin. exact (H _ Hin). Qed.

(** Every [kill] of a run comes after a polling loop left by timeout, goes
    to a handle that the loop's last round saw running, and follows a fresh
    answer that the handle still runs. *)
Lemma kill_after_timeout {W} (os : OS W) cfg fuel timeout force_kill w p :
  In (EvKill p) (events (close_antigravity os cfg fuel timeout force_kill) w) ->
  exists round post,
    timed_out_after timeout
      (events (close_antigravity os cfg fuel timeout force_kill) w)
      round post /\
    In (EvIsRunning p (Some true)) round /\
    In (EvKill p) post /\
    In (EvIsRunning p (Some true)) post.
Proof.
  rewrite close_antigravity_events.
  set (body := close_body os cfg fuel timeout force_kill).
  assert (Ebody : events body w
                  = events (bind (phase_one os cfg fuel timeout)
                                 (after_phase_one os force_kill)) w).
  { unfold events, body. now rewrite close_body_phase_one. }
  rewrite Ebody, events_bind. clear Ebody.
  pose proof (triple_events _ _ _ w (triple_phase_one_quiet os cfg fuel timeout))
    as Hquiet.
  pose proof (phase_one_trace os cfg fuel timeout w) as Htrace.
  rewrite (run_eta (phase_one os cfg fuel timeout) w) in Htrace.
  set (w1 := final (phase_one os cfg fuel timeout) w) in *.
  set (one := events (phase_one os cfg fuel timeout) w) in *.
  set (log := handler_log (result body w)).
  intros Hin.
  apply in_app_or in Hin. destruct Hin as [Hin | Hin].
  { elim (not_a_kill_In p _ (Forall_and_l _ _ _ (prologue_quiet cfg)) Hin). }
  apply in_app_or in Hin. destruct Hin as [Hin | Hin].
  2:{ elim (not_a_kill_In p _ (Forall_and_l _ _ _ (handler_log_quiet _)) Hin). }
  destruct (result (phase_one os cfg fuel timeout) w)
    as [[[|[sr|]]|]| |] eqn:Hone;
    try (elim (not_a_kill_In p _ Hquiet Hin)).
  all: apply in_app_or in Hin; destruct Hin as [Hin | Hin];
    try (elim (not_a_kill_In p _ Hquiet Hin));
    try (now repeat destruct Hin as [Hin | Hin]).
  cbn [after_phase_one] in *.
  destruct (force_phase_trace os force_kill sr w1) as [Hclock Hkills].
  destruct (Hkills p Hin) as [Hsr Hfresh].
  destruct (Htrace sr w1 one eq_refl)
    as (pre & t_start & mid & t_last & round & t_end
        & Eone & Hpre & Htimes & Hq & Hseen).
  exists round, (events (force_phase os force_kill (Some sr)) w1 ++ log)%list.
  split; [| split; [now apply Hseen | split; apply in_or_app; now left]].
  exists (prologue cfg ++ pre)%list, t_start, mid, t_last, t_end.
  rewrite Eone in Hquiet |- *.
  split.
  { rewrite <- !app_assoc. cbn [app]. rewrite <- !app_assoc. cbn [app].
    rewrite <- !app_assoc. reflexivity. }
  split.
  { apply Forall_app. split;
      [exact (Forall_and_r _ _ _ (prologue_quiet cfg)) | exact Hpre]. }
  split; [exact Htimes|]. split; [exact Hq|]. split.
  - rewrite <- app_assoc. apply Forall_app. split;
      [exact (Forall_and_l _ _ _ (prologue_quiet cfg))|].
    apply Forall_app in Hquiet. destruct Hquiet as [Hq1 Hq2].
    apply Forall_app. split; [exact Hq1|].
    inversion Hq2 as [|? ? Hs Hq3]; subst. constructor; [exact Hs|].
    apply Forall_app in Hq3. destruct Hq3 as [Hq3 Hq4].
    apply Forall_app. split; [exact Hq3|].
    inversion Hq4 as [|? ? Hl Hq5]; subst. constructor; [exact Hl|].
    apply Forall_app in Hq5. now destruct Hq5.
  - apply Forall_app. split;
      [exact Hclock | exact (Forall_and_r _ _ _ (handler_log_quiet _))].
Qed.

(** C4.  In every run of [close_antigravity], a handle that receives
    [proc.kill] was reported running by the last polling round, a round that
    began within the timeout and after which the clock showed the timeout
    elapsed; no [kill] comes before that point, and after it the handle
    answered once more that it runs.  And when the liveness of a
    handle is sticky, as it is for a psutil handle (once reported not
    running, never reported running again), a handle reported not running
    while the loop was still polling never receives [kill]. *)
Theorem phase_ordering :
  forall (W : Type) (os : OS W) (cfg : Config) (fuel : nat) (timeout : Z)
         (force_kill : bool) (w : W) (p : Proc),
    (In (EvKill p)
        (events (close_antigravity os cfg fuel timeout force_kill) w) ->
     exists round post,
       timed_out_after timeout
         (events (close_antigravity os cfg fuel timeout force_kill) w)
         round post /\
       In (EvIsRunning p (Some true)) round /\
       In (EvKill p) post /\
       In (EvIsRunning p (Some true)) post) /\
    (sticky p (events (close_antigravity os cfg fuel timeout force_kill) w) ->
     polled_not_running
       p (events (close_antigravity os cfg fuel timeout force_kill) w) ->
     ~ In (EvKill p)
          (events (close_antigravity os cfg fuel timeout force_kill) w)).
Proof.
  intros W os cfg fuel timeout force_kill w p. split.
  - intros Hin.
    destruct (kill_after_timeout os cfg fuel timeout force_kill w p Hin)
      as (round & post & Hshape & Hround & Hpost & Hfresh).
    now exists round, post.
  - intros Hsticky (a & b & t & Etr & Hclock) Hin.
    destruct (kill_after_timeout os cfg fuel timeout force_kill w p Hin)
      as (round & post & Hshape & _ & _ & Hfresh).
    destruct Hshape as (pre & t_start & mid & t_last & t_end
                        & Eshape & _ & _ & _ & _ & Hquiet).
    specialize (Hsticky a b Etr).
    rewrite Etr in Eshape.
    replace (pre ++ EvTime t_start :: mid ++ EvTime t_last :: round
             ++ EvSleep 500 :: EvTime t_end :: post)%list
      with ((pre ++ EvTime t_start :: mid ++ EvTime t_last :: round
             ++ [EvSleep 500; EvTime t_end]) ++ post)%list in Eshape.
    2:{ rewrite <- !app_assoc. cbn [app]. rewrite <- !app_assoc. cbn [app].
        rewrite <- !app_assoc. reflexivity. }
    apply app_eq_app in Eshape.
    destruct Eshape as (l & [[_ Epost] | [_ Etail]]).
    + apply (not_a_clock_reading_In t post Hquiet).
      rewrite Epost. apply in_or_app. right. now right.
    + destruct l as [|x l]; cbn [app] in Etail.
      * apply (not_a_clock_reading_In t post Hquiet).
        rewrite <- Etail. now right.
      * inversion Etail; subst. apply Hsticky. apply in_or_app. now right.
Qed.

Lemma reports_self (p : Proc) (r : bool) :
  reports p r (EvIsRunning p (Some r)) = true.
Proof. unfold reports. now rewrite proc_eqb_refl, Bool.eqb_reflx. Qed.

Lemma stickyb_sound (p : Proc) (tr : list event) :
  stickyb p tr = true -> sticky p tr.
Proof.
  intros H a. revert tr H.
  induction a as [|x a IH]; intros tr H b E Hin; subst tr;
    cbn [app stickyb] in H; apply andb_true_iff in H; destruct H as [H1 H2].
  - rewrite reports_self in H1. cbn [negb orb] in H1.
    apply negb_true_iff in H1.
    assert (Hex : existsb (reports p true) b = true).
    { apply existsb_exists. eexists. split; [exact Hin | apply reports_self]. }
    congruence.
  - exact (IH _ H2 b eq_refl Hin).
Qed.

Lemma polledb_sound (p : Proc) (tr : list event) :
  polledb p tr = true -> polled_not_running p tr.
Proof.
  induction tr as [|ev tr IH]; [discriminate|].
  cbn [polledb]. intros H. apply orb_true_iff in H. destruct H as [H | H].
  - apply andb_true_iff in H. destruct H as [Hev Hclock].
    apply existsb_exists in Hclock. destruct Hclock as (c & Hin & Hc).
    destruct c as [| | |t| | | | | | | |]; try discriminate.
    destruct ev as [| | | | |q [r|]| | | | | |]; try discriminate.
    unfold reports in Hev. apply andb_true_iff in Hev.
    destruct Hev as [Hq Hr]. apply proc_eqb_eq in Hq. subst q.
    destruct r; [discriminate|].
    now exists [], tr, t.
  - destruct (IH H) as (a & b & t & -> & Hin).
    now exists (ev :: a), b, t.
Qed.

(** In the three-process scenario pid 101 is killed after the timeout, and
    pid 100, seen gone while polling, is not. *)
Lemma phase_ordering_witness :
  (exists round post,
      timed_out_after 2
        (events (close_antigravity Sim.os Scenario.cfg 5 2 true)
                (Scenario.three 700 None None))
        round post /\
      In (EvIsRunning Scenario.p101 (Some true)) round /\
      In (EvKill Scenario.p101) post /\
      In (EvIsRunning Scenario.p101 (Some true)) post) /\
  sticky Scenario.p100
         (events (close_antigravity Sim.os Scenario.cfg 5 2 true)
                 (Scenario.three 700 None None)) /\
  polled_not_running
    Scenario.p100
    (events (close_antigravity Sim.os Scenario.cfg 5 2 true)
            (Scenario.three 700 None None)) /\
  ~ In (EvKill Scenario.p100)
       (events (close_antigravity Sim.os Scenario.cfg 5 2 true)
               (Scenario.three 700 None None)).
Proof.
  assert (Hkill : In (EvKill Scenario.p101)
                     (events (close_antigravity Sim.os Scenario.cfg 5 2 true)
                             (Scenario.three 700 None None))).
  { apply has_kill_spec. vm_compute. reflexivity. }
  assert (Hsticky : sticky Scenario.p100
                      (events (close_antigravity Sim.os Scenario.cfg 5 2 true)
                              (Scenario.three 700 None None))).
  { apply stickyb_sound. vm_compute. reflexivity. }
  assert (Hpolled : polled_not_running
                      Scenario.p100
                      (events (close_antigravity Sim.os Scenario.cfg 5 2 true)
                              (Scenario.three 700 None None))).
  { apply polledb_sound. vm_compute. reflexivity. }
  split; [| split; [exact Hsticky | split; [exact Hpolled|]]].
  - exact (proj1 (phase_ordering _ Sim.os Scenario.cfg 5%nat 2 true
                                 (Scenario.three 700 None None)
                                 Scenario.p101) Hkill).
  - exact (proj2 (phase_ordering _ Sim.os Scenario.cfg 5%nat 2 true
                                 (Scenario.three 700 None None)
                                 Scenario.p100) Hsticky Hpolled).
Defined.

(** * Further properties of the controller *)

(** ** Trace properties kept by concatenation *)

Lemma events_try_except {W A} (m : M W A) (h : exn -> M W A) w :
  events (try_except m h) w =
  match result m w with
  | Raise e => (events m w ++ events (h e) (final m w))%list
  | _ => events m w
  end.
Proof.
  unfold events, result, final, try_except.
  destruct (m w) as [[[a|e|] w1] t1]; try reflexivity.
  cbn [fst snd]. now destruct (h e w1) as [[o w2] t2].
Qed.

Lemma result_try_except {W A} (m : M W A) (h : exn -> M W A) w :
  result (try_except m h) w =
  match result m w with
  | Raise e => result (h e) (final m w)
  | o => o
  end.
Proof.
  unfold result, final, try_except.
  destruct (m w) as [[[a|e|] w1] t1]; try reflexivity.
  cbn [fst snd]. now destruct (h e w1) as [[o w2] t2].
Qed.

Section Always.

Context {W : Type}.
Variable TP : list event -> Prop.
Hypothesis TP_nil : TP [].
Hypothesis TP_app : forall a b, TP a -> TP b -> TP (a ++ b)%list.

Lemma always_ret {A} (a : A) : always (W := W) TP (ret a).
Proof. intros w. exact TP_nil. Qed.

Lemma always_raise {A} (e : exn) : always (W := W) (A := A) TP (raise e).
Proof. intros w. exact TP_nil. Qed.

Lemma always_out_of_fuel {A} : always (W := W) (A := A) TP out_of_fuel.
Proof. intros w. exact TP_nil. Qed.

Lemma always_emit (ev : event) : TP [ev] -> always (W := W) TP (emit ev).
Proof. intros H w. exact H. Qed.

Lemma always_call {A} (f : W -> answer A * W) (ev : answer A -> event) :
  (forall r, TP [ev r]) -> always TP (call f ev).
Proof.
  intros H w. unfold events, call. destruct (f w) as [r w']. apply H.
Qed.

Lemma always_bind {A B} (m : M W A) (k : A -> M W B) :
  always TP m -> (forall a, always TP (k a)) -> always TP (bind m k).
Proof.
  intros Hm Hk w. rewrite events_bind.
  destruct (result m w); try apply Hm.
  apply TP_app; [apply Hm | apply Hk].
Qed.

Lemma always_try_except {A} (m : M W A) (h : exn -> M W A) :
  always TP m -> (forall e, always TP (h e)) -> always TP (try_except m h).
Proof.
  intros Hm Hh w. rewrite events_try_except.
  destruct (result m w); try apply Hm.
  apply TP_app; [apply Hm | apply Hh].
Qed.

Lemma always_try_except_psutil {A} (m h : M W A) :
  always TP m -> always TP h -> always TP (try_except_psutil m h).
Proof.
  intros Hm Hh. apply always_try_except; [exact Hm|].
  intros []; auto using always_raise.
Qed.

(** *** The parts of [close_antigravity] *)

Variable os : OS W.
Variable cfg : Config.

Hypothesis TP_log : forall l fmt args, TP [EvLog l fmt args].
Hypothesis TP_run : forall argv, TP [EvRun argv].
Hypothesis TP_sleep : forall ms, ms <> 500 -> TP [EvSleep ms].
Hypothesis TP_iter : TP [EvProcessIter].
Hypothesis TP_query : forall p r, TP [EvIsRunning p r].
Hypothesis TP_term : forall p, TP [EvIsRunning p (Some true); EvTerminate p].
Hypothesis TP_kill : forall p, TP [EvIsRunning p (Some true); EvKill p].

Lemma always_platform_quit : always TP (platform_quit os cfg).
Proof.
  unfold platform_quit, info, warning, subprocess_run, time_sleep.
  destruct (system cfg =? "Darwin")%string;
    [| destruct (system cfg =? "Windows")%string];
    try apply always_ret.
  all: apply always_bind; [apply always_emit, TP_log | intros _].
  all: apply always_try_except; [| intros e; apply always_emit, TP_log].
  all: apply always_bind; [apply always_call; intros; apply TP_run | intros rc].
  all: destruct (rc =? 0); [| apply always_ret].
  all: apply always_bind; [apply always_emit, TP_log | intros _].
  all: apply always_call; intros; apply TP_sleep; discriminate.
Qed.

Lemma always_scan procs : forall acc, always (W := W) TP (scan cfg procs acc).
Proof.
  induction procs as [|p rest IH]; intros acc; simpl; [apply always_ret|].
  destruct (excluded_self cfg p); [apply IH|].
  destruct (is_antigravity_close (system cfg) p); [|apply IH].
  apply always_bind; [apply always_emit, TP_log | intros _; apply IH].
Qed.

Lemma always_collect_targets : always TP (collect_targets os cfg).
Proof.
  unfold collect_targets.
  apply always_bind.
  - intros w. unfold events, process_iter.
    destruct (os_process_iter os w). exact TP_iter.
  - intros r. apply always_bind; [apply always_scan | intros targets].
    destruct (snd r); [apply always_raise | apply always_ret].
Qed.

(** One step of the SIGTERM loop, as one block of the trace. *)
Lemma terminate_step_events p w :
  let step := try_except
                (alive <- is_running os p ;;
                 if alive then terminate os p else ret tt)
                (fun _ => ret tt) in
  events step w = [EvIsRunning p (Some true); EvTerminate p] \/
  exists r, events step w = [EvIsRunning p r].
Proof.
  cbn zeta.
  unfold events, try_except, bind, is_running, terminate, call, ret.
  destruct (os_is_running os p w) as [[[|]|e] w1]; cbn [observed].
  - destruct (os_terminate os p w1) as [[[]|e] w2]; left; reflexivity.
  - right. now exists (Some false).
  - right. now exists None.
Qed.

Lemma kill_step_events p w :
  let step := try_except_psutil
                (alive <- is_running os p ;;
                 if alive then kill os p else ret tt)
                (ret tt) in
  events step w = [EvIsRunning p (Some true); EvKill p] \/
  exists r, events step w = [EvIsRunning p r].
Proof.
  cbn zeta.
  unfold events, try_except_psutil, try_except, bind, is_running, kill, call,
    ret, raise.
  destruct (os_is_running os p w) as [[[|]|e] w1]; cbn [observed].
  - destruct (os_kill os p w1) as [[[]|[]] w2]; left; reflexivity.
  - right. now exists (Some false).
  - right. exists None. destruct e; reflexivity.
Qed.

Lemma always_terminate_all targets : always TP (terminate_all os targets).
Proof.
  induction targets as [|p rest IH]; simpl; [apply always_ret|].
  apply always_bind; [| intros _; exact IH].
  intros w. destruct (terminate_step_events p w) as [-> | (r & ->)];
    [apply TP_term | apply TP_query].
Qed.

Lemma always_kill_all running : always TP (kill_all os running).
Proof.
  induction running as [|p rest IH]; simpl; [apply always_ret|].
  apply always_bind; [| intros _; exact IH].
  intros w. destruct (kill_step_events p w) as [-> | (r & ->)];
    [apply TP_kill | apply TP_query].
Qed.

Lemma always_collect_running targets : forall acc,
  always TP (collect_running os targets acc).
Proof.
  induction targets as [|p rest IH]; intros acc; simpl; [apply always_ret|].
  apply always_bind; [| intros acc'; apply IH].
  apply always_try_except_psutil; [| apply always_ret].
  apply always_bind; [| intros; apply always_ret].
  apply always_call. intros; apply TP_query.
Qed.

Lemma always_final_check_phase still_running :
  always TP (final_check_phase os still_running).
Proof.
  unfold final_check_phase, time_sleep, info, error.
  apply always_bind;
    [apply always_call; intros; apply TP_sleep; discriminate | intros _].
  apply always_bind; [apply always_collect_running | intros final_check].
  destruct final_check;
    (apply always_bind; [apply always_emit, TP_log | intros; apply always_ret]).
Qed.

Lemma always_force_phase force_kill still_running :
  always TP (force_phase os force_kill still_running).
Proof.
  unfold force_phase, info, warning, error.
  destruct still_running as [[|q running]|];
    [apply always_ret | | apply always_raise].
  apply always_bind; [apply always_emit, TP_log | intros _].
  destruct force_kill.
  - apply always_bind; [apply always_emit, TP_log | intros _].
    apply always_bind; [apply always_kill_all | intros _].
    apply always_final_check_phase.
  - apply always_bind; [apply always_emit, TP_log | intros; apply always_ret].
Qed.

(** The parts below read the clock and sleep between polls. *)
Hypothesis TP_time : forall t, TP [EvTime t].
Hypothesis TP_poll : TP [EvSleep 500].

Lemma always_time_time : always TP (time_time os).
Proof.
  intros w. unfold events, time_time. destruct (os_time os w). apply TP_time.
Qed.

Lemma always_poll_loop start_time timeout targets fuel : forall sr,
  always TP (poll_loop os fuel start_time timeout targets sr).
Proof.
  induction fuel as [|fuel IH]; intros sr; simpl;
    [apply always_out_of_fuel|].
  apply always_bind; [apply always_time_time | intros now].
  destruct (now - start_time <? timeout * 1000); [| apply always_ret].
  apply always_bind; [apply always_collect_running | intros running].
  destruct running.
  - apply always_bind; [apply always_emit, TP_log | intros; apply always_ret].
  - apply always_bind; [| intros _; apply IH].
    apply always_call. intros; exact TP_poll.
Qed.

Lemma always_graceful_phase fuel timeout targets :
  always TP (graceful_phase os fuel timeout targets).
Proof.
  unfold graceful_phase, info.
  apply always_bind; [apply always_emit, TP_log | intros _].
  apply always_bind; [apply always_emit, TP_log | intros _].
  apply always_bind; [apply always_terminate_all | intros _].
  apply always_bind; [apply always_emit, TP_log | intros _].
  apply always_bind; [apply always_time_time | intros start_time].
  apply always_poll_loop.
Qed.

Lemma always_close_body fuel timeout force_kill :
  always TP (close_body os cfg fuel timeout force_kill).
Proof.
  unfold close_body, info.
  apply always_bind; [apply always_platform_quit | intros _].
  apply always_bind; [apply always_collect_targets | intros targets].
  destruct targets.
  - apply always_bind; [apply always_emit, TP_log | intros; apply always_ret].
  - apply always_bind; [apply always_graceful_phase | intros exit].
    destruct exit; [apply always_ret | apply always_force_phase].
Qed.

Lemma always_close_antigravity fuel timeout force_kill :
  always TP (close_antigravity os cfg fuel timeout force_kill).
Proof.
  unfold close_antigravity, info, warning, error.
  apply always_bind; [apply always_emit, TP_log | intros _].
  apply always_bind.
  - destruct (PyStr.mem _ _); [apply always_ret | apply always_emit, TP_log].
  - intros _. apply always_try_except; [apply always_close_body|].
    intros e.
    apply always_bind; [apply always_emit, TP_log | intros; apply always_ret].
Qed.

End Always.

(** ** Detection *)

Lemma detect_loop_spec (cfg : Config) (procs : list Proc) :
  detect_loop cfg procs =
  if existsb (is_antigravity_detect (system cfg)) procs then Some true
  else None.
Proof.
  induction procs as [|p rest IH]; [reflexivity|].
  simpl. now destruct (is_antigravity_detect (system cfg) p).
Qed.

(** X1.  [is_process_running] only enumerates: its whole trace is the one
    enumeration.  It returns true as soon as a yielded handle matches the
    detection rule, even when the enumeration fails afterwards; with no
    match it returns false when the enumeration ended normally and lets the
    exception of the enumeration escape otherwise (there is no handler
    around the loop). *)
Theorem is_process_running_outcome :
  forall (W : Type) (os : OS W) (cfg : Config) (w : W),
    events (is_process_running os cfg) w = [EvProcessIter] /\
    final (is_process_running os cfg) w = snd (os_process_iter os w) /\
    result (is_process_running os cfg) w =
    (if existsb (is_antigravity_detect (system cfg))
                (fst (fst (os_process_iter os w)))
     then Ret true
     else match snd (fst (os_process_iter os w)) with
          | Some e => Raise e
          | None => Ret false
          end).
Proof.
  intros W os cfg w.
  unfold events, final, result, is_process_running, bind, process_iter.
  destruct (os_process_iter os w) as [[procs err] w1]. cbn [fst snd].
  rewrite detect_loop_spec.
  destruct (existsb _ procs); [now cbn|].
  destruct err; now cbn.
Qed.

(** X2.  The shutdown rule never goes beyond the detection rule: a handle
    of the shutdown-eligible set always matches the detection rule, and
    outside Windows the two rules are the same.  So whenever an enumeration
    holds a shutdown target, [is_process_running] on that enumeration
    returns true. *)
Theorem shutdown_targets_are_detected :
  forall (W : Type) (os : OS W) (cfg : Config) (w : W) (procs : list Proc),
    (forall p, In p (target_processes cfg procs) ->
               is_antigravity_detect (system cfg) p = true) /\
    (system cfg <> "Windows" ->
     forall p, is_antigravity_close (system cfg) p
               = is_antigravity_detect (system cfg) p) /\
    (fst (fst (os_process_iter os w)) = procs ->
     target_processes cfg procs <> [] ->
     result (is_process_running os cfg) w = Ret true).
Proof.
  intros W os cfg w procs.
  assert (Hsub : forall p, In p (target_processes cfg procs) ->
                           is_antigravity_detect (system cfg) p = true).
  { intros p Hp. apply target_processes_In in Hp. destruct Hp as [_ Hp].
    unfold is_shutdown_target in Hp. apply andb_true_iff in Hp.
    apply close_rule_implies_detect, Hp. }
  split; [exact Hsub|]. split.
  - intros Hsys p. unfold is_antigravity_close, is_antigravity_detect.
    destruct (system cfg =? "Darwin")%string; [reflexivity|].
    destruct (system cfg =? "Windows")%string eqn:E; [|reflexivity].
    apply String.eqb_eq in E. contradiction.
  - intros Hprocs Hsome.
    destruct (target_processes cfg procs) as [|p l] eqn:Ht; [congruence|].
    assert (Hp : In p (target_processes cfg procs)) by (rewrite Ht; now left).
    apply (is_process_running_found os cfg w p).
    + rewrite Hprocs. now apply target_processes_In in Hp.
    + apply Hsub. now left.
Qed.

(** Pid 101 is a shutdown target of the scenario, hence detected. *)
Lemma shutdown_targets_are_detected_witness :
  is_antigravity_detect (system Scenario.cfg) Scenario.p101 = true /\
  result (is_process_running Sim.os Scenario.cfg) Scenario.stubborn
  = Ret true.
Proof.
  pose proof (shutdown_targets_are_detected
                _ Sim.os Scenario.cfg Scenario.stubborn [Scenario.p101])
    as [Hsub [_ Hrun]].
  split.
  - apply Hsub. vm_compute. now left.
  - apply Hrun; [reflexivity | vm_compute; discriminate].
Defined.

(** ** The platform's quit request *)

(** X3.  The platform quit request never decides anything: it always
    returns normally, whatever the external tool does (missing, timed out,
    non-zero exit).  It sends no signal itself, it waits its two seconds
    only after the tool has exited with code 0, and on a platform other
    than macOS and Windows it does nothing at all. *)
Theorem platform_quit_is_best_effort :
  forall (W : Type) (os : OS W) (cfg : Config) (w : W),
    result (platform_quit os cfg) w = Ret tt /\
    Forall not_a_signal (events (platform_quit os cfg) w) /\
    (In (EvSleep 2000) (events (platform_quit os cfg) w) ->
     exists argv, In (EvRun argv) (events (platform_quit os cfg) w) /\
                  fst (os_run os argv w) = Ok 0) /\
    (system cfg <> "Darwin" -> system cfg <> "Windows" ->
     events (platform_quit os cfg) w = [] /\
     final (platform_quit os cfg) w = w).
Proof.
  intros W os cfg w.
  split; [apply platform_quit_returns|].
  split; [eapply triple_events, triple_platform_quit; trivial|].
  unfold events, final, platform_quit, bind, try_except, info, warning, emit,
    subprocess_run, time_sleep, call, ret.
  destruct (system cfg =? "Darwin")%string eqn:Ed;
    [| destruct (system cfg =? "Windows")%string eqn:Ew].
  3:{ split; [intros []|]. intros _ _. split; reflexivity. }
  all: split;
    [| intros Hd Hw; apply String.eqb_eq in Ed || apply String.eqb_eq in Ew;
       contradiction].
  all: match goal with
       | |- context [os_run ?o ?argv ?w0] =>
           destruct (os_run o argv w0) as [[rc|e] w1] eqn:Erun
       end; cbn [fst snd app].
  all: try (destruct (rc =? 0) eqn:Erc; cbn [fst snd app];
            [destruct (os_sleep os 2000 w1) as [[[]|e] w2]; cbn [fst snd app]
            |]).
  all: intros Hin; simpl in Hin;
    repeat (destruct Hin as [Hin | Hin]; try discriminate);
    try contradiction.
  all: apply Z.eqb_eq in Erc; subst rc; eexists; split;
    [right; left; reflexivity | rewrite Erun; reflexivity].
Qed.

(** The tool answers 128: no grace period; on Linux nothing happens. *)
Lemma platform_quit_is_best_effort_witness :
  ~ In (EvSleep 2000) (events (platform_quit Sim.os Scenario.cfg)
                              Scenario.stubborn) /\
  events (platform_quit Sim.os Scenario.cfg_linux) Scenario.stubborn = [].
Proof.
  pose proof (platform_quit_is_best_effort _ Sim.os Scenario.cfg
                                           Scenario.stubborn)
    as [_ [_ [Hsleep _]]].
  pose proof (platform_quit_is_best_effort _ Sim.os Scenario.cfg_linux
                                           Scenario.stubborn)
    as [_ [_ [_ Hidle]]].
  split.
  - intros Hin. destruct (Hsleep Hin) as (argv & _ & Hrc). discriminate.
  - apply Hidle; discriminate.
Defined.

(** ** No signal without a fresh answer *)

Lemma guarded_from_app (b : list event) :
  guarded b ->
  forall a prev, guarded_from prev a -> guarded_from prev (a ++ b).
Proof.
  intros Hb a. induction a as [|ev a IH]; intros prev Ha; cbn [app].
  - apply Hb.
  - destruct Ha as [Hev Ha]. split; [exact Hev | now apply IH].
Qed.

Lemma guarded_app (a b : list event) :
  guarded a -> guarded b -> guarded (a ++ b).
Proof. intros Ha Hb prev. apply guarded_from_app; [exact Hb | apply Ha]. Qed.

Lemma guarded_quiet (ev : event) : not_a_signal ev -> guarded [ev].
Proof. intros Hev prev. destruct ev; simpl in *; tauto. Qed.

Lemma guarded_from_split (p : Proc) (ev : event) (b : list event) :
  is_signal_to p ev ->
  forall a prev,
    guarded_from prev (a ++ ev :: b) ->
    (a = [] /\ prev = Some (EvIsRunning p (Some true))) \/
    exists a', a = (a' ++ [EvIsRunning p (Some true)])%list.
Proof.
  intros Hsig a. induction a as [|x a IH]; intros prev H; cbn [app] in H.
  - left. split; [reflexivity|]. destruct H as [H _].
    destruct Hsig as [-> | ->]; exact H.
  - right. destruct H as [_ H].
    destruct (IH _ H) as [[-> Hprev] | (a' & ->)].
    + inversion Hprev; subst. now exists [].
    + now exists (x :: a').
Qed.

Lemma close_antigravity_guarded {W} (os : OS W) cfg fuel timeout force_kill w :
  guarded (events (close_antigravity os cfg fuel timeout force_kill) w).
Proof.
  apply (always_close_antigravity guarded).
  - intros prev. exact I.
  - apply guarded_app.
  - intros; now apply guarded_quiet.
  - intros; now apply guarded_quiet.
  - intros; now apply guarded_quiet.
  - now apply guarded_quiet.
  - intros; now apply guarded_quiet.
  - intros p prev. simpl. tauto.
  - intros p prev. simpl. tauto.
  - intros; now apply guarded_quiet.
  - now apply guarded_quiet.
Qed.

(** X4.  [close_antigravity] sends no signal blindly: in every run, each
    [terminate] and each [kill] comes directly after the answer of
    [is_running()] that this very handle runs. *)
Theorem signals_follow_a_running_answer :
  forall (W : Type) (os : OS W) (cfg : Config) (fuel : nat) (timeout : Z)
         (force_kill : bool) (w : W)
         (before after : list event) (ev : event) (p : Proc),
    events (close_antigravity os cfg fuel timeout force_kill) w
    = (before ++ ev :: after)%list ->
    is_signal_to p ev ->
    exists earlier, before = (earlier ++ [EvIsRunning p (Some true)])%list.
Proof.
  intros W os cfg fuel timeout force_kill w before after ev p Etr Hsig.
  pose proof (close_antigravity_guarded os cfg fuel timeout force_kill w None)
    as Hg.
  rewrite Etr in Hg.
  destruct (guarded_from_split p ev after Hsig before None Hg)
    as [[_ Hprev] | Hex]; [discriminate | exact Hex].
Qed.

(** SIGTERM to pid 101 comes right after its answer. *)
Lemma signals_follow_a_running_answer_witness :
  exists earlier,
    firstn 6 (events (close_antigravity Sim.os Scenario.cfg_linux 1 0 true)
                     Scenario.stubborn)
    = (earlier ++ [EvIsRunning Scenario.p101 (Some true)])%list.
Proof.
  apply (signals_follow_a_running_answer
           _ Sim.os Scenario.cfg_linux 1%nat 0 true Scenario.stubborn
           (firstn 6 (events (close_antigravity Sim.os Scenario.cfg_linux
                                                1 0 true)
                             Scenario.stubborn))
           (skipn 7 (events (close_antigravity Sim.os Scenario.cfg_linux
                                               1 0 true)
                            Scenario.stubborn))
           (EvTerminate Scenario.p101) Scenario.p101).
  - vm_compute. reflexivity.
  - left. reflexivity.
Defined.

(** ** The number of polling rounds *)

Lemma polling_sleeps_app (a b : list event) :
  polling_sleeps (a ++ b) = (polling_sleeps a + polling_sleeps b)%nat.
Proof. unfold polling_sleeps. now rewrite filter_app, length_app. Qed.

Lemma no_polling_sleeps_app (a b : list event) :
  polling_sleeps a = 0%nat -> polling_sleeps b = 0%nat ->
  polling_sleeps (a ++ b) = 0%nat.
Proof. intros Ha Hb. now rewrite polling_sleeps_app, Ha, Hb. Qed.

Section PollingRounds.

Context {W : Type}.
Variable os : OS W.
Variable cfg : Config.

Let quiet (tr : list event) : Prop := polling_sleeps tr = 0%nat.

Lemma quiet_sleep ms : ms <> 500 -> quiet [EvSleep ms].
Proof.
  intros Hms. unfold quiet, polling_sleeps. cbn [filter is_polling_sleep].
  apply Z.eqb_neq in Hms. now rewrite Hms.
Qed.

Lemma platform_quit_no_polling w :
  polling_sleeps (events (platform_quit os cfg) w) = 0%nat.
Proof.
  apply (always_platform_quit quiet); try reflexivity.
  - apply no_polling_sleeps_app.
  - apply quiet_sleep.
Qed.

Lemma collect_targets_no_polling w :
  polling_sleeps (events (collect_targets os cfg) w) = 0%nat.
Proof.
  apply (always_collect_targets quiet); try reflexivity.
  apply no_polling_sleeps_app.
Qed.

Lemma terminate_all_no_polling targets w :
  polling_sleeps (events (terminate_all os targets) w) = 0%nat.
Proof.
  apply (always_terminate_all quiet); try reflexivity.
  apply no_polling_sleeps_app.
Qed.

Lemma collect_running_no_polling targets acc w :
  polling_sleeps (events (collect_running os targets acc) w) = 0%nat.
Proof.
  apply (always_collect_running quiet); try reflexivity.
  apply no_polling_sleeps_app.
Qed.

Lemma force_phase_no_polling force_kill still_running w :
  polling_sleeps (events (force_phase os force_kill still_running) w) = 0%nat.
Proof.
  apply (always_force_phase quiet); try reflexivity.
  - apply no_polling_sleeps_app.
  - apply quiet_sleep.
Qed.

Variable clock : W -> Z.
Hypothesis ticks : ticking os clock.

Lemma time_sleep_run ms w :
  events (time_sleep os ms) w = [EvSleep ms] /\
  final (time_sleep os ms) w = snd (os_sleep os ms w) /\
  result (time_sleep os ms) w
  = match fst (os_sleep os ms w) with
    | Ok a => Ret a
    | Throws e => Raise e
    end.
Proof.
  unfold events, final, result, time_sleep, call.
  now destruct (os_sleep os ms w) as [r w'].
Qed.

Lemma polling_sleeps_one : polling_sleeps [EvSleep 500] = 1%nat.
Proof. reflexivity. Qed.

Lemma poll_loop_rounds start_time timeout targets fuel :
  forall (n : nat) sr w,
    timeout * 1000 - (clock w - start_time) <= 500 * Z.of_nat n ->
    (polling_sleeps
       (events (poll_loop os fuel start_time timeout targets sr) w) <= n)%nat.
Proof.
  induction fuel as [|fuel IH]; intros n sr w Hbound; [apply Nat.le_0_l|].
  cbn [poll_loop]. rewrite events_time_bind.
  pose proof (tick_time os clock ticks w) as Ht.
  set (now := fst (os_time os w)) in *.
  set (w1 := snd (os_time os w)) in *.
  change (EvTime now :: ?l) with ([EvTime now] ++ l)%list.
  rewrite polling_sleeps_app.
  change (polling_sleeps [EvTime now]) with 0%nat. cbn [plus].
  destruct (now - start_time <? timeout * 1000) eqn:Hlt;
    [| apply Nat.le_0_l].
  apply Z.ltb_lt in Hlt.
  rewrite events_bind.
  pose proof (collect_running_clock os clock ticks targets [] w1) as Hc.
  pose proof (collect_running_no_polling targets [] w1) as Hq.
  destruct (result (collect_running os targets []) w1) as [running| |];
    try (rewrite Hq; apply Nat.le_0_l).
  rewrite polling_sleeps_app, Hq. cbn [plus].
  set (w2 := final (collect_running os targets []) w1) in *.
  destruct running as [|q running]; [apply Nat.le_0_l|].
  destruct (time_sleep_run 500 w2) as (Eev & Efin & Eres).
  pose proof (tick_sleep os clock ticks 500 w2) as Hs.
  assert (Hn : (1 <= n)%nat) by (destruct n; [lia | lia]).
  rewrite events_bind, Eev, Eres, Efin.
  destruct (fst (os_sleep os 500 w2)) as [[]|e].
  - specialize (Hs eq_refl).
    rewrite polling_sleeps_app, polling_sleeps_one.
    destruct n as [|n]; [lia|]. cbn [plus].
    apply le_n_S. apply IH. lia.
  - rewrite polling_sleeps_one. exact Hn.
Qed.

Lemma graceful_phase_rounds fuel timeout targets w :
  (polling_sleeps (events (graceful_phase os fuel timeout targets) w)
   <= Z.to_nat (2 * timeout))%nat.
Proof.
  unfold graceful_phase, info.
  rewrite !events_emit_bind, events_bind.
  change (?a :: ?b :: ?l) with ([a; b] ++ l)%list.
  rewrite polling_sleeps_app.
  match goal with |- (polling_sleeps ?l + _ <= _)%nat =>
    change (polling_sleeps l) with 0%nat end.
  cbn [plus].
  pose proof (terminate_all_no_polling targets w) as Hterm.
  destruct (result (terminate_all os targets) w) as [[]| |];
    try (rewrite Hterm; apply Nat.le_0_l).
  rewrite polling_sleeps_app, Hterm.
  rewrite events_emit_bind, events_time_bind.
  generalize (final (terminate_all os targets) w). intros w1.
  pose proof (tick_time os clock ticks w1) as Ht.
  change (?a :: ?b :: ?l) with ([a; b] ++ l)%list.
  rewrite polling_sleeps_app.
  match goal with |- (_ + (polling_sleeps ?l + _) <= _)%nat =>
    change (polling_sleeps l) with 0%nat end.
  cbn [plus]. apply poll_loop_rounds. lia.
Qed.

Lemma close_body_rounds fuel timeout force_kill w :
  (polling_sleeps (events (close_body os cfg fuel timeout force_kill) w)
   <= Z.to_nat (2 * timeout))%nat.
Proof.
  unfold close_body. rewrite events_bind, platform_quit_returns.
  rewrite polling_sleeps_app, platform_quit_no_polling. cbn [plus].
  generalize (final (platform_quit os cfg) w). intros w0.
  rewrite events_bind.
  pose proof (collect_targets_no_polling w0) as Hscan.
  destruct (result (collect_targets os cfg) w0) as [targets| |];
    try (rewrite Hscan; lia).
  rewrite polling_sleeps_app, Hscan. cbn [plus].
  generalize (final (collect_targets os cfg) w0). intros w1.
  destruct targets as [|q targets];
    [match goal with |- (?x <= _)%nat => change x with 0%nat end;
     apply Nat.le_0_l|].
  rewrite events_bind.
  pose proof (graceful_phase_rounds fuel timeout (q :: targets) w1) as Hg.
  destruct (result (graceful_phase os fuel timeout (q :: targets)) w1)
    as [[|sr]| |]; try exact Hg.
  - rewrite polling_sleeps_app.
    change (events (ret true) ?w') with (@nil event).
    change (polling_sleeps []) with 0%nat. lia.
  - rewrite polling_sleeps_app, force_phase_no_polling. lia.
Qed.

End PollingRounds.

(** X5.  Under a clock that ticks, the polling loop of [close_antigravity]
    runs at most [2 * timeout] rounds (none when the timeout is not
    positive): the run holds at most that many half-second sleeps. *)
Theorem polling_rounds_bounded :
  forall (W : Type) (os : OS W) (cfg : Config) (clock : W -> Z)
         (fuel : nat) (timeout : Z) (force_kill : bool) (w : W),
    ticking os clock ->
    (polling_sleeps
       (events (close_antigravity os cfg fuel timeout force_kill) w)
     <= Z.to_nat (2 * timeout))%nat.
Proof.
  intros W os cfg clock fuel timeout force_kill w Hticks.
  rewrite close_antigravity_events, !polling_sleeps_app.
  assert (Hp : polling_sleeps (prologue cfg) = 0%nat).
  { unfold prologue. now destruct (PyStr.mem _ _). }
  assert (Hh : polling_sleeps
                 (handler_log
                    (result (close_body os cfg fuel timeout force_kill) w))
               = 0%nat).
  { now destruct (result _ w). }
  rewrite Hp, Hh.
  pose proof (close_body_rounds os cfg clock Hticks fuel timeout force_kill w).
  lia.
Qed.

(** With a timeout of two seconds, at most four rounds. *)
Lemma polling_rounds_bounded_witness :
  (polling_sleeps
     (events (close_antigravity Sim.os Scenario.cfg 10 2 true)
             (Scenario.three 700 None None)) <= 4)%nat.
Proof.
  exact (polling_rounds_bounded _ Sim.os Scenario.cfg Sim.now 10%nat 2 true
                                (Scenario.three 700 None None) sim_ticking).
Defined.

(** ** The result and the last line logged *)

Section ResultAndLog.

Context {W : Type}.
Variable os : OS W.
Variable cfg : Config.









End ResultAndLog.



(** ** More on launching *)

(** X7.  When the URI open answers true, [start_antigravity(use_uri=True)]
    returns true at once, on every platform: it looks up no executable and
    spawns nothing, and the open is the only thing it asks of the system. *)
Theorem uri_launch_short_circuits :
  forall (W : Type) (os : OS W) (cfg : Config) (fuel : nat) (w : W),
    (1 <= fuel)%nat ->
    fst (os_open_uri os oauth_uri w) = Ok true ->
    result (start_antigravity os cfg fuel true) w = Ret true /\
    events (start_antigravity os cfg fuel true) w
    = [starting_log; uri_attempt_log; EvOpenUri oauth_uri;
       EvLog Info "Antigravity URI launch command sent" []] /\
    final (start_antigravity os cfg fuel true) w
    = snd (os_open_uri os oauth_uri w).
Proof.
  intros W os cfg fuel w Hfuel Huri.
  destruct fuel as [|fuel]; [lia|].
  unfold result, events, final. cbn [start_antigravity].
  unfold uri_launch, open_uri, call, info, emit, bind, try_except, ret,
    oauth_uri in *.
  destruct (os_open_uri os "antigravity://oauth-success" w) as [r w1].
  cbn [fst snd] in *. subst r. repeat split.
Qed.

(** The simulated URI handler accepts the link. *)
Lemma uri_launch_short_circuits_witness :
  result (start_antigravity Sim.os Scenario.cfg 1 true) Scenario.spawn_fails
  = Ret true.
Proof.
  assert (Hfuel : (1 <= 1)%nat) by lia.
  exact (proj1 (uri_launch_short_circuits _ Sim.os Scenario.cfg 1%nat
                                          Scenario.spawn_fails Hfuel eq_refl)).
Defined.

(** X8.  Two edges of the launch by executable path.  On a platform that is
    none of macOS, Windows and Linux, [start_antigravity(use_uri=False)]
    reports success although it asks nothing of the system: it only logs.
    On Windows, when no executable is found (the lookup gives nothing, or
    the path does not exist), it returns false after the error and the hint,
    having spawned nothing. *)
Theorem path_launch_edges :
  forall (W : Type) (os : OS W) (cfg : Config) (fuel : nat) (w : W),
    (1 <= fuel)%nat ->
    (system cfg <> "Darwin" -> system cfg <> "Windows" ->
     system cfg <> "Linux" ->
     result (start_antigravity os cfg fuel false) w = Ret true /\
     Forall is_log (events (start_antigravity os cfg fuel false) w) /\
     final (start_antigravity os cfg fuel false) w = w) /\
    (system cfg = "Windows" ->
     (fst (os_get_executable_path os w) = Ok None \/
      exists exe,
        fst (os_get_executable_path os w) = Ok (Some exe) /\
        fst (os_path_exists os exe (snd (os_get_executable_path os w)))
        = Ok false) ->
     result (start_antigravity os cfg fuel false) w = Ret false /\
     (forall argv,
         ~ In (EvPopen argv)
              (events (start_antigravity os cfg fuel false) w)) /\
     In (EvLog Error "Antigravity executable not found" [])
        (events (start_antigravity os cfg fuel false) w)).
Proof.
  intros W os cfg fuel w Hfuel.
  destruct fuel as [|fuel]; [lia|]. clear Hfuel.
  unfold result, events, final. rewrite start_path_only.
  unfold result, events, final, path_launch, spawn_target.
  split.
  - intros Hd Hw Hl.
    apply String.eqb_neq in Hd, Hw, Hl. rewrite Hd, Hw, Hl.
    cbn. repeat split; repeat constructor.
  - intros Hsys Hmissing. rewrite Hsys. cbn [String.eqb Ascii.eqb Bool.eqb].
    unfold bind, info, error, warning, emit, ret,
      get_antigravity_executable_path, path_exists, call.
    destruct Hmissing as [Hnone | (exe & Hsome & Habsent)].
    + destruct (os_get_executable_path os w) as [r w1].
      cbn [fst snd] in *. subst r. cbn.
      split; [reflexivity|]. split; [| tauto].
      intros argv Hin. repeat (destruct Hin as [Hin | Hin]; try discriminate).
      exact Hin.
    + destruct (os_get_executable_path os w) as [r w1].
      cbn [fst snd] in *. subst r.
      destruct (os_path_exists os exe w1) as [r2 w2].
      cbn [fst snd] in *. subst r2. cbn.
      split; [reflexivity|]. split; [| tauto].
      intros argv Hin. repeat (destruct Hin as [Hin | Hin]; try discriminate).
      exact Hin.
Qed.

(** On FreeBSD nothing is launched and true comes back; on Windows with no
    installation found, false. *)
Lemma path_launch_edges_witness :
  result (start_antigravity Sim.os cfg_freebsd 1 false) Scenario.spawn_fails
  = Ret true /\
  result (start_antigravity Sim.os Scenario.cfg 1 false) Scenario.spawn_fails
  = Ret false.
Proof.
  assert (Hfuel : (1 <= 1)%nat) by lia.
  split.
  - apply (proj1 (path_launch_edges _ Sim.os cfg_freebsd 1%nat
                                    Scenario.spawn_fails Hfuel));
      discriminate.
  - apply (proj2 (path_launch_edges _ Sim.os Scenario.cfg 1%nat
                                    Scenario.spawn_fails Hfuel)).
    + reflexivity.
    + left. reflexivity.
Defined.

(** * The front end *)

(** ** Resolving what the user typed *)

Lemma by_id_spec (accounts : list Account) (input_id : string) :
  if existsb (fun acc => (acc_id acc =? input_id)%string) accounts
  then In input_id (ids accounts)
  else ~ In input_id (ids accounts).
Proof.
  destruct (existsb _ accounts) eqn:E.
  - apply existsb_exists in E as (acc & Hin & Heq).
    apply String.eqb_eq in Heq. subst input_id.
    unfold ids. now apply in_map.
  - intros Hin. unfold ids in Hin. apply in_map_iff in Hin as (acc & Heq & Hin).
    assert (existsb (fun acc => (acc_id acc =? input_id)%string) accounts
            = true) as E'.
    { apply existsb_exists. exists acc. split; [assumption|].
      now apply String.eqb_eq. }
    congruence.
Qed.

Lemma position_in_range (accounts : list Account) (idx : Z) :
  1 <= idx <= Z.of_nat (List.length accounts) ->
  exists acc, nth_error accounts (Z.to_nat (idx - 1)) = Some acc.
Proof.
  intros H.
  destruct (nth_error accounts (Z.to_nat (idx - 1))) as [acc|] eqn:E.
  - now exists acc.
  - apply nth_error_None in E. lia.
Qed.

Lemma range_test (accounts : list Account) (idx : Z) :
  (1 <=? idx) && (idx <=? Z.of_nat (List.length accounts)) = true <->
  1 <= idx <= Z.of_nat (List.length accounts).
Proof. rewrite andb_true_iff, !Z.leb_le. tauto. Qed.


Lemma int_of_digits_inv max_str_digits (s : string) :
  (exists idx, PyText.int_of_digits max_str_digits s = Ok idx /\
               idx = PyText.decimal_value 0 s /\
               PyText.all_chars PyText.is_decimal_char s = true /\
               within_digit_limit max_str_digits s) \/
  (PyText.int_of_digits max_str_digits s = Throws value_error /\
   ~ (PyText.all_chars PyText.is_decimal_char s = true /\
      within_digit_limit max_str_digits s)).
Proof.
  unfold PyText.int_of_digits.
  destruct (PyText.all_chars PyText.is_decimal_char s) eqn:Hdec.
  - destruct max_str_digits as [limit|]; cbn [within_digit_limit].
    + destruct (Nat.ltb_spec limit (String.length s)).
      * right. split; [reflexivity|]. intros [_ H']. lia.
      * left. eexists. repeat split. lia.
    + left. eexists. repeat split.
  - right. split; [reflexivity|]. now intros [H' _].
Qed.

Lemma resolve_among_sound max_str_digits accounts input_id r :
  resolve_among max_str_digits accounts input_id = Ok r ->
  match r with
  | Some id => In id (ids accounts)
  | None => ~ In input_id (ids accounts)
  end.
Proof.
  unfold resolve_among. pose proof (by_id_spec accounts input_id) as Hby.
  destruct (existsb _ accounts).
  - destruct (PyText.isdigit input_id);
      [| now intros [= <-]].
    destruct (PyText.int_of_digits max_str_digits input_id) as [idx|e];
      [| discriminate].
    destruct ((1 <=? idx) && (idx <=? Z.of_nat (List.length accounts)));
      [| now intros [= <-]].
    destruct (nth_error accounts (Z.to_nat (idx - 1))) as [acc|] eqn:E;
      [| discriminate].
    intros [= <-]. apply nth_error_In in E. unfold ids. now apply in_map.
  - destruct (PyText.isdigit input_id);
      [| now intros [= <-]].
    destruct (PyText.int_of_digits max_str_digits input_id) as [idx|e];
      [| discriminate].
    destruct ((1 <=? idx) && (idx <=? Z.of_nat (List.length accounts)));
      [| now intros [= <-]].
    destruct (nth_error accounts (Z.to_nat (idx - 1))) as [acc|] eqn:E;
      [| discriminate].
    intros [= <-]. apply nth_error_In in E. unfold ids. now apply in_map.
Qed.

Lemma resolve_id_run {W} (fe : Frontend W) (input_id : string) (w : W) :
  resolve_id fe input_id w
  = match fe_list_accounts_data fe w with
    | (Ok accounts, w1) =>
        (match resolve_among (fe_max_str_digits fe) accounts input_id with
         | Ok r => UiRet r
         | Throws e => UiRaise e
         end, w1, [UiListAccounts (Some accounts)])
    | (Throws e, w1) => (UiRaise e, w1, [UiListAccounts None])
    end.
Proof.
  unfold resolve_id, ui_bind, list_accounts_data, ui_call, ui_answer.
  destruct (fe_list_accounts_data fe w) as [[accounts|e] w1]; reflexivity.
Qed.

(** X9.  What [resolve_id] returns comes from the listing that the store
    answered to its own call, the only thing it does: a returned id is the
    id of a listed snapshot, and [None] means that the text is the id of
    none. *)
Theorem resolve_id_answers_from_listing :
  forall (W : Type) (fe : Frontend W) (input_id : string) (w : W)
         (r : option string),
    ui_result (resolve_id fe input_id) w = UiRet r ->
    exists accounts,
      fst (fe_list_accounts_data fe w) = Ok accounts /\
      ui_events (resolve_id fe input_id) w
      = [UiListAccounts (Some accounts)] /\
      match r with
      | Some id => In id (ids accounts)
      | None => ~ In input_id (ids accounts)
      end.
Proof.
  intros W fe input_id w r. unfold ui_result, ui_events.
  rewrite resolve_id_run.
  destruct (fe_list_accounts_data fe w) as [[accounts|e] w1];
    cbn [fst snd]; [| discriminate].
  destruct (resolve_among (fe_max_str_digits fe) accounts input_id)
    as [r'|e] eqn:E; [| discriminate].
  intros [= <-]. exists accounts. repeat split.
  now apply resolve_among_sound in E.
Qed.

Lemma resolve_id_answers_from_listing_witness :
  exists accounts,
    fst (fe_list_accounts_data Desk.fe (Desk.desk [])) = Ok accounts /\
    ui_events (resolve_id Desk.fe "1") (Desk.desk [])
    = [UiListAccounts (Some accounts)] /\
    In "2" (ids accounts).
Proof.
  exact (resolve_id_answers_from_listing Desk.World Desk.fe "1"
           (Desk.desk []) (Some "2") eq_refl).
Defined.





(** X11.  An exception leaves [resolve_id] in two cases only: the store's
    own, when the listing fails; and [ValueError], when the listing succeeds
    and the text passes [isdigit] but is not a run of decimal digits that
    [int] converts (a superscript digit, or more digits than the
    interpreter's limit).  The position looked up is never out of range. *)
Theorem resolve_id_raises :
  forall (W : Type) (fe : Frontend W) (input_id : string) (w : W) (e : exn),
    ui_result (resolve_id fe input_id) w = UiRaise e <->
    fst (fe_list_accounts_data fe w) = Throws e \/
    ((exists accounts, fst (fe_list_accounts_data fe w) = Ok accounts) /\
     PyText.isdigit input_id = true /\
     ~ (PyText.all_chars PyText.is_decimal_char input_id = true /\
        within_digit_limit (fe_max_str_digits fe) input_id) /\
     e = value_error).
Proof.
  intros W fe input_id w e. unfold ui_result. rewrite resolve_id_run.
  destruct (fe_list_accounts_data fe w) as [[accounts|e0] w1];
    cbn [fst snd].
  2:{ split.
      - intros [= <-]. now left.
      - intros [[= <-]|[[accounts H] _]]; [reflexivity | discriminate]. }
  unfold resolve_among.
  destruct (PyText.isdigit input_id) eqn:Hdigit.
  2:{ split; [discriminate|].
      intros [H|(_ & H & _)]; discriminate. }
  destruct (int_of_digits_inv (fe_max_str_digits fe) input_id)
    as [(idx & -> & _ & Hdec & Hlim)|[-> Hbad]].
  - destruct ((1 <=? idx) && (idx <=? Z.of_nat (List.length accounts)))
      eqn:Hrange.
    + apply range_test in Hrange.
      destruct (position_in_range accounts idx Hrange) as [acc ->].
      split; [discriminate|].
      intros [H|(_ & _ & H & _)]; [discriminate | tauto].
    + split; [discriminate|].
      intros [H|(_ & _ & H & _)]; [discriminate | tauto].
  - split.
    + intros [= <-]. right. repeat split; try assumption. now exists accounts.
    + intros [H|(_ & _ & _ & ->)]; [discriminate | reflexivity].
Qed.

Lemma resolve_id_raises_witness :
  ui_result (resolve_id Desk.fe superscript_two) (Desk.desk [])
  = UiRaise value_error.
Proof.
  apply (resolve_id_raises Desk.World Desk.fe superscript_two (Desk.desk [])
           value_error).
  right. repeat split.
  - now exists [Desk.work; Desk.home].
  - intros [H _]. discriminate.
Defined.

(** ** Runs of the front end *)

Lemma ui_run_eta {W A} (m : UI W A) (w : W) :
  m w = (ui_result m w, ui_final m w, ui_events m w).
Proof. unfold ui_result, ui_final, ui_events. now destruct (m w) as [[o w'] tr]. Qed.

Lemma ui_result_bind {W A B} (m : UI W A) (k : A -> UI W B) (w : W) :
  ui_result (ui_bind m k) w
  = match ui_result m w with
    | UiRet a => ui_result (k a) (ui_final m w)
    | UiRaise e => UiRaise e
    | UiExit code => UiExit code
    | UiOutOfFuel => UiOutOfFuel
    end.
Proof.
  unfold ui_result, ui_final, ui_bind.
  destruct (m w) as [[[a|e|code|] w1] t1]; cbn [fst snd]; try reflexivity.
  now destruct (k a w1) as [[o w2] t2].
Qed.

Lemma ui_events_bind {W A B} (m : UI W A) (k : A -> UI W B) (w : W) :
  ui_events (ui_bind m k) w
  = match ui_result m w with
    | UiRet a => (ui_events m w ++ ui_events (k a) (ui_final m w))%list
    | _ => ui_events m w
    end.
Proof.
  unfold ui_result, ui_final, ui_events, ui_bind.
  destruct (m w) as [[[a|e|code|] w1] t1]; cbn [fst snd]; try reflexivity.
  now destruct (k a w1) as [[o w2] t2].
Qed.

Lemma ui_result_lift {W A} (m : M W A) (w : W) :
  ui_result (ui_lift m) w
  = match result m w with
    | Ret a => UiRet a
    | Raise e => UiRaise e
    | OutOfFuel => UiOutOfFuel
    end.
Proof.
  unfold ui_result, ui_lift, result. now destruct (m w) as [[o w'] tr].
Qed.

Lemma ui_events_lift {W A} (m : M W A) (w : W) :
  ui_events (ui_lift m) w = map UiCore (events m w).
Proof.
  unfold ui_events, ui_lift, events. now destruct (m w) as [[o w'] tr].
Qed.

Section NeverExits.

Context {W : Type}.

Lemma never_exits_ret {A} (a : A) : never_exits (W := W) (ui_ret a).
Proof. intros w code. discriminate. Qed.

Lemma never_exits_out_of_fuel {A} : never_exits (W := W) (A := A) ui_out_of_fuel.
Proof. intros w code. discriminate. Qed.

Lemma never_exits_print text args : never_exits (W := W) (ui_print text args).
Proof. intros w code. discriminate. Qed.

Lemma never_exits_answer {A} (r : answer A) : never_exits (W := W) (ui_answer r).
Proof. intros w code. unfold ui_result, ui_answer. now destruct r. Qed.

Lemma never_exits_call {A} (f : W -> answer A * W) ev :
  never_exits (ui_call f ev).
Proof.
  intros w code. unfold ui_result, ui_call.
  now destruct (f w) as [[a|e] w'].
Qed.

Lemma never_exits_lift {A} (m : M W A) : never_exits (ui_lift m).
Proof.
  intros w code. rewrite ui_result_lift. now destruct (result m w).
Qed.

Lemma never_exits_bind {A B} (m : UI W A) (k : A -> UI W B) :
  never_exits m -> (forall a, never_exits (k a)) -> never_exits (ui_bind m k).
Proof.
  intros Hm Hk w code. rewrite ui_result_bind.
  specialize (Hm w). destruct (ui_result m w) as [a|e|c|];
    try discriminate.
  - apply Hk.
  - now specialize (Hm c).
Qed.

End NeverExits.

Ltac never_exits_step :=
  first
    [ apply never_exits_ret
    | apply never_exits_out_of_fuel
    | apply never_exits_print
    | apply never_exits_answer
    | apply never_exits_call
    | apply never_exits_lift
    | apply never_exits_bind; [| intros ?]
    | match goal with
      | |- never_exits (if ?b then _ else _) => destruct b
      | |- never_exits (match ?x with _ => _ end) => destruct x
      end ].

Section FrontendNeverExits.

Context {W : Type}.
Variable os : OS W.
Variable fe : Frontend W.
Variable cfg : Config.
Variable patience : nat.

Lemma never_exits_show_menu : never_exits (W := W) show_menu.
Proof. unfold show_menu. repeat never_exits_step. Qed.

Lemma never_exits_print_accounts accounts :
  forall idx, never_exits (W := W) (print_accounts idx accounts).
Proof.
  induction accounts as [|acc rest IH]; intros idx; cbn [print_accounts].
  - apply never_exits_ret.
  - repeat (apply never_exits_bind; [apply never_exits_print | intros _]).
    apply IH.
Qed.

Lemma never_exits_list_accounts : never_exits (list_accounts fe).
Proof.
  unfold list_accounts, list_accounts_data, ui_info.
  apply never_exits_bind; [apply never_exits_call | intros accounts].
  destruct accounts as [|acc rest]; [repeat never_exits_step|].
  repeat (apply never_exits_bind;
          [first [apply never_exits_print | apply never_exits_lift
                 | apply never_exits_print_accounts] | intros _]).
  apply never_exits_ret.
Qed.

Lemma never_exits_resolve_id input_id : never_exits (resolve_id fe input_id).
Proof. unfold resolve_id, list_accounts_data. repeat never_exits_step. Qed.

Lemma never_exits_add_account : never_exits (add_account fe).
Proof.
  unfold add_account, input, add_account_snapshot, ui_info, ui_error.
  repeat never_exits_step.
Qed.

Lemma never_exits_switch_account_interactive :
  never_exits (switch_account_interactive fe).
Proof.
  unfold switch_account_interactive.
  apply never_exits_bind; [apply never_exits_list_accounts | intros accounts].
  destruct accounts as [|acc rest]; [apply never_exits_ret|].
  repeat (apply never_exits_bind; [apply never_exits_print | intros _]).
  apply never_exits_bind; [apply never_exits_call | intros typed].
  cbn zeta. destruct (negb _); [apply never_exits_lift|].
  apply never_exits_bind; [apply never_exits_resolve_id | intros real_id].
  unfold switch_account, ui_info, ui_error. repeat never_exits_step.
Qed.

Lemma never_exits_delete_account_interactive :
  never_exits (delete_account_interactive fe).
Proof.
  unfold delete_account_interactive.
  apply never_exits_bind; [apply never_exits_list_accounts | intros accounts].
  destruct accounts as [|acc rest]; [apply never_exits_ret|].
  repeat (apply never_exits_bind; [apply never_exits_print | intros _]).
  apply never_exits_bind; [apply never_exits_call | intros typed].
  cbn zeta. destruct (negb _); [apply never_exits_lift|].
  apply never_exits_bind; [apply never_exits_resolve_id | intros real_id].
  unfold delete_account, input, ui_info, ui_error, ui_warning.
  repeat never_exits_step.
Qed.

End FrontendNeverExits.

(** ** The menu loop *)

Lemma leaves_on_zero_app (code : Z) (t1 t2 : list ui_event) :
  leaves_on_zero code t2 -> leaves_on_zero code (t1 ++ t2).
Proof.
  intros (Hc & pre & typed & -> & Hz). split; [assumption|].
  exists (t1 ++ pre)%list, typed. now rewrite app_assoc.
Qed.

Lemma exit_after {W A B} (m : UI W A) (k : A -> UI W B) (w : W) (code : Z) :
  never_exits m ->
  ui_result (ui_bind m k) w = UiExit code ->
  exists a,
    ui_result (k a) (ui_final m w) = UiExit code /\
    ui_events (ui_bind m k) w
    = (ui_events m w ++ ui_events (k a) (ui_final m w))%list.
Proof.
  intros Hm. rewrite ui_result_bind, ui_events_bind. specialize (Hm w).
  destruct (ui_result m w) as [a|e|c|]; try discriminate.
  - intros H. now exists a.
  - now specialize (Hm c).
Qed.

Lemma ui_result_call_bind {W A B} (f : W -> answer A * W) ev
      (k : A -> UI W B) (w : W) :
  ui_result (ui_bind (ui_call f ev) k) w
  = match f w with
    | (Ok a, w1) => ui_result (k a) w1
    | (Throws e, _) => UiRaise e
    end.
Proof.
  unfold ui_result, ui_bind, ui_call.
  destruct (f w) as [[a|e] w1]; [| reflexivity].
  now destruct (k a w1) as [[o w2] t2].
Qed.

Lemma ui_events_call_bind {W A B} (f : W -> answer A * W) ev
      (k : A -> UI W B) (w : W) :
  ui_events (ui_bind (ui_call f ev) k) w
  = match f w with
    | (Ok a, w1) => ev (Some a) :: ui_events (k a) w1
    | (Throws e, _) => [ev None]
    end.
Proof.
  unfold ui_events, ui_bind, ui_call.
  destruct (f w) as [[a|e] w1]; [| reflexivity].
  now destruct (k a w1) as [[o w2] t2].
Qed.

Lemma never_returns_bind {W A B} (m : UI W A) (k : A -> UI W B) :
  (forall a, never_returns (k a)) -> never_returns (ui_bind m k).
Proof.
  intros Hk w b. rewrite ui_result_bind.
  destruct (ui_result m w) as [a|e|c|]; try discriminate. apply Hk.
Qed.

Section MenuLoop.

Context {W : Type}.
Variable os : OS W.
Variable fe : Frontend W.
Variable cfg : Config.
Variable patience : nat.

Lemma interactive_mode_never_returns (fuel : nat) :
  never_returns (interactive_mode os fe cfg patience fuel).
Proof.
  induction fuel as [|fuel IH]; cbn [interactive_mode].
  - intros w a. discriminate.
  - apply never_returns_bind. intros _.
    apply never_returns_bind. intros typed. cbn zeta.
    repeat match goal with
           | |- never_returns (if ?b then _ else _) => destruct b
           end;
      repeat (apply never_returns_bind; intros ?);
      first [exact IH | intros ? ?; discriminate].
Qed.

Ltac through :=
  match goal with
  | H : ui_result (ui_bind ?m ?k) ?w = UiExit _ |- _ =>
      apply exit_after in H as (? & H & ->);
      [ apply leaves_on_zero_app
      | first [ apply never_exits_list_accounts
              | apply never_exits_add_account
              | apply never_exits_switch_account_interactive
              | apply never_exits_delete_account_interactive
              | apply never_exits_show_menu
              | apply never_exits_call
              | apply never_exits_print
              | apply never_exits_lift ] ]
  end.

Lemma interactive_mode_exit (fuel : nat) :
  forall w code,
    ui_result (interactive_mode os fe cfg patience fuel) w = UiExit code ->
    leaves_on_zero code
      (ui_events (interactive_mode os fe cfg patience fuel) w).
Proof.
  induction fuel as [|fuel IH]; intros w code H; cbn [interactive_mode] in *.
  - discriminate.
  - through. unfold input at 1 in H. unfold input at 1.
    rewrite ui_result_call_bind in H. rewrite ui_events_call_bind.
    destruct (fe_input fe "Enter option (0-6): " (ui_final show_menu w))
      as [[typed|e] w1]; [| discriminate].
    cbn zeta in *.
    repeat match type of H with
           | ui_result (if ?b then _ else _) _ = _ =>
               let E := fresh "E" in destruct b eqn:E
           end;
      try (apply (leaves_on_zero_app code [_]); repeat through;
           now apply IH).
    apply String.eqb_eq in E5.
    cbn in H. injection H as <-. split; [reflexivity|].
    exists [], typed. split; [reflexivity | assumption].
Qed.

Lemma interactive_mode_zero (fuel : nat) (w w1 : W) (typed : string) :
  fe_input fe menu_prompt w = (Ok typed, w1) ->
  PyText.strip typed = "0" ->
  ui_result (interactive_mode os fe cfg patience (S fuel)) w = UiExit 0.
Proof.
  intros Hin Hz. cbn [interactive_mode].
  rewrite ui_result_bind.
  change (ui_result (W := W) show_menu w) with (UiRet (A := unit) tt).
  change (ui_final (W := W) show_menu w) with w.
  unfold input at 1. rewrite ui_result_call_bind.
  unfold menu_prompt in Hin. rewrite Hin. cbn zeta. rewrite Hz.
  reflexivity.
Qed.

End MenuLoop.

(** X15.  The menu is left by [sys.exit(0)] only: [interactive_mode] never
    returns to its caller, and when it exits, then with status 0, right after
    the farewell, on an answer to the menu's prompt that is ["0"] once
    stripped of white space.  Such an answer to the first prompt ends it in
    the first round. *)
Theorem interactive_mode_leaves_by_exit :
  forall (W : Type) (os : OS W) (fe : Frontend W) (cfg : Config)
         (patience fuel : nat) (w : W),
    (forall a,
        ui_result (interactive_mode os fe cfg patience fuel) w <> UiRet a) /\
    (forall code,
        ui_result (interactive_mode os fe cfg patience fuel) w = UiExit code ->
        leaves_on_zero code
          (ui_events (interactive_mode os fe cfg patience fuel) w)) /\
    (forall typed w1,
        fe_input fe menu_prompt w = (Ok typed, w1) ->
        PyText.strip typed = "0" ->
        ui_result (interactive_mode os fe cfg patience (S fuel)) w
        = UiExit 0).
Proof.
  intros W os fe cfg patience fuel w. split; [|split].
  - intros a. apply interactive_mode_never_returns.
  - intros code. apply interactive_mode_exit.
  - intros typed w1. apply interactive_mode_zero.
Qed.

(** A round of the menu that is answered [" 0 "] exits with status 0. *)
Lemma interactive_mode_leaves_by_exit_witness :
  ui_result (interactive_mode Desk.os Desk.fe Scenario.cfg 30 1)
            (Desk.desk [" 0 "]) = UiExit 0 /\
  leaves_on_zero 0
    (ui_events (interactive_mode Desk.os Desk.fe Scenario.cfg 30 1)
               (Desk.desk [" 0 "])).
Proof.
  split.
  - apply (proj2 (proj2 (interactive_mode_leaves_by_exit
                           Desk.World Desk.os Desk.fe Scenario.cfg 30 0
                           (Desk.desk [" 0 "])))
             " 0 " (Desk.desk [])); reflexivity.
  - apply (proj1 (proj2 (interactive_mode_leaves_by_exit
                           Desk.World Desk.os Desk.fe Scenario.cfg 30 1
                           (Desk.desk [" 0 "])))).
    reflexivity.
Defined.

(** ** Properties of every trace of the front end *)

Section UiAlways.

Context {W : Type}.
Variable TP : list ui_event -> Prop.
Hypothesis HTP : trace_property TP.


Lemma ui_always_ret {A} (a : A) : ui_always (W := W) TP (ui_ret a).
Proof. intros w. exact (tp_nil TP HTP). Qed.

Lemma ui_always_exit {A} code : ui_always (W := W) (A := A) TP (ui_exit code).
Proof. intros w. exact (tp_nil TP HTP). Qed.

Lemma ui_always_out_of_fuel {A} :
  ui_always (W := W) (A := A) TP ui_out_of_fuel.
Proof. intros w. exact (tp_nil TP HTP). Qed.

Lemma ui_always_answer {A} (r : answer A) :
  ui_always (W := W) TP (ui_answer r).
Proof. intros w. exact (tp_nil TP HTP). Qed.

Lemma ui_always_call {A} (f : W -> answer A * W) ev :
  (forall r, TP [ev r]) -> ui_always TP (ui_call f ev).
Proof.
  intros H w. unfold ui_events, ui_call.
  destruct (f w) as [r w1]. apply H.
Qed.

Lemma ui_always_bind {A B} (m : UI W A) (k : A -> UI W B) :
  ui_always TP m -> (forall a, ui_always TP (k a)) ->
  ui_always TP (ui_bind m k).
Proof.
  intros Hm Hk w. rewrite ui_events_bind.
  destruct (ui_result m w) as [a|e|c|]; try apply Hm.
  apply (tp_app TP HTP); [apply Hm | apply Hk].
Qed.

Lemma ui_always_print text args : ui_always (W := W) TP (ui_print text args).
Proof. intros w. apply (tp_print TP HTP). Qed.

Lemma ui_always_lift {A} (m : M W A) : ui_always TP (ui_lift m).
Proof. intros w. rewrite ui_events_lift. apply (tp_core TP HTP). Qed.

Variable os : OS W.
Variable fe : Frontend W.
Variable cfg : Config.
Variable patience : nat.

Lemma ui_always_input prompt : ui_always TP (input fe prompt).
Proof. apply ui_always_call. apply (tp_input TP HTP). Qed.

Lemma ui_always_list_accounts_data : ui_always TP (list_accounts_data fe).
Proof. apply ui_always_call. apply (tp_list TP HTP). Qed.

Ltac always_step :=
  first
    [ apply ui_always_ret
    | apply ui_always_exit
    | apply ui_always_out_of_fuel
    | apply ui_always_answer
    | apply ui_always_print
    | apply ui_always_lift
    | apply ui_always_input
    | apply ui_always_list_accounts_data
    | apply ui_always_bind; [| intros ?]
    | match goal with
      | |- ui_always _ (if ?b then _ else _) => destruct b
      | |- ui_always _ (match ?x with _ => _ end) => destruct x
      end ].

Lemma ui_always_show_menu : ui_always (W := W) TP show_menu.
Proof. unfold show_menu. repeat always_step. Qed.

Lemma ui_always_print_accounts accounts :
  forall idx, ui_always (W := W) TP (print_accounts idx accounts).
Proof.
  induction accounts as [|acc rest IH]; intros idx; cbn [print_accounts].
  - apply ui_always_ret.
  - repeat (apply ui_always_bind; [apply ui_always_print | intros _]).
    apply IH.
Qed.

Lemma ui_always_list_accounts : ui_always TP (list_accounts fe).
Proof.
  unfold list_accounts.
  apply ui_always_bind; [apply ui_always_list_accounts_data | intros accounts].
  destruct accounts as [|acc rest]; [repeat always_step|].
  repeat (apply ui_always_bind;
          [first [apply ui_always_print | apply ui_always_lift
                 | apply ui_always_print_accounts] | intros _]).
  apply ui_always_ret.
Qed.

Lemma ui_always_resolve_id input_id : ui_always TP (resolve_id fe input_id).
Proof. unfold resolve_id. repeat always_step. Qed.

Lemma ui_always_add_account :
  (forall typed_name typed_email done,
      TP [UiAddSnapshot (or_none (PyText.strip typed_name))
                        (or_none (PyText.strip typed_email)) done]) ->
  ui_always TP (add_account fe).
Proof.
  intros Hadd. unfold add_account.
  repeat (apply ui_always_bind; [apply ui_always_print | intros _]).
  apply ui_always_bind; [apply ui_always_input | intros typed_name].
  apply ui_always_bind; [apply ui_always_input | intros typed_email].
  cbn zeta.
  apply ui_always_bind; [apply ui_always_print | intros _].
  apply ui_always_bind; [| intros done; destruct done; apply ui_always_lift].
  apply ui_always_call. apply Hadd.
Qed.

Lemma ui_always_switch_account_interactive :
  (forall id done, TP [UiSwitch id done]) ->
  ui_always TP (switch_account_interactive fe).
Proof.
  intros Hswitch. unfold switch_account_interactive.
  apply ui_always_bind; [apply ui_always_list_accounts | intros accounts].
  destruct accounts as [|acc rest]; [apply ui_always_ret|].
  repeat (apply ui_always_bind; [apply ui_always_print | intros _]).
  apply ui_always_bind; [apply ui_always_input | intros typed].
  cbn zeta. destruct (negb _); [apply ui_always_lift|].
  apply ui_always_bind; [apply ui_always_resolve_id | intros real_id].
  destruct (no_id real_id); [apply ui_always_lift|].
  destruct real_id as [id|]; [| apply ui_always_ret].
  apply ui_always_bind; [apply ui_always_print | intros _].
  apply ui_always_bind; [| intros done; destruct done; apply ui_always_lift].
  apply ui_always_call. apply Hswitch.
Qed.

Lemma ui_always_delete_account_interactive :
  (forall id done, TP [UiDelete id done]) ->
  ui_always TP (delete_account_interactive fe).
Proof.
  intros Hdelete. unfold delete_account_interactive.
  apply ui_always_bind; [apply ui_always_list_accounts | intros accounts].
  destruct accounts as [|acc rest]; [apply ui_always_ret|].
  repeat (apply ui_always_bind; [apply ui_always_print | intros _]).
  apply ui_always_bind; [apply ui_always_input | intros typed].
  cbn zeta. destruct (negb _); [apply ui_always_lift|].
  apply ui_always_bind; [apply ui_always_resolve_id | intros real_id].
  destruct (no_id real_id); [apply ui_always_lift|].
  destruct real_id as [id|]; [| apply ui_always_ret].
  apply ui_always_bind; [apply ui_always_input | intros answer].
  cbn zeta. destruct (negb _); [apply ui_always_lift|].
  apply ui_always_bind; [apply ui_always_print | intros _].
  apply ui_always_bind; [| intros done; destruct done; apply ui_always_lift].
  apply ui_always_call. apply Hdelete.
Qed.

Lemma ui_always_interactive_mode :
  ui_always TP (add_account fe) ->
  ui_always TP (switch_account_interactive fe) ->
  ui_always TP (delete_account_interactive fe) ->
  forall fuel, ui_always TP (interactive_mode os fe cfg patience fuel).
Proof.
  intros Hadd Hswitch Hdelete.
  induction fuel as [|fuel IH]; cbn [interactive_mode].
  - apply ui_always_out_of_fuel.
  - apply ui_always_bind; [apply ui_always_show_menu | intros _].
    apply ui_always_bind; [apply ui_always_input | intros typed].
    cbn zeta.
    repeat match goal with
           | |- ui_always _ (if ?b then _ else _) => destruct b
           end;
      repeat (apply ui_always_bind;
              [first [ apply ui_always_list_accounts
                     | exact Hadd | exact Hswitch | exact Hdelete
                     | apply ui_always_print
                     | apply ui_always_lift
                     | apply ui_always_input ]
              | intros _]);
      first [exact IH | apply ui_always_exit].
Qed.

End UiAlways.

Lemma ui_events_print_bind {W B} text args (k : unit -> UI W B) (w : W) :
  ui_events (ui_bind (ui_print text args) k) w
  = UiPrint text args :: ui_events (k tt) w.
Proof.
  unfold ui_events, ui_bind, ui_print.
  now destruct (k tt w) as [[o w2] t2].
Qed.

(** ** What [add_account] hands to the store *)

Lemma rstrip_idem (s : string) :
  PyText.rstrip (PyText.rstrip s) = PyText.rstrip s.
Proof.
  induction s as [|c s IH]; [reflexivity|].
  cbn [PyText.rstrip].
  destruct (PyText.rstrip s) as [|c' r] eqn:E.
  - destruct (PyText.is_space c) eqn:Hc; [reflexivity|].
    cbn [PyText.rstrip]. now rewrite Hc.
  - cbn [PyText.rstrip]. cbn [PyText.rstrip] in IH.
    destruct (PyText.rstrip r) as [|c'' r'] eqn:E'.
    + destruct (PyText.is_space c'); [discriminate|].
      now rewrite IH.
    + now rewrite IH.
Qed.

Lemma lstrip_head (s : string) :
  match PyText.lstrip s with
  | EmptyString => True
  | String c _ => PyText.is_space c = false
  end.
Proof.
  induction s as [|c s IH]; [exact I|].
  cbn [PyText.lstrip]. destruct (PyText.is_space c) eqn:Hc; assumption.
Qed.

Lemma rstrip_keeps_head (c : ascii) (s : string) :
  PyText.is_space c = false ->
  exists r, PyText.rstrip (String c s) = String c r.
Proof.
  intros Hc. cbn [PyText.rstrip].
  destruct (PyText.rstrip s) as [|c' r].
  - rewrite Hc. now exists EmptyString.
  - now exists (String c' r).
Qed.

Lemma strip_idem (s : string) :
  PyText.strip (PyText.strip s) = PyText.strip s.
Proof.
  unfold PyText.strip. pose proof (lstrip_head s) as Hhead.
  destruct (PyText.lstrip s) as [|c t]; [reflexivity|].
  destruct (rstrip_keeps_head c t Hhead) as [r Hr].
  rewrite Hr. cbn [PyText.lstrip]. rewrite Hhead.
  rewrite <- Hr. apply rstrip_idem.
Qed.

Lemma trimmed_or_none_strip (typed : string) :
  trimmed (or_none (PyText.strip typed)).
Proof.
  unfold or_none.
  destruct (PyStr.truthy (PyText.strip typed)) eqn:E; [| exact I].
  split; [| apply strip_idem].
  intros H. rewrite H in E. discriminate.
Qed.

Lemma Forall_adds_trimmed_core (tr : list event) :
  Forall adds_trimmed (map UiCore tr).
Proof. induction tr; constructor; [exact I | assumption]. Qed.

Lemma adds_trimmed_property : trace_property (Forall adds_trimmed).
Proof.
  constructor.
  - constructor.
  - intros t1 t2 H1 H2. apply Forall_app. now split.
  - intros. now repeat constructor.
  - apply Forall_adds_trimmed_core.
  - intros. now repeat constructor.
  - intros. now repeat constructor.
Qed.

(** X17.  Whatever is typed at the menu, the store is asked to add a
    snapshot only with a name and an email that are each either absent or a
    text that is not empty and has no white space at either end: a blank
    answer is handed on as [None], any other answer stripped. *)
Theorem interactive_add_is_trimmed :
  forall (W : Type) (os : OS W) (fe : Frontend W) (cfg : Config)
         (patience fuel : nat) (w : W),
    Forall adds_trimmed
           (ui_events (interactive_mode os fe cfg patience fuel) w).
Proof.
  intros W os fe cfg patience fuel.
  pose proof adds_trimmed_property as HTP.
  assert (Hone : forall ev, adds_trimmed ev -> Forall adds_trimmed [ev])
    by (intros ev H; constructor; [assumption | constructor]).
  apply (ui_always_interactive_mode (Forall adds_trimmed) HTP).
  - apply ui_always_add_account; [assumption|].
    intros typed_name typed_email done. apply Hone.
    split; apply trimmed_or_none_strip.
  - apply ui_always_switch_account_interactive; [assumption|].
    intros. now apply Hone.
  - apply ui_always_delete_account_interactive; [assumption|].
    intros. now apply Hone.
Qed.

(** A name typed with blanks around it and a blank email. *)
Lemma interactive_add_is_trimmed_witness :
  Forall adds_trimmed
         (ui_events (interactive_mode Desk.os Desk.fe Scenario.cfg 30 2)
                    (Desk.desk ["2"; "  me "; " "; ""; "0"])) /\
  existsb (adds (Some "me") None)
          (ui_events (interactive_mode Desk.os Desk.fe Scenario.cfg 30 2)
                     (Desk.desk ["2"; "  me "; " "; ""; "0"])) = true.
Proof.
  split.
  - apply (interactive_add_is_trimmed Desk.World Desk.os Desk.fe
             Scenario.cfg 30 2 (Desk.desk ["2"; "  me "; " "; ""; "0"])).
  - vm_compute. reflexivity.
Defined.

Ltac always_with HTP :=
  repeat first
    [ apply (ui_always_ret _ HTP)
    | apply (ui_always_exit _ HTP)
    | apply (ui_always_out_of_fuel _ HTP)
    | apply (ui_always_answer _ HTP)
    | apply (ui_always_print _ HTP)
    | apply (ui_always_lift _ HTP)
    | apply (ui_always_input _ HTP)
    | apply (ui_always_list_accounts _ HTP)
    | apply (ui_always_resolve_id _ HTP)
    | apply (ui_always_bind _ HTP); [| intros ?]
    | match goal with
      | |- ui_always _ (if ?b then _ else _) => destruct b
      end ].

(** ** Deleting from the menu *)

Lemma confirmed_from_weaken (tr : list ui_event) :
  forall armed, confirmed_from false tr -> confirmed_from armed tr.
Proof.
  induction tr as [|ev tr IH]; intros armed H; [exact I|].
  destruct ev as [ev|text args|prompt [typed|]|listed|name email done
                  |id done|id done];
    cbn [confirmed_from] in *; try assumption.
  - now apply IH.
  - destruct H as [H _]. discriminate.
Qed.

Lemma confirmed_from_app (t1 : list ui_event) :
  forall armed t2,
    confirmed_from armed t1 -> confirmed_from false t2 ->
    confirmed_from armed (t1 ++ t2).
Proof.
  induction t1 as [|ev t1 IH]; intros armed t2 H1 H2.
  - now apply confirmed_from_weaken.
  - destruct ev as [ev|text args|prompt [typed|]|listed|name email done
                    |id done|id done];
      cbn [confirmed_from app] in *; try (now apply IH).
    destruct H1 as [Ha H1]. split; [assumption | now apply IH].
Qed.

Lemma confirmed_property : trace_property confirmed.
Proof.
  constructor.
  - exact I.
  - intros t1 t2. apply confirmed_from_app.
  - intros. exact I.
  - intros tr. unfold confirmed.
    induction tr as [|ev tr IH]; [exact I | exact IH].
  - intros prompt [typed|]; exact I.
  - intros. exact I.
Qed.

Lemma confirmed_delete_account_interactive {W} (fe : Frontend W) :
  ui_always confirmed (delete_account_interactive fe).
Proof.
  pose proof confirmed_property as HTP.
  unfold delete_account_interactive.
  apply (ui_always_bind _ HTP);
    [apply (ui_always_list_accounts _ HTP) | intros accounts].
  destruct accounts as [|acc rest]; [apply (ui_always_ret _ HTP)|].
  repeat (apply (ui_always_bind _ HTP);
          [apply (ui_always_print _ HTP) | intros _]).
  apply (ui_always_bind _ HTP); [apply (ui_always_input _ HTP) | intros typed].
  cbn zeta. destruct (negb _); [apply (ui_always_lift _ HTP)|].
  apply (ui_always_bind _ HTP);
    [apply (ui_always_resolve_id _ HTP) | intros real_id].
  destruct (no_id real_id); [apply (ui_always_lift _ HTP)|].
  destruct real_id as [id|]; [| apply (ui_always_ret _ HTP)].
  intros w. unfold input. rewrite ui_events_call_bind.
  destruct (fe_input fe _ w) as [[answer|e] w1]; [| exact I].
  cbn zeta. destruct (negb _) eqn:E.
  - unfold confirmed. cbn [confirmed_from].
    apply confirmed_from_weaken. apply (ui_always_lift _ HTP).
  - apply negb_false_iff in E.
    rewrite ui_events_print_bind. unfold delete_account.
    rewrite ui_events_call_bind.
    assert (Harmed :
              ((PyText.newline
                ++ "⚠️  Are you sure you want to delete this account? (y/N): "
                =? confirm_prompt)%string && is_yes answer) = true).
    { apply andb_true_iff. split; [apply String.eqb_refl | exact E]. }
    destruct (fe_delete_account fe id w1) as [[done|e] w2];
      unfold confirmed; cbn [confirmed_from]; rewrite Harmed.
    + split; [reflexivity|]. destruct done; apply (ui_always_lift _ HTP).
    + split; [reflexivity | exact I].
Qed.

(** X14.  Whatever is typed at the menu, the store is asked to delete a
    snapshot only right after the question of line 123 was answered with a
    text that is ["y"] once stripped and lower-cased; nothing but printing
    lies between that answer and the deletion. *)
Theorem interactive_deletes_are_confirmed :
  forall (W : Type) (os : OS W) (fe : Frontend W) (cfg : Config)
         (patience fuel : nat) (w : W),
    confirmed (ui_events (interactive_mode os fe cfg patience fuel) w).
Proof.
  intros W os fe cfg patience fuel.
  pose proof confirmed_property as HTP.
  apply (ui_always_interactive_mode confirmed HTP).
  - apply ui_always_add_account; [assumption|]. intros. exact I.
  - apply ui_always_switch_account_interactive; [assumption|].
    intros. exact I.
  - apply confirmed_delete_account_interactive.
Qed.

(** The first snapshot is deleted on the answer [" Y "], and kept on the
    answer ["yes"]. *)
Lemma interactive_deletes_are_confirmed_witness :
  confirmed
    (ui_events (interactive_mode Desk.os Desk.fe Scenario.cfg 30 2)
               (Desk.desk ["4"; "1"; " Y "; ""; "0"])) /\
  existsb (deletes "2")
          (ui_events (interactive_mode Desk.os Desk.fe Scenario.cfg 30 2)
                     (Desk.desk ["4"; "1"; " Y "; ""; "0"])) = true /\
  existsb (deletes "2")
          (ui_events (interactive_mode Desk.os Desk.fe Scenario.cfg 30 2)
                     (Desk.desk ["4"; "1"; "yes"; ""; "0"])) = false.
Proof.
  split; [| split].
  - apply (interactive_deletes_are_confirmed Desk.World Desk.os Desk.fe
             Scenario.cfg 30 2 (Desk.desk ["4"; "1"; " Y "; ""; "0"])).
  - vm_compute. reflexivity.
  - vm_compute. reflexivity.
Defined.

(** ** Which snapshots the store is asked about *)

Lemma addressed_from_weaken (tr : list ui_event) :
  forall listed, addressed_from None tr -> addressed_from listed tr.
Proof.
  induction tr as [|ev tr IH]; intros listed H; [exact I|].
  destruct ev as [ev|text args|prompt typed|[accounts|]|name email done
                  |id done|id done];
    cbn [addressed_from] in *; try (now apply IH); try assumption.
  - destruct H as [(_ & accounts & Habs & _) _]. discriminate.
  - destruct H as [(_ & accounts & Habs & _) _]. discriminate.
Qed.

Lemma addressed_from_app (t1 : list ui_event) :
  forall listed t2,
    addressed_from listed t1 -> addressed_from None t2 ->
    addressed_from listed (t1 ++ t2).
Proof.
  induction t1 as [|ev t1 IH]; intros listed t2 H1 H2.
  - now apply addressed_from_weaken.
  - destruct ev as [ev|text args|prompt typed|[accounts|]|name email done
                    |id done|id done];
      cbn [addressed_from app] in *; try (now apply IH).
    + destruct H1 as [Ha H1]. split; [assumption | now apply IH].
    + destruct H1 as [Ha H1]. split; [assumption | now apply IH].
Qed.

Lemma addressed_property : trace_property addressed.
Proof.
  constructor.
  - exact I.
  - intros t1 t2. apply addressed_from_app.
  - intros. exact I.
  - intros tr. unfold addressed.
    induction tr as [|ev tr IH]; [exact I | exact IH].
  - intros. exact I.
  - intros [accounts|]; exact I.
Qed.

Lemma always_addressed_from {W A} (m : UI W A) listed (w : W) :
  ui_always addressed m -> addressed_from listed (ui_events m w).
Proof. intros H. apply addressed_from_weaken. apply H. Qed.

Lemma not_no_id (id : string) : no_id (Some id) = false -> id <> EmptyString.
Proof. intros H ->. discriminate. Qed.

Section Addressed.

Context {W : Type}.
Variable os : OS W.
Variable fe : Frontend W.
Variable cfg : Config.
Variable patience : nat.

Lemma addressed_resolve_then {B} (input_id : string)
      (k : option string -> UI W B) :
  (forall accounts r w,
      resolve_among (fe_max_str_digits fe) accounts input_id = Ok r ->
      addressed_from (Some accounts) (ui_events (k r) w)) ->
  ui_always addressed (ui_bind (resolve_id fe input_id) k).
Proof.
  intros Hk w. unfold ui_events, ui_bind. rewrite resolve_id_run.
  destruct (fe_list_accounts_data fe w) as [[accounts|e] w1];
    [| exact I].
  destruct (resolve_among (fe_max_str_digits fe) accounts input_id)
    as [r|e] eqn:E; [| exact I].
  specialize (Hk accounts r w1 E). unfold ui_events in Hk.
  destruct (k r w1) as [[o w2] t2]. exact Hk.
Qed.

Lemma addressed_switch_tail {B} accounts id (k : bool -> UI W B) (w : W) :
  id <> EmptyString -> In id (ids accounts) ->
  (forall done, ui_always addressed (k done)) ->
  addressed_from (Some accounts)
                 (ui_events (ui_bind (switch_account fe id) k) w).
Proof.
  intros Hne Hin Hk. unfold switch_account. rewrite ui_events_call_bind.
  destruct (fe_switch_account fe id w) as [[done|e] w1];
    cbn [addressed_from]; (split; [split; [assumption | now exists accounts]|]).
  - now apply always_addressed_from.
  - exact I.
Qed.

Lemma addressed_delete_tail {B} accounts id (k : bool -> UI W B) (w : W) :
  id <> EmptyString -> In id (ids accounts) ->
  (forall done, ui_always addressed (k done)) ->
  addressed_from (Some accounts)
                 (ui_events (ui_bind (delete_account fe id) k) w).
Proof.
  intros Hne Hin Hk. unfold delete_account. rewrite ui_events_call_bind.
  destruct (fe_delete_account fe id w) as [[done|e] w1];
    cbn [addressed_from]; (split; [split; [assumption | now exists accounts]|]).
  - now apply always_addressed_from.
  - exact I.
Qed.

Lemma addressed_switch_account_interactive :
  ui_always addressed (switch_account_interactive fe).
Proof.
  pose proof addressed_property as HTP.
  unfold switch_account_interactive.
  apply (ui_always_bind _ HTP);
    [apply (ui_always_list_accounts _ HTP) | intros accounts].
  destruct accounts as [|acc rest]; [apply (ui_always_ret _ HTP)|].
  repeat (apply (ui_always_bind _ HTP);
          [apply (ui_always_print _ HTP) | intros _]).
  apply (ui_always_bind _ HTP); [apply (ui_always_input _ HTP) | intros typed].
  cbn zeta. destruct (negb _); [apply (ui_always_lift _ HTP)|].
  apply addressed_resolve_then. intros accounts r w E.
  apply resolve_among_sound in E.
  destruct (no_id r) eqn:N;
    [apply always_addressed_from; apply (ui_always_lift _ HTP)|].
  destruct r as [id|]; [| exact I].
  rewrite ui_events_print_bind. cbn [addressed_from].
  apply addressed_switch_tail; [now apply not_no_id | assumption|].
  intros done. destruct done; apply (ui_always_lift _ HTP).
Qed.

Lemma addressed_delete_account_interactive :
  ui_always addressed (delete_account_interactive fe).
Proof.
  pose proof addressed_property as HTP.
  unfold delete_account_interactive.
  apply (ui_always_bind _ HTP);
    [apply (ui_always_list_accounts _ HTP) | intros accounts].
  destruct accounts as [|acc rest]; [apply (ui_always_ret _ HTP)|].
  repeat (apply (ui_always_bind _ HTP);
          [apply (ui_always_print _ HTP) | intros _]).
  apply (ui_always_bind _ HTP); [apply (ui_always_input _ HTP) | intros typed].
  cbn zeta. destruct (negb _); [apply (ui_always_lift _ HTP)|].
  apply addressed_resolve_then. intros accounts r w E.
  apply resolve_among_sound in E.
  destruct (no_id r) eqn:N;
    [apply always_addressed_from; apply (ui_always_lift _ HTP)|].
  destruct r as [id|]; [| exact I].
  unfold input. rewrite ui_events_call_bind.
  destruct (fe_input fe _ w) as [[answer|e] w1]; [| exact I].
  cbn zeta. cbn [addressed_from]. destruct (negb _).
  - apply always_addressed_from. apply (ui_always_lift _ HTP).
  - rewrite ui_events_print_bind. cbn [addressed_from].
    apply addressed_delete_tail; [now apply not_no_id | assumption|].
    intros done. destruct done; apply (ui_always_lift _ HTP).
Qed.

Lemma addressed_interactive_mode (fuel : nat) :
  ui_always addressed (interactive_mode os fe cfg patience fuel).
Proof.
  pose proof addressed_property as HTP.
  apply (ui_always_interactive_mode addressed HTP).
  - apply ui_always_add_account; [assumption|]. intros. exact I.
  - apply addressed_switch_account_interactive.
  - apply addressed_delete_account_interactive.
Qed.

Lemma addressed_cli_mode (fuel : nat) (command : Command) :
  ui_always addressed (cli_mode os fe cfg patience fuel command).
Proof.
  pose proof addressed_property as HTP.
  destruct command as [|name email|id|id| | |]; cbn [cli_mode].
  - always_with HTP.
  - apply (ui_always_bind _ HTP).
    + apply ui_always_call. intros. exact I.
    + intros done. always_with HTP.
  - apply addressed_resolve_then. intros accounts r w E.
    apply resolve_among_sound in E.
    destruct (no_id r) eqn:N;
      [apply always_addressed_from; always_with HTP|].
    destruct r as [real|]; [| exact I].
    apply addressed_switch_tail; [now apply not_no_id | assumption|].
    intros done. always_with HTP.
  - apply addressed_resolve_then. intros accounts r w E.
    apply resolve_among_sound in E.
    destruct (no_id r) eqn:N;
      [apply always_addressed_from; always_with HTP|].
    destruct r as [real|]; [| exact I].
    apply addressed_delete_tail; [now apply not_no_id | assumption|].
    intros done. always_with HTP.
  - always_with HTP.
  - always_with HTP.
  - apply addressed_interactive_mode.
Qed.

End Addressed.

(** X13.  Whatever the command line and whatever is typed, the front end
    asks the store to switch to or to delete a snapshot only under an id
    that is not empty and that stands in the listing the store answered last
    before the request: the listing that [resolve_id] read, not the one that
    was shown before the number was typed. *)
Theorem store_requests_are_addressed :
  forall (W : Type) (os : OS W) (fe : Frontend W) (cfg : Config)
         (patience fuel : nat) (args : list string)
         (parse : list string -> Command + Z) (w : W),
    addressed (ui_events (main os fe cfg patience fuel args parse) w).
Proof.
  intros W os fe cfg patience fuel args parse.
  unfold main. destruct args as [|arg args].
  - apply addressed_interactive_mode.
  - destruct (parse (arg :: args)) as [command|code].
    + apply addressed_cli_mode.
    + intros w. exact I.
Qed.

(** The number 2 typed at the menu switches to the second snapshot, the
    text ["2"] on the command line as well, although it is the id of the
    first. *)
Lemma store_requests_are_addressed_witness :
  addressed
    (ui_events (main Desk.os Desk.fe Scenario.cfg 30 2 [] (fun _ => inr 2))
               (Desk.desk ["3"; "2"; ""; "0"])) /\
  existsb (switches "b7f3")
          (ui_events (main Desk.os Desk.fe Scenario.cfg 30 2 []
                           (fun _ => inr 2))
                     (Desk.desk ["3"; "2"; ""; "0"])) = true /\
  ui_events (main Desk.os Desk.fe Scenario.cfg 30 2 ["switch"; "--id"; "2"]
                  (fun _ => inl (CmdSwitch "2")))
            (Desk.desk [])
  = [UiListAccounts (Some [Desk.work; Desk.home]);
     UiSwitch "b7f3" (Some true);
     UiCore (EvLog Info "Switch successful" [])].
Proof.
  split; [| split].
  - apply (store_requests_are_addressed Desk.World Desk.os Desk.fe
             Scenario.cfg 30 2 [] (fun _ => inr 2)
             (Desk.desk ["3"; "2"; ""; "0"])).
  - vm_compute. reflexivity.
  - vm_compute. reflexivity.
Defined.

(** ** The command line *)

Lemma desk_ticking : ticking Desk.os Desk.clock.
Proof.
  constructor; intros; unfold Desk.clock; cbn; lia.
Qed.

Lemma close_antigravity_returns {W} (os : OS W) (cfg : Config)
      (clock : W -> Z) (fuel : nat) (timeout : Z) (force_kill : bool) (w : W) :
  ticking os clock ->
  (Z.to_nat (2 * timeout) < fuel)%nat ->
  exists b, result (close_antigravity os cfg fuel timeout force_kill) w = Ret b.
Proof.
  intros Hticks Hfuel.
  assert (E := close_antigravity_eq os cfg fuel timeout force_kill w).
  cbn zeta in E. unfold result at 1. rewrite E.
  pose proof (close_body_total os cfg clock Hticks fuel timeout force_kill
                               Hfuel w) as Htotal.
  destruct (result (close_body os cfg fuel timeout force_kill) w)
    as [b|e|]; [now exists b | now exists false | congruence].
Qed.

Lemma lift_discarded {W A} (m : M W A) (w : W) (a : A) :
  result m w = Ret a ->
  ui_result (ui_bind (ui_lift m) (fun _ => ui_ret tt)) w = UiRet tt /\
  ui_events (ui_bind (ui_lift m) (fun _ => ui_ret tt)) w
  = map UiCore (events m w).
Proof.
  intros H. rewrite ui_result_bind, ui_events_bind, ui_result_lift, H.
  rewrite ui_events_lift. split; [reflexivity|].
  change (ui_events (ui_ret tt) (ui_final (ui_lift m) w)) with (@nil ui_event).
  now rewrite app_nil_r.
Qed.

(** X12.  The commands [start] and [stop] end normally whether the launch
    or the shutdown succeeded or not: the boolean that the controller
    returns is dropped, nothing is printed or asked beside what the
    controller logs and does, and the command returns without an exit
    status of its own (under a clock that ticks and with fuel for the
    twenty rounds of polling that the default timeout allows). *)
Theorem cli_start_stop_ignore_outcome :
  forall (W : Type) (os : OS W) (fe : Frontend W) (cfg : Config)
         (clock : W -> Z) (patience fuel : nat) (w : W),
    ticking os clock ->
    (20 < patience)%nat ->
    (ui_result (cli_mode os fe cfg patience fuel CmdStart) w = UiRet tt /\
     ui_events (cli_mode os fe cfg patience fuel CmdStart) w
     = map UiCore (events (start_antigravity os cfg patience true) w)) /\
    (ui_result (cli_mode os fe cfg patience fuel CmdStop) w = UiRet tt /\
     ui_events (cli_mode os fe cfg patience fuel CmdStop) w
     = map UiCore (events (close_antigravity os cfg patience 10 true) w)).
Proof.
  intros W os fe cfg clock patience fuel w Hticks Hfuel.
  cbn [cli_mode]. split.
  - destruct patience as [|[|patience]]; try lia.
    destruct (start_returns os cfg patience true w) as [b Hb].
    now apply lift_discarded with (a := b).
  - destruct (close_antigravity_returns os cfg clock patience 10 true w
                                        Hticks) as [b Hb].
    { change (Z.to_nat (2 * 10)) with 20%nat. exact Hfuel. }
    now apply lift_discarded with (a := b).
Qed.

(** A target that nothing ends: the shutdown returns false, the command
    [stop] returns all the same. *)
Lemma cli_start_stop_ignore_outcome_witness :
  result (close_antigravity Desk.os Scenario.cfg 30 10 true) Desk.unkillable
  = Ret false /\
  ui_result (cli_mode Desk.os Desk.fe Scenario.cfg 30 0 CmdStop)
            Desk.unkillable = UiRet tt.
Proof.
  split; [vm_compute; reflexivity|].
  apply (cli_start_stop_ignore_outcome Desk.World Desk.os Desk.fe
           Scenario.cfg Desk.clock 30 0 Desk.unkillable);
    [apply desk_ticking | lia].
Defined.

Section ExitStatus.

Context {W : Type}.
Variable os : OS W.
Variable fe : Frontend W.
Variable cfg : Config.
Variable patience : nat.

Lemma cli_mode_exit (fuel : nat) (command : Command) (w : W) (code : Z) :
  ui_result (cli_mode os fe cfg patience fuel command) w = UiExit code ->
  match command with
  | CmdAdd name email =>
      code = 1 /\ fst (fe_add_account_snapshot fe name email w) = Ok false
  | CmdSwitch _ | CmdDelete _ => code = 1
  | CmdNone => code = 0
  | CmdList | CmdStart | CmdStop => False
  end.
Proof.
  destruct command as [|name email|id|id| | |]; cbn [cli_mode]; intros H.
  - revert H. apply never_exits_bind;
      [apply never_exits_list_accounts | intros; apply never_exits_ret].
  - unfold add_account_snapshot in H. rewrite ui_result_call_bind in H.
    destruct (fe_add_account_snapshot fe name email w) as [[[|]|e] w1];
      try discriminate.
    injection H as <-. now split.
  - apply exit_after in H as (r & H & _); [| apply never_exits_resolve_id].
    destruct (no_id r); [now injection H as <-|].
    destruct r as [real|]; [| discriminate].
    unfold switch_account in H. rewrite ui_result_call_bind in H.
    destruct (fe_switch_account fe real _) as [[[|]|e] w1];
      try discriminate.
    now injection H as <-.
  - apply exit_after in H as (r & H & _); [| apply never_exits_resolve_id].
    destruct (no_id r); [now injection H as <-|].
    destruct r as [real|]; [| discriminate].
    unfold delete_account in H. rewrite ui_result_call_bind in H.
    destruct (fe_delete_account fe real _) as [[[|]|e] w1];
      try discriminate.
    now injection H as <-.
  - revert H. apply never_exits_bind;
      [apply never_exits_lift | intros; apply never_exits_ret].
  - revert H. apply never_exits_bind;
      [apply never_exits_lift | intros; apply never_exits_ret].
  - now apply interactive_mode_exit in H as [-> _].
Qed.

Lemma cli_mode_unresolved (fuel : nat) (command : Command) (id : string)
      (w : W) (r : option string) :
  names_snapshot command = Some id ->
  ui_result (resolve_id fe id) w = UiRet r ->
  no_id r = true ->
  ui_result (cli_mode os fe cfg patience fuel command) w = UiExit 1 /\
  ui_events (cli_mode os fe cfg patience fuel command) w
  = (ui_events (resolve_id fe id) w ++ [invalid_id_log id])%list.
Proof.
  intros Hname Hr Hno.
  destruct command as [|name email|id'|id'| | |]; try discriminate;
    injection Hname as ->; cbn [cli_mode];
    rewrite ui_result_bind, ui_events_bind, Hr, Hno; split; reflexivity.
Qed.

End ExitStatus.

(** X16.  The exit statuses of the command line.  [add], [switch] and
    [delete] exit with status 1 and no other, [add] exactly when the store
    reports failure; [list], [start] and [stop] never exit by themselves; the
    menu exits with status 0 only.  A [switch] or [delete] whose text
    resolves to no id exits with status 1 after the error line, without
    asking the store for anything but the listing. *)
Theorem cli_exit_status :
  forall (W : Type) (os : OS W) (fe : Frontend W) (cfg : Config)
         (patience fuel : nat) (command : Command) (w : W),
    (forall code,
        ui_result (cli_mode os fe cfg patience fuel command) w = UiExit code ->
        match command with
        | CmdAdd name email =>
            code = 1 /\
            fst (fe_add_account_snapshot fe name email w) = Ok false
        | CmdSwitch _ | CmdDelete _ => code = 1
        | CmdNone => code = 0
        | CmdList | CmdStart | CmdStop => False
        end) /\
    (forall id r,
        names_snapshot command = Some id ->
        ui_result (resolve_id fe id) w = UiRet r ->
        no_id r = true ->
        ui_result (cli_mode os fe cfg patience fuel command) w = UiExit 1 /\
        ui_events (cli_mode os fe cfg patience fuel command) w
        = (ui_events (resolve_id fe id) w ++ [invalid_id_log id])%list).
Proof.
  intros W os fe cfg patience fuel command w. split.
  - intros code. apply cli_mode_exit.
  - intros id r. apply cli_mode_unresolved.
Qed.

(** Deleting the snapshot ["nobody"], which is not there; and adding one
    when the store declines. *)
Lemma cli_exit_status_witness :
  (ui_result (cli_mode Desk.os Desk.fe Scenario.cfg 30 0 (CmdDelete "nobody"))
             (Desk.desk []) = UiExit 1 /\
   ui_events (cli_mode Desk.os Desk.fe Scenario.cfg 30 0 (CmdDelete "nobody"))
             (Desk.desk [])
   = [UiListAccounts (Some [Desk.work; Desk.home]); invalid_id_log "nobody"])
  /\ fst (fe_add_account_snapshot Desk.fe None None (Desk.desk []))
     = Ok false.
Proof.
  split.
  - apply (proj2 (cli_exit_status Desk.World Desk.os Desk.fe Scenario.cfg
                    30 0 (CmdDelete "nobody") (Desk.desk []))
             "nobody" None); reflexivity.
  - apply (proj1 (cli_exit_status Desk.World Desk.os Desk.fe Scenario.cfg
                    30 0 (CmdAdd None None) (Desk.desk [])) 1).
    reflexivity.
Defined.

Lemma resolve_id_value_error {W} (fe : Frontend W) (id : string)
      (accounts : list Account) (w w1 : W) :
  fe_list_accounts_data fe w = (Ok accounts, w1) ->
  PyText.isdigit id = true ->
  ~ (PyText.all_chars PyText.is_decimal_char id = true /\
     within_digit_limit (fe_max_str_digits fe) id) ->
  resolve_id fe id w
  = (UiRaise value_error, w1, [UiListAccounts (Some accounts)]).
Proof.
  intros Hlist Hdigit Hbad. rewrite resolve_id_run, Hlist.
  unfold resolve_among. rewrite Hdigit.
  destruct (int_of_digits_inv (fe_max_str_digits fe) id)
    as [(idx & _ & _ & Hdec & Hlim)|[-> _]]; [tauto | reflexivity].
Qed.

(** X18.  [switch] and [delete] do not catch what [resolve_id] raises.  A
    text that passes [isdigit] but that [int] does not convert (a
    superscript digit, or more digits than the interpreter's limit) ends the
    command with [ValueError] right after the listing: no error line is
    logged and no exit status 1 is set, unlike for any other text that names
    no snapshot. *)
Theorem cli_digit_that_is_no_number_raises :
  forall (W : Type) (os : OS W) (fe : Frontend W) (cfg : Config)
         (patience fuel : nat) (command : Command) (id : string)
         (accounts : list Account) (w w1 : W),
    names_snapshot command = Some id ->
    fe_list_accounts_data fe w = (Ok accounts, w1) ->
    PyText.isdigit id = true ->
    ~ (PyText.all_chars PyText.is_decimal_char id = true /\
       within_digit_limit (fe_max_str_digits fe) id) ->
    ui_result (cli_mode os fe cfg patience fuel command) w
    = UiRaise value_error /\
    ui_events (cli_mode os fe cfg patience fuel command) w
    = [UiListAccounts (Some accounts)].
Proof.
  intros W os fe cfg patience fuel command id accounts w w1
         Hname Hlist Hdigit Hbad.
  pose proof (resolve_id_value_error fe id accounts w w1 Hlist Hdigit Hbad)
    as Hrun.
  assert (Hraise : ui_result (resolve_id fe id) w = UiRaise value_error)
    by (unfold ui_result; now rewrite Hrun).
  assert (Hev : ui_events (resolve_id fe id) w
                = [UiListAccounts (Some accounts)])
    by (unfold ui_events; now rewrite Hrun).
  destruct command as [|name email|id'|id'| | |]; try discriminate;
    injection Hname as ->; cbn [cli_mode];
    rewrite ui_result_bind, ui_events_bind, Hraise; now split.
Qed.

Lemma cli_digit_that_is_no_number_raises_witness :
  ui_result (cli_mode Desk.os Desk.fe Scenario.cfg 30 0
                      (CmdSwitch superscript_two)) (Desk.desk [])
  = UiRaise value_error /\
  ui_events (cli_mode Desk.os Desk.fe Scenario.cfg 30 0
                      (CmdSwitch superscript_two)) (Desk.desk [])
  = [UiListAccounts (Some [Desk.work; Desk.home])].
Proof.
  apply (cli_digit_that_is_no_number_raises Desk.World Desk.os Desk.fe
           Scenario.cfg 30 0 (CmdSwitch superscript_two) superscript_two
           [Desk.work; Desk.home] (Desk.desk []) (Desk.desk []));
    try reflexivity.
  intros [H _]. discriminate.
Defined.
